(** * Per-CPU instruction trace core (accel/tcg/log_instr.c)

    A shallow embedding of the collection and dispatch engine of the TCG
    instruction logger: the entry model, the ring of entries, the filter
    pipeline, commit / drop / flush, the per-CPU loglevel switch, the
    monitor-facing global switch and the staged printf dump helper.

    Conventions.
    - C integers are [Z]; ring indices and array positions are [nat]
      (they index [GArray]s, modelled as lists with stdpp's lookup and
      insert).  Statistics counters wrap at 64 bits.  Ring sizes are
      [N]: an [unsigned long] in the logger, truncated to the [guint]
      the [GArray] calls take.
    - A function that dereferences a ring slot returns [option]: [None]
      stands for behaviour C leaves undefined (index outside the array,
      modulo by a zero length, an [int] shift that overflows).
    - Heap-owned register dumps live in a store [heap : gmap nat _];
      [g_array_free] deletes the binding.
    - Calls into the backend and into filters are recorded, in order, in
      the [trace] component of the machine, so that "was not called" is a
      statement about that trace. *)

From stdpp Require Import gmap strings list.
From Stdlib Require Import ZArith Lia.

Local Open Scope Z_scope.

(** ** Constants of the absent headers *)

(** Modelled from the spec: [exec/log_instr.h] and [qemu/log.h] are not
    part of the sources.  The entry flags are single, pairwise distinct
    bits; no proof below depends on the numeric values chosen here. *)
Definition LI_FLAG_INTR_TRAP : Z := 1.
Definition LI_FLAG_INTR_ASYNC : Z := 2.
Definition LI_FLAG_MODE_SWITCH : Z := 4.
Definition LI_FLAG_HAS_INSTR_DATA : Z := 8.

Definition LRI_CAP_REG : Z := 1.
Definition LRI_HOLDS_CAP : Z := 2.

Definition LMI_LD : Z := 1.
Definition LMI_ST : Z := 2.
Definition LMI_CAP : Z := 4.

Definition QEMU_LOG_INSTR_FLAG_BUFFERED : Z := 1.

(** Modelled from the spec: the two bits of the global log-flags word the
    core reads ([qemu/log.h] is absent). *)
Definition CPU_LOG_INSTR : Z := Z.shiftl 1 21.
Definition CPU_LOG_INSTR_U : Z := Z.shiftl 1 23.

(** Modelled from the spec: the enum value of the user CPU mode. *)
Definition QEMU_LOG_INSTR_CPU_USER : Z := 0.

Definition MIN_ENTRY_BUFFER_SIZE : nat := Nat.pow 2 16.

(** Modelled from the spec: number of argument words per staged printf. *)
Definition QEMU_LOG_PRINTF_ARG_MAX : nat := 8.

(** 64-bit unsigned wrap-around, and the [(hwaddr)-1] sentinel. *)
Definition wrap64 (z : Z) : Z := z mod 2 ^ 64.
Definition HWADDR_NONE : Z := 2 ^ 64 - 1.

(** Sizes are [unsigned long] in the logger and [guint] in the [GArray]
    calls that receive them: the conversion keeps the low 32 bits.  The
    loops over a ring count with an [int]. *)
Definition ulong_of (n : N) : N := (n mod 2 ^ 64)%N.
Definition guint_of (n : N) : N := (n mod 2 ^ 32)%N.
Definition INT_MAX : N := (2 ^ 31 - 1)%N.

(** [flags & mask] as a C truth value. *)
Definition has_flag (flags mask : Z) : bool := negb (Z.land flags mask =? 0).

(** ** Data model *)

Inductive qemu_log_instr_loglevel_t :=
| QEMU_LOG_INSTR_LOGLEVEL_NONE
| QEMU_LOG_INSTR_LOGLEVEL_USER
| QEMU_LOG_INSTR_LOGLEVEL_ALL.

Definition loglevel_eqb (a b : qemu_log_instr_loglevel_t) : bool :=
  match a, b with
  | QEMU_LOG_INSTR_LOGLEVEL_NONE, QEMU_LOG_INSTR_LOGLEVEL_NONE
  | QEMU_LOG_INSTR_LOGLEVEL_USER, QEMU_LOG_INSTR_LOGLEVEL_USER
  | QEMU_LOG_INSTR_LOGLEVEL_ALL, QEMU_LOG_INSTR_LOGLEVEL_ALL => true
  | _, _ => false
  end.

(** The value union of a register record: integer or capability (the
    capability is kept abstract, as a word). *)
Inductive log_regvalue_t :=
| REG_GPR (gpr : Z)
| REG_CAP (cap : Z).

Record log_reginfo_t := mk_reginfo {
  ri_flags : Z;
  ri_name : string;
  ri_value : log_regvalue_t
}.

Record log_meminfo_t := mk_meminfo {
  mi_flags : Z;
  mi_op : Z;
  mi_addr : Z;
  mi_paddr : Z;
  mi_value : log_regvalue_t
}.

Inductive log_event_state_t :=
| LOG_EVENT_STATE_START
| LOG_EVENT_STATE_STOP
| LOG_EVENT_STATE_FLUSH.

(** [log_event_t]: the [id] discriminator with its union.  A register
    dump holds a pointer to a heap [GArray] of register records. *)
Inductive log_event_t :=
| LOG_EVENT_STATE (next_state : log_event_state_t) (pc : Z)
| LOG_EVENT_REGDUMP (gpr : nat)
| LOG_EVENT_USER (id : Z) (payload : Z).

Record cpu_log_entry_t := mk_entry {
  (* zeroed by reset_log_buffer: startzero .. endzero *)
  e_asid : Z;
  e_flags : Z;
  e_next_cpu_mode : Z;
  e_intr_code : Z;
  e_intr_vector : Z;
  e_intr_faultaddr : Z;
  e_pc : Z;
  e_paddr : Z;
  e_insn_bytes : list Z;
  e_insn_size : Z;
  (* owned containers, emptied by reset_log_buffer *)
  e_txt_buffer : string;
  e_regs : list log_reginfo_t;
  e_mem : list log_meminfo_t;
  e_events : list log_event_t
}.

(** Function identities stored in the per-CPU filter array
    ([cpu_log_instr_filter_fn_t]); the array compares them by address. *)
Inductive cpu_log_instr_filter_fn_t :=
| entry_mem_regions_filter_fn
| entry_event_filter_fn.

Global Instance filter_fn_eq_dec : EqDecision cpu_log_instr_filter_fn_t.
Proof. solve_decision. Defined.

Record qemu_log_instr_stats_t := mk_stats {
  entries_emitted : Z;
  trace_start : Z;
  trace_stop : Z
}.

(** One argument word of the staging area (an 8-byte union). *)
Definition qemu_log_arg_t := Z.

Record qemu_log_printf_buf_t := mk_printf_buf {
  pb_args : list qemu_log_arg_t;
  pb_fmts : list string;
  valid_entries : Z
}.

Record cpu_log_instr_state_t := mk_cpulog {
  loglevel : qemu_log_instr_loglevel_t;
  loglevel_active : bool;
  starting : bool;
  force_drop : bool;
  cl_flags : Z;
  instr_info : list cpu_log_entry_t;
  ring_head : nat;
  ring_tail : nat;
  filters : list cpu_log_instr_filter_fn_t;
  stats : qemu_log_instr_stats_t;
  qemu_log_printf_buf : qemu_log_printf_buf_t
}.

(** What the core does to its collaborators, in call order. *)
Inductive observation :=
| ObsFilter (fn : cpu_log_instr_filter_fn_t) (e : cpu_log_entry_t) (res : bool)
| ObsEmitInstr (e : cpu_log_entry_t).

(** The state one CPU's logger runs against: its own log state, the
    process-wide log-flags word, the heap of register dumps and the trace
    of collaborator calls. *)
Record machine := mk_machine {
  cpulog : cpu_log_instr_state_t;
  qemu_loglevel : Z;
  heap : gmap nat (list log_reginfo_t);
  heap_next : nat;
  trace : list observation
}.

(** An address range of the [-dfilter] infrastructure ([qemu/range.h]):
    [lob .. upb], both inclusive. *)
Record Range := mk_range { lob : Z; upb : Z }.

(** The target and emulator collaborators, as one call sees them. *)
Record target_t := mk_target {
  TARGET_PAGE_BITS : Z;
  TARGET_MAX_INSN_SIZE : nat;
  cpu_get_phys_page_attrs_debug : Z -> Z;
  cpu_in_user_mode : bool;
  cpu_get_recent_pc : Z;
  (* cpu_log_instr_event_regdump: None when the hook reports failure,
     otherwise the registers it dumped into the event *)
  cpu_log_instr_event_regdump : option (list log_reginfo_t);
  (* the external GArray *debug_regions: None is the NULL pointer *)
  debug_regions : option (list Range);
  (* the text the typed-vararg renderer produces for one staged format
     and the argument words that start at its slot; every write of
     g_string_append_printf_union_args is a g_string_append_printf, so
     the renderer only ever appends this text *)
  render_union_args : string -> list qemu_log_arg_t -> string
}.

(** The argument block handed to the switch callbacks.  [g_new] does not
    initialise it: [arg_pc] is [None] until a caller stores a pc. *)
Record qemu_log_next_level_arg_t := mk_next_level_arg {
  next_level : qemu_log_instr_loglevel_t;
  arg_pc : option Z;
  arg_global : bool
}.

(** ** Field updates *)

Definition set_e_flags (v : Z) (e : cpu_log_entry_t) : cpu_log_entry_t :=
  mk_entry (e_asid e) v (e_next_cpu_mode e) (e_intr_code e) (e_intr_vector e)
    (e_intr_faultaddr e) (e_pc e) (e_paddr e) (e_insn_bytes e) (e_insn_size e)
    (e_txt_buffer e) (e_regs e) (e_mem e) (e_events e).

Definition set_e_next_cpu_mode (v : Z) (e : cpu_log_entry_t) : cpu_log_entry_t :=
  mk_entry (e_asid e) (e_flags e) v (e_intr_code e) (e_intr_vector e)
    (e_intr_faultaddr e) (e_pc e) (e_paddr e) (e_insn_bytes e) (e_insn_size e)
    (e_txt_buffer e) (e_regs e) (e_mem e) (e_events e).

Definition set_e_pc (v : Z) (e : cpu_log_entry_t) : cpu_log_entry_t :=
  mk_entry (e_asid e) (e_flags e) (e_next_cpu_mode e) (e_intr_code e)
    (e_intr_vector e) (e_intr_faultaddr e) v (e_paddr e) (e_insn_bytes e)
    (e_insn_size e) (e_txt_buffer e) (e_regs e) (e_mem e) (e_events e).

Definition set_e_paddr (v : Z) (e : cpu_log_entry_t) : cpu_log_entry_t :=
  mk_entry (e_asid e) (e_flags e) (e_next_cpu_mode e) (e_intr_code e)
    (e_intr_vector e) (e_intr_faultaddr e) (e_pc e) v (e_insn_bytes e)
    (e_insn_size e) (e_txt_buffer e) (e_regs e) (e_mem e) (e_events e).

Definition set_e_insn (bytes : list Z) (size : Z) (e : cpu_log_entry_t)
  : cpu_log_entry_t :=
  mk_entry (e_asid e) (e_flags e) (e_next_cpu_mode e) (e_intr_code e)
    (e_intr_vector e) (e_intr_faultaddr e) (e_pc e) (e_paddr e) bytes size
    (e_txt_buffer e) (e_regs e) (e_mem e) (e_events e).

Definition set_e_txt_buffer (v : string) (e : cpu_log_entry_t) : cpu_log_entry_t :=
  mk_entry (e_asid e) (e_flags e) (e_next_cpu_mode e) (e_intr_code e)
    (e_intr_vector e) (e_intr_faultaddr e) (e_pc e) (e_paddr e)
    (e_insn_bytes e) (e_insn_size e) v (e_regs e) (e_mem e) (e_events e).

Definition set_e_regs (v : list log_reginfo_t) (e : cpu_log_entry_t)
  : cpu_log_entry_t :=
  mk_entry (e_asid e) (e_flags e) (e_next_cpu_mode e) (e_intr_code e)
    (e_intr_vector e) (e_intr_faultaddr e) (e_pc e) (e_paddr e)
    (e_insn_bytes e) (e_insn_size e) (e_txt_buffer e) v (e_mem e) (e_events e).

Definition set_e_mem (v : list log_meminfo_t) (e : cpu_log_entry_t)
  : cpu_log_entry_t :=
  mk_entry (e_asid e) (e_flags e) (e_next_cpu_mode e) (e_intr_code e)
    (e_intr_vector e) (e_intr_faultaddr e) (e_pc e) (e_paddr e)
    (e_insn_bytes e) (e_insn_size e) (e_txt_buffer e) (e_regs e) v (e_events e).

Definition set_e_events (v : list log_event_t) (e : cpu_log_entry_t)
  : cpu_log_entry_t :=
  mk_entry (e_asid e) (e_flags e) (e_next_cpu_mode e) (e_intr_code e)
    (e_intr_vector e) (e_intr_faultaddr e) (e_pc e) (e_paddr e)
    (e_insn_bytes e) (e_insn_size e) (e_txt_buffer e) (e_regs e) (e_mem e) v.

Definition set_loglevel (l : qemu_log_instr_loglevel_t) (a : bool)
  (c : cpu_log_instr_state_t) : cpu_log_instr_state_t :=
  mk_cpulog l a (starting c) (force_drop c) (cl_flags c) (instr_info c)
    (ring_head c) (ring_tail c) (filters c) (stats c) (qemu_log_printf_buf c).

Definition set_starting (v : bool) (c : cpu_log_instr_state_t)
  : cpu_log_instr_state_t :=
  mk_cpulog (loglevel c) (loglevel_active c) v (force_drop c) (cl_flags c)
    (instr_info c) (ring_head c) (ring_tail c) (filters c) (stats c)
    (qemu_log_printf_buf c).

Definition set_force_drop (v : bool) (c : cpu_log_instr_state_t)
  : cpu_log_instr_state_t :=
  mk_cpulog (loglevel c) (loglevel_active c) (starting c) v (cl_flags c)
    (instr_info c) (ring_head c) (ring_tail c) (filters c) (stats c)
    (qemu_log_printf_buf c).

Definition set_cl_flags (v : Z) (c : cpu_log_instr_state_t)
  : cpu_log_instr_state_t :=
  mk_cpulog (loglevel c) (loglevel_active c) (starting c) (force_drop c) v
    (instr_info c) (ring_head c) (ring_tail c) (filters c) (stats c)
    (qemu_log_printf_buf c).

Definition set_instr_info (v : list cpu_log_entry_t) (c : cpu_log_instr_state_t)
  : cpu_log_instr_state_t :=
  mk_cpulog (loglevel c) (loglevel_active c) (starting c) (force_drop c)
    (cl_flags c) v (ring_head c) (ring_tail c) (filters c) (stats c)
    (qemu_log_printf_buf c).

Definition set_ring (h t : nat) (c : cpu_log_instr_state_t)
  : cpu_log_instr_state_t :=
  mk_cpulog (loglevel c) (loglevel_active c) (starting c) (force_drop c)
    (cl_flags c) (instr_info c) h t (filters c) (stats c)
    (qemu_log_printf_buf c).

Definition set_filters (v : list cpu_log_instr_filter_fn_t)
  (c : cpu_log_instr_state_t) : cpu_log_instr_state_t :=
  mk_cpulog (loglevel c) (loglevel_active c) (starting c) (force_drop c)
    (cl_flags c) (instr_info c) (ring_head c) (ring_tail c) v (stats c)
    (qemu_log_printf_buf c).

Definition set_stats (v : qemu_log_instr_stats_t) (c : cpu_log_instr_state_t)
  : cpu_log_instr_state_t :=
  mk_cpulog (loglevel c) (loglevel_active c) (starting c) (force_drop c)
    (cl_flags c) (instr_info c) (ring_head c) (ring_tail c) (filters c) v
    (qemu_log_printf_buf c).

Definition set_printf_buf (v : qemu_log_printf_buf_t) (c : cpu_log_instr_state_t)
  : cpu_log_instr_state_t :=
  mk_cpulog (loglevel c) (loglevel_active c) (starting c) (force_drop c)
    (cl_flags c) (instr_info c) (ring_head c) (ring_tail c) (filters c)
    (stats c) v.

Definition upd_cpulog (f : cpu_log_instr_state_t -> cpu_log_instr_state_t)
  (m : machine) : machine :=
  mk_machine (f (cpulog m)) (qemu_loglevel m) (heap m) (heap_next m) (trace m).

Definition set_heap (h : gmap nat (list log_reginfo_t)) (n : nat) (m : machine)
  : machine :=
  mk_machine (cpulog m) (qemu_loglevel m) h n (trace m).

Definition set_qemu_loglevel (v : Z) (m : machine) : machine :=
  mk_machine (cpulog m) v (heap m) (heap_next m) (trace m).

Definition observe (o : list observation) (m : machine) : machine :=
  mk_machine (cpulog m) (qemu_loglevel m) (heap m) (heap_next m) (trace m ++ o).

(** [QEMU_LOG_INSTR_INC_STAT]: the counters are [unsigned long]. *)
Definition inc_stat (n : Z) : Z := wrap64 (n + 1).

Definition inc_entries_emitted (s : qemu_log_instr_stats_t) :=
  mk_stats (inc_stat (entries_emitted s)) (trace_start s) (trace_stop s).
Definition inc_trace_start (s : qemu_log_instr_stats_t) :=
  mk_stats (entries_emitted s) (inc_stat (trace_start s)) (trace_stop s).
Definition inc_trace_stop (s : qemu_log_instr_stats_t) :=
  mk_stats (entries_emitted s) (trace_start s) (inc_stat (trace_stop s)).

(** [get_cpu_log_entry]: the slot [ring_head] names. *)
Definition get_cpu_log_entry (m : machine) : option cpu_log_entry_t :=
  instr_info (cpulog m) !! ring_head (cpulog m).

(** In-place update of ring slot [i]. *)
Definition put_entry (i : nat) (e : cpu_log_entry_t) (m : machine) : machine :=
  upd_cpulog (fun c => set_instr_info (<[i := e]> (instr_info c)) c) m.

(** ** Events and address translation *)

(** [get_paddr]: ask the MMU collaborator for the page, add the page
    offset; [(hwaddr)-1] when the page does not translate. *)
Definition get_paddr (tgt : target_t) (vaddr : Z) : Z :=
  (* uint64_t vaddr; the MMU returns a hwaddr *)
  let vaddr := wrap64 vaddr in
  let low := Z.ones (TARGET_PAGE_BITS tgt) in
  let paddr_base :=
    wrap64 (cpu_get_phys_page_attrs_debug tgt (Z.ldiff vaddr low)) in
  if paddr_base =? HWADDR_NONE then HWADDR_NONE
  else wrap64 (paddr_base + Z.land vaddr low).

Definition emit_start_event (tgt : target_t) (entry : cpu_log_entry_t) (pc : Z)
  : cpu_log_entry_t :=
  let event := LOG_EVENT_STATE LOG_EVENT_STATE_START pc in
  (* Start events always have incomplete instruction data *)
  let entry := set_e_flags (Z.land (e_flags entry) (Z.lnot LI_FLAG_HAS_INSTR_DATA)) entry in
  let entry := set_e_pc pc entry in
  let entry := set_e_paddr (get_paddr tgt pc) entry in
  set_e_events (e_events entry ++ [event]) entry.

Definition emit_stop_event (entry : cpu_log_entry_t) (pc : Z) : cpu_log_entry_t :=
  let event := LOG_EVENT_STATE LOG_EVENT_STATE_STOP pc in
  set_e_events (e_events entry ++ [event]) entry.

(** [emit_regdump_event] on ring slot [i]: the target hook allocates the
    dump; nothing is appended when the hook reports failure. *)
Definition emit_regdump_event (tgt : target_t) (i : nat) (m : machine)
  : option machine :=
  entry ← instr_info (cpulog m) !! i;
  match cpu_log_instr_event_regdump tgt with
  | None => Some m
  | Some dump =>
      let a := heap_next m in
      let m := set_heap (<[a := dump]> (heap m)) (S a) m in
      Some (put_entry i (set_e_events (e_events entry ++ [LOG_EVENT_REGDUMP a]) entry) m)
  end.

(** ** Reset *)

(** The loop of [reset_log_buffer] over the events: every register dump
    is handed to [g_array_free]. *)
Fixpoint free_event_payloads (evts : list log_event_t)
  (h : gmap nat (list log_reginfo_t)) : gmap nat (list log_reginfo_t) :=
  match evts with
  | [] => h
  | LOG_EVENT_REGDUMP a :: rest => free_event_payloads rest (delete a h)
  | _ :: rest => free_event_payloads rest h
  end.

(** The entry after the [memset] of its scalar part and the emptying of
    its containers. *)
Definition reset_entry (entry : cpu_log_entry_t) : cpu_log_entry_t :=
  mk_entry 0 0 0 0 0 0 0 0 (replicate (length (e_insn_bytes entry)) 0) 0
    EmptyString [] [] [].

(** [reset_log_buffer(cpulog, entry)] with [entry = &instr_info[i]]. *)
Definition reset_log_buffer (i : nat) (m : machine) : option machine :=
  entry ← instr_info (cpulog m) !! i;
  let h := free_event_payloads (e_events entry) (heap m) in
  let m := put_entry i (reset_entry entry) m in
  let m := set_heap h (heap_next m) m in
  Some (upd_cpulog (fun c => set_starting false (set_force_drop false c)) m).

(** ** Filters *)

Definition range_contains (r : Range) (v : Z) : bool :=
  (* uint64_t val against the uint64_t bounds of the range *)
  let v := wrap64 v in
  (wrap64 (lob r) <=? v) && (v <=? wrap64 (upb r)).

(** Inner loop of [entry_mem_regions_filter] over the memory records. *)
Fixpoint mem_regions_inner (r : Range) (mem : list log_meminfo_t) : bool :=
  match mem with
  | [] => false
  | minfo :: rest =>
      if range_contains r (mi_addr minfo) then true else mem_regions_inner r rest
  end.

(** Outer loop of [entry_mem_regions_filter] over the ranges. *)
Fixpoint mem_regions_outer (ranges : list Range) (entry : cpu_log_entry_t) : bool :=
  match ranges with
  | [] => false
  | r :: rest =>
      if range_contains r (e_pc entry) then true
      else if mem_regions_inner r (e_mem entry) then true
      else mem_regions_outer rest entry
  end.

Definition entry_mem_regions_filter (tgt : target_t) (entry : cpu_log_entry_t)
  : bool :=
  match debug_regions tgt with
  | None => true
  | Some ranges => mem_regions_outer ranges entry
  end.

Definition entry_event_filter (entry : cpu_log_entry_t) : bool :=
  (0 <? length (e_events entry))%nat.

(** The registry [trace_filters], indexed by [cpu_log_instr_filter_t]. *)
Definition trace_filters : list cpu_log_instr_filter_fn_t :=
  [entry_mem_regions_filter_fn; entry_event_filter_fn].

(** Modelled from the spec: [LOG_INSTR_FILTER_MAX] closes the filter enum
    ([exec/log_instr.h] is absent); the registry has one entry per value. *)
Definition LOG_INSTR_FILTER_MAX : nat := length trace_filters.

(** Calling through a stored function pointer. *)
Definition call_filter (tgt : target_t) (fn : cpu_log_instr_filter_fn_t)
  (entry : cpu_log_entry_t) : bool :=
  match fn with
  | entry_mem_regions_filter_fn => entry_mem_regions_filter tgt entry
  | entry_event_filter_fn => entry_event_filter entry
  end.

(** The filter loop of [do_instr_commit]: whether every filter passed,
    and the calls made. *)
Fixpoint run_filters (tgt : target_t) (fs : list cpu_log_instr_filter_fn_t)
  (entry : cpu_log_entry_t) : bool * list observation :=
  match fs with
  | [] => (true, [])
  | fn :: rest =>
      if call_filter tgt fn entry then
        let '(ok, obs) := run_filters tgt rest entry in
        (ok, ObsFilter fn entry true :: obs)
      else (false, [ObsFilter fn entry false])
  end.

(** First index at which [fn] is stored, as the search loops find it. *)
Fixpoint filter_index (fn : cpu_log_instr_filter_fn_t)
  (fs : list cpu_log_instr_filter_fn_t) : option nat :=
  match fs with
  | [] => None
  | curr :: rest =>
      if decide (curr = fn) then Some O else S <$> filter_index fn rest
  end.

(** [g_array_remove_index_fast]: the last element takes the place of the
    removed one, the length shrinks by one. *)
Definition g_array_remove_index_fast {A : Type} (l : list A) (i : nat) : list A :=
  match last l with
  | Some x => take (length l - 1)%nat (<[i := x]> l)
  | None => l
  end.

Definition qemu_log_instr_add_filter (filter : nat) (c : cpu_log_instr_state_t)
  : cpu_log_instr_state_t :=
  if (LOG_INSTR_FILTER_MAX <=? filter)%nat then c (* warning, no change *)
  else
    match trace_filters !! filter with
    | None => c
    | Some new_fn =>
        (* Check for duplicates *)
        match filter_index new_fn (filters c) with
        | Some _ => c
        | None => set_filters (filters c ++ [new_fn]) c
        end
    end.

Definition qemu_log_instr_remove_filter (filter : nat) (c : cpu_log_instr_state_t)
  : cpu_log_instr_state_t :=
  if (LOG_INSTR_FILTER_MAX <=? filter)%nat then c (* warning, no change *)
  else
    match trace_filters !! filter with
    | None => c
    | Some fn =>
        match filter_index fn (filters c) with
        | Some i => set_filters (g_array_remove_index_fast (filters c) i) c
        | None => c
        end
    end.

(** ** Commit, drop *)

Definition do_instr_commit (tgt : target_t) (m : machine) : option machine :=
  let c := cpulog m in
  if force_drop c then Some m
  else
    entry ← get_cpu_log_entry m;
    let '(ok, obs) := run_filters tgt (filters c) entry in
    let m := observe obs m in
    if negb ok then Some m
    else if has_flag (cl_flags c) QEMU_LOG_INSTR_FLAG_BUFFERED then
      let len := length (instr_info c) in
      if (len =? 0)%nat then None
      else
        let head := ((ring_head c + 1) mod len)%nat in
        let tail :=
          if (ring_tail c =? head)%nat then ((ring_tail c + 1) mod len)%nat
          else ring_tail c in
        Some (upd_cpulog (set_ring head tail) m)
    else
      let m := observe [ObsEmitInstr entry] m in
      Some (upd_cpulog (fun c => set_stats (inc_entries_emitted (stats c)) c) m).

Definition qemu_log_instr_drop (m : machine) : machine :=
  upd_cpulog (set_force_drop true) m.

Definition qemu_log_instr_commit (tgt : target_t) (m : machine) : option machine :=
  m ← do_instr_commit tgt m;
  (* commit may have advanced to the next entry buffer slot *)
  reset_log_buffer (ring_head (cpulog m)) m.

(** [qemu_log_instr_check_enabled]. *)
Definition qemu_log_instr_check_enabled (m : machine) : bool :=
  has_flag (qemu_loglevel m) CPU_LOG_INSTR && loglevel_active (cpulog m).

(** ** Loglevel switch *)

(** The decision "do we have to pause or resume logging" at the head of
    [do_cpu_loglevel_switch]. *)
Definition next_level_active_of (tgt : target_t) (entry : cpu_log_entry_t)
  (level : qemu_log_instr_loglevel_t) : bool :=
  match level with
  | QEMU_LOG_INSTR_LOGLEVEL_NONE => false
  | QEMU_LOG_INSTR_LOGLEVEL_ALL => true
  | QEMU_LOG_INSTR_LOGLEVEL_USER =>
      if has_flag (e_flags entry) LI_FLAG_MODE_SWITCH
      then e_next_cpu_mode entry =? QEMU_LOG_INSTR_CPU_USER
      else cpu_in_user_mode tgt
  end.

(** The tail of [do_cpu_loglevel_switch]: [if (next_level_active) ...]
    on the slot that is current. *)
Definition loglevel_switch_start (tgt : target_t) (next_level_active : bool)
  (pc : Z) (m : machine) : option machine :=
  if next_level_active then
    let m := upd_cpulog (set_starting true) m in
    let i := ring_head (cpulog m) in
    entry ← instr_info (cpulog m) !! i;
    let m := put_entry i (emit_start_event tgt entry pc) m in
    m ← emit_regdump_event tgt i m;
    Some (upd_cpulog (fun c => set_stats (inc_trace_start (stats c)) c) m)
  else Some m.

(** [do_cpu_loglevel_switch], run in the CPU's exclusive context.  The
    [log_assert] on the global bit is kept as a check: no result when it
    fails (a build may compile the check out; nothing below is stated
    about a state that fails it). *)
Definition do_cpu_loglevel_switch (tgt : target_t) (arg : qemu_log_next_level_arg_t)
  (m : machine) : option machine :=
  let i := ring_head (cpulog m) in
  entry ← instr_info (cpulog m) !! i;
  if negb (has_flag (qemu_loglevel m) CPU_LOG_INSTR) then None else
  let prev_level := loglevel (cpulog m) in
  let prev_level_active := loglevel_active (cpulog m) in
  pc ← (if arg_global arg then Some (cpu_get_recent_pc tgt) else arg_pc arg);
  let next_level_active := next_level_active_of tgt entry (next_level arg) in
  (* Update level *)
  let m := upd_cpulog (set_loglevel (next_level arg) next_level_active) m in
  (* Check if this was a no-op *)
  if loglevel_eqb (next_level arg) prev_level
     && eqb prev_level_active next_level_active
  then Some m
  else if prev_level_active then
    if starting (cpulog m) then
      reset_log_buffer i m (* goto done *)
    else
      let m := put_entry i (emit_stop_event entry pc) m in
      let m := upd_cpulog (fun c => set_stats (inc_trace_stop (stats c)) c) m in
      m ← do_instr_commit tgt m;
      (* Instruction commit may have advanced to the next entry buffer slot *)
      m ← reset_log_buffer (ring_head (cpulog m)) m;
      loglevel_switch_start tgt next_level_active pc m
  else loglevel_switch_start tgt next_level_active pc m.

(** [cpu_loglevel_switch]: the argument block queued with
    [async_safe_run_on_cpu] for [do_cpu_loglevel_switch]. *)
Definition cpu_loglevel_switch (pc : Z) (level : qemu_log_instr_loglevel_t)
  (global : bool) : qemu_log_next_level_arg_t :=
  mk_next_level_arg level (Some pc) global.

(** [global_loglevel_enable]: set the global bit if it was clear. *)
Definition global_loglevel_enable (m : machine) : machine :=
  if has_flag (qemu_loglevel m) CPU_LOG_INSTR then m
  else set_qemu_loglevel (Z.lor (qemu_loglevel m) CPU_LOG_INSTR) m.

Definition do_global_loglevel_switch (tgt : target_t)
  (arg : qemu_log_next_level_arg_t) (m : machine) : option machine :=
  let m :=
    match next_level arg with
    | QEMU_LOG_INSTR_LOGLEVEL_NONE => m
    | _ => global_loglevel_enable m
    end in
  do_cpu_loglevel_switch tgt arg m.

(** One iteration of the [CPU_FOREACH] body of
    [qemu_log_instr_global_switch]: the flag word after it and the work
    item queued on [cpu]. *)
Definition global_switch_step (st : Z * list (nat * qemu_log_next_level_arg_t))
  (cpu : nat) : Z * list (nat * qemu_log_next_level_arg_t) :=
  let '(log_flags, queue) := st in
  if has_flag log_flags CPU_LOG_INSTR_U then
    (Z.lor log_flags CPU_LOG_INSTR,
     queue ++ [(cpu, mk_next_level_arg QEMU_LOG_INSTR_LOGLEVEL_USER None true)])
  else if has_flag log_flags CPU_LOG_INSTR then
    (log_flags,
     queue ++ [(cpu, mk_next_level_arg QEMU_LOG_INSTR_LOGLEVEL_ALL None true)])
  else
    (log_flags,
     queue ++ [(cpu, mk_next_level_arg QEMU_LOG_INSTR_LOGLEVEL_NONE None true)]).

(** [qemu_log_instr_global_switch]: [cpus] is the list [CPU_FOREACH]
    walks; the result is the returned flag word with the
    [do_global_loglevel_switch] work items queued by
    [async_safe_run_on_cpu], in queueing order. *)
Definition qemu_log_instr_global_switch (log_flags : Z) (cpus : list nat)
  : Z * list (nat * qemu_log_next_level_arg_t) :=
  foldl global_switch_step (log_flags, []) cpus.

(** [qemu_log_instr_mode_switch]: marks the current entry and, when the
    user-only level changes activity, returns the switch to queue. *)
Definition qemu_log_instr_mode_switch (mode : Z) (pc : Z) (m : machine)
  : option (machine * option qemu_log_next_level_arg_t) :=
  let c := cpulog m in
  entry ← get_cpu_log_entry m;
  let entry := set_e_flags (Z.lor (e_flags entry) LI_FLAG_MODE_SWITCH) entry in
  let entry := set_e_next_cpu_mode mode entry in
  let m := put_entry (ring_head c) entry m in
  if negb (has_flag (qemu_loglevel m) CPU_LOG_INSTR)
     || negb (loglevel_eqb (loglevel c) QEMU_LOG_INSTR_LOGLEVEL_USER)
  then Some (m, None)
  else if negb (eqb (mode =? QEMU_LOG_INSTR_CPU_USER) (loglevel_active c))
  then Some (m, Some (cpu_loglevel_switch pc (loglevel c) false))
  else Some (m, None).

(** ** Collector entry points *)

Definition qemu_log_instr_event (evt : log_event_t) (m : machine) : option machine :=
  entry ← get_cpu_log_entry m;
  Some (put_entry (ring_head (cpulog m))
          (set_e_events (e_events entry ++ [evt]) entry) m).

Definition qemu_log_instr_reg (reg_name : string) (value : Z) (m : machine)
  : option machine :=
  entry ← get_cpu_log_entry m;
  let r := mk_reginfo 0 reg_name (REG_GPR value) in
  Some (put_entry (ring_head (cpulog m)) (set_e_regs (e_regs entry ++ [r]) entry) m).

Definition qemu_log_instr_mem_int (tgt : target_t) (addr flags op value : Z)
  (m : machine) : option machine :=
  entry ← get_cpu_log_entry m;
  let mi := mk_meminfo flags op addr (get_paddr tgt addr) (REG_GPR value) in
  Some (put_entry (ring_head (cpulog m)) (set_e_mem (e_mem entry ++ [mi]) entry) m).

(** [qemu_log_instr]: [insn] holds the [size] instruction bytes copied
    over the head of [insn_bytes]; the [memcpy] has no bound check, so
    more bytes than the array holds is a write past its end. *)
Definition qemu_log_instr (tgt : target_t) (pc : Z) (insn : list Z) (m : machine)
  : option machine :=
  entry ← get_cpu_log_entry m;
  if (length (e_insn_bytes entry) <? length insn)%nat then None else
  let entry := set_e_pc pc entry in
  let entry := set_e_paddr (get_paddr tgt pc) entry in
  let entry :=
    set_e_insn (insn ++ drop (length insn) (e_insn_bytes entry))
      (Z.of_nat (length insn)) entry in
  let entry := set_e_flags (Z.lor (e_flags entry) LI_FLAG_HAS_INSTR_DATA) entry in
  Some (put_entry (ring_head (cpulog m)) entry m).

(** ** Buffered mode and flush *)

Definition helper_qemu_log_instr_buffered_mode (enable : Z) (m : machine) : machine :=
  if enable =? 0 then
    upd_cpulog (fun c => set_cl_flags (Z.land (cl_flags c) (Z.lnot QEMU_LOG_INSTR_FLAG_BUFFERED)) c) m
  else
    upd_cpulog (fun c => set_cl_flags (Z.lor (cl_flags c) QEMU_LOG_INSTR_FLAG_BUFFERED) c) m.

(** The drain loop of [qemu_log_instr_flush], from [curr] up to the head. *)
Fixpoint flush_loop (fuel : nat) (curr : nat) (m : machine) : option machine :=
  let c := cpulog m in
  if (curr =? ring_head c)%nat then Some m
  else
    match fuel with
    | O => None
    | S fuel =>
        entry ← instr_info c !! curr;
        let m := observe [ObsEmitInstr entry] m in
        let m := upd_cpulog (fun c => set_stats (inc_entries_emitted (stats c)) c) m in
        flush_loop fuel ((curr + 1) mod length (instr_info c))%nat m
    end.

Definition qemu_log_instr_flush (tgt : target_t) (m : machine) : option machine :=
  let curr := ring_tail (cpulog m) in
  entry ← get_cpu_log_entry m;
  (* Emit FLUSH event so that it can be picked up by backends *)
  m ← qemu_log_instr_event (LOG_EVENT_STATE LOG_EVENT_STATE_FLUSH (e_pc entry)) m;
  m ← (if qemu_log_instr_check_enabled m then Some m else qemu_log_instr_commit tgt m);
  if negb (has_flag (cl_flags (cpulog m)) QEMU_LOG_INSTR_FLAG_BUFFERED) then Some m
  else
    m ← flush_loop (length (instr_info (cpulog m))) curr m;
    Some (upd_cpulog (fun c => set_ring (ring_head c) (ring_head c) c) m).

(** ** Ring resize *)

(** A slot fresh from [g_array_set_size] (zero filled) after
    [qemu_log_entry_init] gave it its containers. *)
Definition zero_entry (tgt : target_t) : cpu_log_entry_t :=
  mk_entry 0 0 0 0 0 0 0 0 (replicate (TARGET_MAX_INSN_SIZE tgt) 0) 0
    EmptyString [] [] [].

(** [qemu_log_entry_destroy] on the slots a shrinking ring gives up. *)
Fixpoint destroy_entries (removed : list cpu_log_entry_t)
  (h : gmap nat (list log_reginfo_t)) : gmap nat (list log_reginfo_t) :=
  match removed with
  | [] => h
  | entry :: rest => destroy_entries rest (free_event_payloads (e_events entry) h)
  end.

(** The loop of [do_log_buffer_resize] over the slots. *)
Fixpoint resize_loop (idxs : list nat) (m : machine) : option machine :=
  match idxs with
  | [] => Some m
  | i :: rest => m ← reset_log_buffer i m; resize_loop rest m
  end.

(** [do_log_buffer_resize]: [g_array_set_size] receives the
    [unsigned long] size as a [guint], so the ring gets the low 32 bits
    of [new_size] as its length; the loop then counts the slots with an
    [int], which cannot pass a length above [INT_MAX]. *)
Definition do_log_buffer_resize (tgt : target_t) (new_size : N) (m : machine)
  : option machine :=
  let len := N.to_nat (guint_of new_size) in
  let old := instr_info (cpulog m) in
  let ring := take len old ++ replicate (len - length old)%nat (zero_entry tgt) in
  let m := set_heap (destroy_entries (drop len old) (heap m)) (heap_next m) m in
  let m := upd_cpulog (fun c => set_ring 0 0 (set_instr_info ring c)) m in
  if (INT_MAX <? guint_of new_size)%N then None
  else resize_loop (seq 0 len) m.

(** [qemu_log_instr_set_buffer_size], as it lands on one CPU: the size
    is an [unsigned long], checked against the minimum only. *)
Definition qemu_log_instr_set_buffer_size (tgt : target_t) (new_size : N)
  (m : machine) : option machine :=
  let new_size := ulong_of new_size in
  if (new_size <? N.of_nat MIN_ENTRY_BUFFER_SIZE)%N then Some m
  else do_log_buffer_resize tgt new_size m.

(** ** Staged printf: the dump helper *)

(** Outcome of a loop run with fuel. *)
Inductive result (A : Type) :=
| Ok (a : A)
| Undefined
| OutOfFuel.
Arguments Ok {A} a.
Arguments Undefined {A}.
Arguments OutOfFuel {A}.

(** [ctz64]: position of the least significant set bit, 64 for zero. *)
Fixpoint ctz_from (fuel : nat) (i : nat) (v : Z) : nat :=
  match fuel with
  | O => i
  | S fuel => if Z.testbit v (Z.of_nat i) then i else ctz_from fuel (S i) v
  end.

Definition ctz64 (v : Z) : nat := ctz_from 64 0 v.

(** [1 << ndx] with the [int] constant [1]: defined while the result fits
    a 32-bit [int] (C11 6.5.7). *)
Definition shl_int_1 (ndx : nat) : option Z :=
  if (ndx <? 31)%nat then Some (Z.shiftl 1 (Z.of_nat ndx)) else None.

(** [1ULL << ndx], as the translation-time side marks a slot valid. *)
Definition shl_ull_1 (ndx : nat) : Z := wrap64 (Z.shiftl 1 (Z.of_nat ndx)).

Definition g_string_append_printf_union_args (tgt : target_t) (txt : string)
  (fmt : string) (args : list qemu_log_arg_t) : string :=
  (txt +:+ render_union_args tgt fmt args)%string.

(** The [while (valid)] loop of [helper_qemu_log_printf_dump]. *)
Fixpoint printf_dump_loop (tgt : target_t) (fuel : nat)
  (buf : qemu_log_printf_buf_t) (valid : Z) (txt : string) : result string :=
  if valid =? 0 then Ok txt
  else
    match fuel with
    | O => OutOfFuel
    | S fuel =>
        let ndx := ctz64 valid in
        match shl_int_1 ndx with
        | None => Undefined
        | Some bit =>
            let valid := Z.lxor valid bit in
            let args := drop (ndx * QEMU_LOG_PRINTF_ARG_MAX)%nat (pb_args buf) in
            match pb_fmts buf !! ndx with
            | None => Undefined
            | Some fmt =>
                printf_dump_loop tgt fuel buf valid
                  (g_string_append_printf_union_args tgt txt fmt args)
            end
        end
    end.

(** [helper_qemu_log_printf_dump].  The bitmap is a [uint64_t], so 64
    rounds are all the loop can need.  The test [qemu_log_instr_enabled]
    is a macro of the absent header, modelled from the spec ("if logging
    is disabled") as [qemu_log_instr_check_enabled]. *)
Definition helper_qemu_log_printf_dump (tgt : target_t) (m : machine)
  : result machine :=
  let buf := qemu_log_printf_buf (cpulog m) in
  let valid := valid_entries buf in
  let m :=
    upd_cpulog (set_printf_buf (mk_printf_buf (pb_args buf) (pb_fmts buf) 0)) m in
  if negb (qemu_log_instr_check_enabled m) then Ok m
  else
    match get_cpu_log_entry m with
    | None => Undefined
    | Some entry =>
        match printf_dump_loop tgt 64 buf valid (e_txt_buffer entry) with
        | Ok txt =>
            Ok (put_entry (ring_head (cpulog m)) (set_e_txt_buffer txt entry) m)
        | Undefined => Undefined
        | OutOfFuel => OutOfFuel
        end
    end.

(** The first two operations [qemu_log_gen_printf] generates for slot
    [ndx]: the format pointer is stored into [fmts[ndx]] and bit [ndx] is
    set with [1ULL << ndx] (the stores of the argument words are not
    modelled). *)
Definition stage_slot (ndx : nat) (fmt : string) (buf : qemu_log_printf_buf_t)
  : qemu_log_printf_buf_t :=
  mk_printf_buf (pb_args buf) (<[ndx := fmt]> (pb_fmts buf))
    (Z.lor (valid_entries buf) (shl_ull_1 ndx)).

(** ** Runs *)

(** The operations a CPU's logger goes through between two observable
    points. *)
Inductive log_op :=
| OpInstr (pc : Z) (insn : list Z)
| OpReg (reg_name : string) (value : Z)
| OpMem (addr flags op value : Z)
| OpEvent (evt : log_event_t)
| OpModeSwitch (mode : Z) (pc : Z)
| OpDrop
| OpCommit
| OpFlush
| OpBufferedMode (enable : Z)
| OpLoglevelSwitch (arg : qemu_log_next_level_arg_t)
| OpGlobalLoglevelSwitch (arg : qemu_log_next_level_arg_t)
| OpAddFilter (filter : nat)
| OpRemoveFilter (filter : nat)
| OpSetBufferSize (new_size : N).

Definition run_op (tgt : target_t) (op : log_op) (m : machine) : option machine :=
  match op with
  | OpInstr pc insn => qemu_log_instr tgt pc insn m
  | OpReg reg_name value => qemu_log_instr_reg reg_name value m
  | OpMem addr flags op value => qemu_log_instr_mem_int tgt addr flags op value m
  | OpEvent evt => qemu_log_instr_event evt m
  | OpModeSwitch mode pc => fst <$> qemu_log_instr_mode_switch mode pc m
  | OpDrop => Some (qemu_log_instr_drop m)
  | OpCommit => qemu_log_instr_commit tgt m
  | OpFlush => qemu_log_instr_flush tgt m
  | OpBufferedMode enable => Some (helper_qemu_log_instr_buffered_mode enable m)
  | OpLoglevelSwitch arg => do_cpu_loglevel_switch tgt arg m
  | OpGlobalLoglevelSwitch arg => do_global_loglevel_switch tgt arg m
  | OpAddFilter filter => Some (upd_cpulog (qemu_log_instr_add_filter filter) m)
  | OpRemoveFilter filter => Some (upd_cpulog (qemu_log_instr_remove_filter filter) m)
  | OpSetBufferSize new_size => qemu_log_instr_set_buffer_size tgt new_size m
  end.

(** A run: each operation with the collaborators as they are when it
    executes. *)
Fixpoint run_ops (steps : list (target_t * log_op)) (m : machine) : option machine :=
  match steps with
  | [] => Some m
  | (tgt, op) :: rest => m ← run_op tgt op m; run_ops rest m
  end.

(** ** Well-formed states *)

(** Both ring indices name a slot. *)
Definition ring_wf (c : cpu_log_instr_state_t) : Prop :=
  (ring_head c < length (instr_info c))%nat /\
  (ring_tail c < length (instr_info c))%nat.

(** A resize that leaves the ring a slot: the request is below the
    minimum and ignored, or its size does not truncate to a length of
    0. *)
Definition resize_keeps_a_slot (op : log_op) : Prop :=
  match op with
  | OpSetBufferSize new_size =>
      (ulong_of new_size < N.of_nat MIN_ENTRY_BUFFER_SIZE)%N \/
      guint_of new_size <> 0%N
  | _ => True
  end.


(** Filter arrays a CPU can hold: empty at creation
    ([g_array_sized_new] in [qemu_log_instr_init]), then changed only by
    [qemu_log_instr_add_filter] and [qemu_log_instr_remove_filter]. *)
Inductive reachable_filters : cpu_log_instr_state_t -> Prop :=
| reachable_init c : filters c = [] -> reachable_filters c
| reachable_add c filter :
    reachable_filters c -> reachable_filters (qemu_log_instr_add_filter filter c)
| reachable_remove c filter :
    reachable_filters c -> reachable_filters (qemu_log_instr_remove_filter filter c).

(** An entry in the shape reset leaves it. *)
Definition canonically_empty (e : cpu_log_entry_t) : Prop :=
  e_regs e = [] /\ e_mem e = [] /\ e_events e = [] /\
  e_txt_buffer e = EmptyString /\ e_flags e = 0.

(** The slots of the bitmap that are set, least significant first. *)
Definition set_bits (valid : Z) : list nat :=
  filter (fun i => Z.testbit valid (Z.of_nat i) = true) (seq 0 64).

(** The text [printf_dump] is expected to add for the slots [ndxs]. *)
Fixpoint rendered (tgt : target_t) (buf : qemu_log_printf_buf_t)
  (ndxs : list nat) : string :=
  match ndxs with
  | [] => EmptyString
  | ndx :: rest =>
      (match pb_fmts buf !! ndx with
       | Some fmt =>
           render_union_args tgt fmt
             (drop (ndx * QEMU_LOG_PRINTF_ARG_MAX)%nat (pb_args buf))
       | None => EmptyString
       end +:+ rendered tgt buf rest)%string
  end.

(** ** Reading the trace *)

(** The entries handed to the backend's [emit_instr], in call order. *)
Fixpoint emit_calls (tr : list observation) : list cpu_log_entry_t :=
  match tr with
  | [] => []
  | ObsEmitInstr e :: rest => e :: emit_calls rest
  | ObsFilter _ _ _ :: rest => emit_calls rest
  end.

(** The filters that were evaluated, in call order. *)
Fixpoint filter_calls (tr : list observation) : list cpu_log_instr_filter_fn_t :=
  match tr with
  | [] => []
  | ObsFilter fn _ _ :: rest => fn :: filter_calls rest
  | ObsEmitInstr _ :: rest => filter_calls rest
  end.

(** The event [emit_regdump_event] appends when the next free heap
    address is [a]: none when the target hook reports failure. *)
Definition regdump_events (tgt : target_t) (a : nat) : list log_event_t :=
  match cpu_log_instr_event_regdump tgt with
  | Some _ => [LOG_EVENT_REGDUMP a]
  | None => []
  end.

(** The level [qemu_log_instr_global_switch] derives from a flag word,
    and the flag word with INSTR implied by INSTR_U. *)
Definition global_switch_level (log_flags : Z) : qemu_log_instr_loglevel_t :=
  if has_flag log_flags CPU_LOG_INSTR_U then QEMU_LOG_INSTR_LOGLEVEL_USER
  else if has_flag log_flags CPU_LOG_INSTR then QEMU_LOG_INSTR_LOGLEVEL_ALL
  else QEMU_LOG_INSTR_LOGLEVEL_NONE.

Definition global_switch_flags (log_flags : Z) : Z :=
  if has_flag log_flags CPU_LOG_INSTR_U then Z.lor log_flags CPU_LOG_INSTR
  else log_flags.

(** ** Sample states *)

(** A target with 4 KiB pages, an identity MMU, a CPU in kernel mode and
    a one-register dump hook; [-dfilter] is not given. *)
Definition sample_target : target_t :=
  mk_target 12 4 (fun page => page) false 4096
    (Some [mk_reginfo 0 "x0" (REG_GPR 66)]) None
    (fun fmt _ => fmt).

(** The same target after [-dfilter] was given an empty range list. *)
Definition sample_target_no_ranges : target_t :=
  mk_target 12 4 (fun page => page) false 4096
    (Some [mk_reginfo 0 "x0" (REG_GPR 66)]) (Some [])
    (fun fmt _ => fmt).

(** An entry that recorded one instruction, one register write and one
    store. *)
Definition sample_entry : cpu_log_entry_t :=
  mk_entry 7 LI_FLAG_HAS_INSTR_DATA 0 0 0 0 8192 8192 [144; 0; 0; 0] 1
    "note" [mk_reginfo 0 "rax" (REG_GPR 66)]
    [mk_meminfo LMI_ST 0 12288 12288 (REG_GPR 1)] [].

(** A four-slot ring, [sample_entry] under construction in slot 0. *)
Definition sample_cpulog (flags : Z) (fs : list cpu_log_instr_filter_fn_t)
  : cpu_log_instr_state_t :=
  mk_cpulog QEMU_LOG_INSTR_LOGLEVEL_ALL true false false flags
    (sample_entry :: replicate 3 (zero_entry sample_target)) 0 0 fs
    (mk_stats 0 1 0)
    (mk_printf_buf (replicate 256 0) (replicate 32 EmptyString) 0).

Definition sample_machine (flags : Z) (fs : list cpu_log_instr_filter_fn_t)
  : machine :=
  mk_machine (sample_cpulog flags fs) CPU_LOG_INSTR ∅ 0 [].

(** The sample target with the CPU in user mode. *)
Definition sample_target_user : target_t :=
  mk_target 12 4 (fun page => page) true 4096
    (Some [mk_reginfo 0 "x0" (REG_GPR 66)]) None
    (fun fmt _ => fmt).

(** A CPU that is not tracing: level NONE, four empty slots. *)
Definition idle_machine : machine :=
  mk_machine
    (mk_cpulog QEMU_LOG_INSTR_LOGLEVEL_NONE false false false 0
       (replicate 4 (zero_entry sample_target)) 0 0 [] (mk_stats 0 0 0)
       (mk_printf_buf (replicate 256 0) (replicate 32 EmptyString) 0))
    CPU_LOG_INSTR ∅ 0 [].

(** [idle_machine] after a switch to ALL at pc 4096: the start is
    pending in slot 0, with its register dump at heap address 0. *)
Definition pending_start_machine : machine :=
  mk_machine
    (mk_cpulog QEMU_LOG_INSTR_LOGLEVEL_ALL true true false 0
       (mk_entry 0 0 0 0 0 0 4096 4096 [0; 0; 0; 0] 0 EmptyString [] []
          [LOG_EVENT_STATE LOG_EVENT_STATE_START 4096; LOG_EVENT_REGDUMP 0]
        :: replicate 3 (zero_entry sample_target)) 0 0 [] (mk_stats 0 1 0)
       (mk_printf_buf (replicate 256 0) (replicate 32 EmptyString) 0))
    CPU_LOG_INSTR {[ 0%nat := [mk_reginfo 0 "x0" (REG_GPR 66)] ]} 1 [].

(** ** Values in range *)

(** The values a [uint64_t] (a [hwaddr], a 64-bit [target_ulong])
    holds. *)
Definition is_uint64 (v : Z) : Prop := 0 <= v < 2 ^ 64.

(** ** The slots a flush drains *)

(** The slots from [curr] up to (not including) [head], walking the
    ring of [ring] forward. *)
Definition ring_slice_from (ring : list cpu_log_entry_t) (curr head : nat)
  : list cpu_log_entry_t :=
  if (curr <=? head)%nat then take (head - curr) (drop curr ring)
  else drop curr ring ++ take head ring.

(** The committed entries a buffered ring holds, oldest first. *)
Definition ring_slice (c : cpu_log_instr_state_t) : list cpu_log_entry_t :=
  ring_slice_from (instr_info c) (ring_tail c) (ring_head c).

(** ** More collector entry points *)

Definition set_e_asid (v : Z) (e : cpu_log_entry_t) : cpu_log_entry_t :=
  mk_entry v (e_flags e) (e_next_cpu_mode e) (e_intr_code e) (e_intr_vector e)
    (e_intr_faultaddr e) (e_pc e) (e_paddr e) (e_insn_bytes e) (e_insn_size e)
    (e_txt_buffer e) (e_regs e) (e_mem e) (e_events e).

Definition set_e_intr (code vector faultaddr : Z) (e : cpu_log_entry_t)
  : cpu_log_entry_t :=
  mk_entry (e_asid e) (e_flags e) (e_next_cpu_mode e) code vector faultaddr
    (e_pc e) (e_paddr e) (e_insn_bytes e) (e_insn_size e)
    (e_txt_buffer e) (e_regs e) (e_mem e) (e_events e).

(** The entry-level effect of each collector entry point: what the call
    does to the entry [get_cpu_log_entry] returns. *)
Inductive collector_call :=
| CallReg (reg_name : string) (value : Z)
| CallCap (reg_name : string) (cr : Z)
| CallCapInt (reg_name : string) (value : Z)
| CallLdInt (addr memop value : Z)
| CallStInt (addr memop value : Z)
| CallLdCap (addr cap : Z)
| CallStCap (addr cap : Z)
| CallInstr (pc : Z) (insn : list Z)
| CallAsid (asid : Z)
| CallException (code vector faultaddr : Z)
| CallInterrupt (code vector : Z)
| CallEvent (evt : log_event_t)
| CallExtra (text : string).

(** One collector call on an entry.  [CallLdInt] and [CallStInt] carry
    the [MemOp] that [get_memop(oi)] returns, [CallExtra] the text the
    runtime format of [qemu_log_instr_extra] produced.  [CallInstr] has
    no result when the instruction is longer than [insn_bytes] (the
    [memcpy] is unchecked); [CallAsid] stores its [uint16_t] argument. *)
Definition collect (tgt : target_t) (call : collector_call)
  (entry : cpu_log_entry_t) : option cpu_log_entry_t :=
  match call with
  | CallReg reg_name value =>
      Some (set_e_regs (e_regs entry ++ [mk_reginfo 0 reg_name (REG_GPR value)])
              entry)
  | CallCap reg_name cr =>
      Some (set_e_regs
              (e_regs entry ++
               [mk_reginfo (Z.lor LRI_CAP_REG LRI_HOLDS_CAP) reg_name (REG_CAP cr)])
              entry)
  | CallCapInt reg_name value =>
      Some (set_e_regs
              (e_regs entry ++ [mk_reginfo LRI_CAP_REG reg_name (REG_GPR value)])
              entry)
  | CallLdInt addr memop value =>
      Some (set_e_mem
              (e_mem entry ++
               [mk_meminfo LMI_LD memop addr (get_paddr tgt addr) (REG_GPR value)])
              entry)
  | CallStInt addr memop value =>
      Some (set_e_mem
              (e_mem entry ++
               [mk_meminfo LMI_ST memop addr (get_paddr tgt addr) (REG_GPR value)])
              entry)
  | CallLdCap addr cap =>
      Some (set_e_mem
              (e_mem entry ++
               [mk_meminfo (Z.lor LMI_LD LMI_CAP) 0 addr (get_paddr tgt addr)
                  (REG_CAP cap)])
              entry)
  | CallStCap addr cap =>
      Some (set_e_mem
              (e_mem entry ++
               [mk_meminfo (Z.lor LMI_ST LMI_CAP) 0 addr (get_paddr tgt addr)
                  (REG_CAP cap)])
              entry)
  | CallInstr pc insn =>
      if (length (e_insn_bytes entry) <? length insn)%nat then None else
      let entry := set_e_pc pc entry in
      let entry := set_e_paddr (get_paddr tgt pc) entry in
      let entry :=
        set_e_insn (insn ++ drop (length insn) (e_insn_bytes entry))
          (Z.of_nat (length insn)) entry in
      Some (set_e_flags (Z.lor (e_flags entry) LI_FLAG_HAS_INSTR_DATA) entry)
  | CallAsid asid => Some (set_e_asid (asid mod 2 ^ 16) entry)
  | CallException code vector faultaddr =>
      Some (set_e_intr code vector faultaddr
              (set_e_flags (Z.lor (e_flags entry) LI_FLAG_INTR_TRAP) entry))
  | CallInterrupt code vector =>
      Some (set_e_intr code vector (e_intr_faultaddr entry)
              (set_e_flags (Z.lor (e_flags entry) LI_FLAG_INTR_ASYNC) entry))
  | CallEvent evt => Some (set_e_events (e_events entry ++ [evt]) entry)
  | CallExtra text =>
      Some (set_e_txt_buffer (e_txt_buffer entry +:+ text)%string entry)
  end.

(** The collector entry points ([qemu_log_instr_reg], [_cap], [_cap_int],
    [_ld_int], [_st_int], [_ld_cap], [_st_cap], [qemu_log_instr],
    [_asid], [_exception], [_interrupt], [_event], [_extra]): each
    fetches the current entry and updates it in place. *)
Definition qemu_log_instr_collect (tgt : target_t) (call : collector_call)
  (m : machine) : option machine :=
  entry ← get_cpu_log_entry m;
  entry ← collect tgt call entry;
  Some (put_entry (ring_head (cpulog m)) entry m).

Fixpoint collect_all (tgt : target_t) (calls : list collector_call) (m : machine)
  : option machine :=
  match calls with
  | [] => Some m
  | call :: rest => m ← qemu_log_instr_collect tgt call m; collect_all tgt rest m
  end.

(** The records a list of calls contributes, in call order. *)
Definition call_regs (call : collector_call) : list log_reginfo_t :=
  match call with
  | CallReg reg_name value => [mk_reginfo 0 reg_name (REG_GPR value)]
  | CallCap reg_name cr =>
      [mk_reginfo (Z.lor LRI_CAP_REG LRI_HOLDS_CAP) reg_name (REG_CAP cr)]
  | CallCapInt reg_name value => [mk_reginfo LRI_CAP_REG reg_name (REG_GPR value)]
  | _ => []
  end.

Definition call_mem (tgt : target_t) (call : collector_call) : list log_meminfo_t :=
  match call with
  | CallLdInt addr memop value =>
      [mk_meminfo LMI_LD memop addr (get_paddr tgt addr) (REG_GPR value)]
  | CallStInt addr memop value =>
      [mk_meminfo LMI_ST memop addr (get_paddr tgt addr) (REG_GPR value)]
  | CallLdCap addr cap =>
      [mk_meminfo (Z.lor LMI_LD LMI_CAP) 0 addr (get_paddr tgt addr) (REG_CAP cap)]
  | CallStCap addr cap =>
      [mk_meminfo (Z.lor LMI_ST LMI_CAP) 0 addr (get_paddr tgt addr) (REG_CAP cap)]
  | _ => []
  end.

Definition call_events (call : collector_call) : list log_event_t :=
  match call with
  | CallEvent evt => [evt]
  | _ => []
  end.

(** The call writes no more instruction bytes than an array of [n]
    bytes holds. *)
Definition call_fits (n : nat) (call : collector_call) : Prop :=
  match call with
  | CallInstr _ insn => (length insn <= n)%nat
  | _ => True
  end.

(** ** Start and stop helpers *)

(** [do_qemu_log_instr_start]: the global bit is set, then the switch is
    queued unless the CPU already runs at [level]. *)
Definition do_qemu_log_instr_start (pc : Z) (level : qemu_log_instr_loglevel_t)
  (global : bool) (m : machine) : machine * option qemu_log_next_level_arg_t :=
  let m := global_loglevel_enable m in
  (* If we are already started in the correct mode, bail *)
  if loglevel_eqb (loglevel (cpulog m)) level && loglevel_active (cpulog m)
  then (m, None)
  else (m, Some (cpu_loglevel_switch pc level global)).

Definition do_qemu_log_instr_stop (pc : Z) (global : bool)
  : qemu_log_next_level_arg_t :=
  cpu_loglevel_switch pc QEMU_LOG_INSTR_LOGLEVEL_NONE global.

Definition helper_qemu_log_instr_start (pc : Z) (m : machine)
  : machine * option qemu_log_next_level_arg_t :=
  do_qemu_log_instr_start pc QEMU_LOG_INSTR_LOGLEVEL_ALL false m.

Definition helper_qemu_log_instr_stop (pc : Z) : qemu_log_next_level_arg_t :=
  do_qemu_log_instr_stop pc false.

(** A helper followed by the work it queued, as the CPU runs it once the
    translation block has ended. *)
Definition run_queued (tgt : target_t)
  (r : machine * option qemu_log_next_level_arg_t) : option machine :=
  match r.2 with
  | None => Some r.1
  | Some arg => do_cpu_loglevel_switch tgt arg r.1
  end.

(** ** Register dumps built by the target *)

(** [qemu_log_instr_event_create_regdump]: a fresh, empty array for the
    event; the result is the address the event holds. *)
Definition qemu_log_instr_event_create_regdump (m : machine) : nat * machine :=
  (heap_next m, set_heap (<[heap_next m := []]> (heap m)) (S (heap_next m)) m).

(** [qemu_log_instr_event_dump_reg] on the event whose array is at
    [gpr]: no result when the array was never created. *)
Definition qemu_log_instr_event_dump_reg (gpr : nat) (reg_name : string)
  (value : Z) (m : machine) : option machine :=
  dump ← heap m !! gpr;
  Some (set_heap (<[gpr := dump ++ [mk_reginfo 0 reg_name (REG_GPR value)]]> (heap m))
          (heap_next m) m).

Fixpoint dump_regs (gpr : nat) (regs : list (string * Z)) (m : machine)
  : option machine :=
  match regs with
  | [] => Some m
  | (reg_name, value) :: rest =>
      m ← qemu_log_instr_event_dump_reg gpr reg_name value m;
      dump_regs gpr rest m
  end.

(** The record [qemu_log_instr_event_dump_reg] appends for a register. *)
Definition dumped_reg (r : string * Z) : log_reginfo_t :=
  mk_reginfo 0 r.1 (REG_GPR r.2).

(** Addresses at and above [heap_next] are free. *)
Definition heap_fresh (m : machine) : Prop :=
  forall a, (heap_next m <= a)%nat -> heap m !! a = None.

(** ** CPU creation *)

(** [qemu_log_instr_init] for a backend without an [init] hook (the
    default text backend and the nop backend).  [m] holds what the
    function does not assign: the per-CPU flags, the printf staging
    area and the process-wide state.  [reset_filters] is the startup
    list, [None] when it was never allocated.  The ring size is an
    [unsigned long] that [g_array_set_size] receives as a [guint]; the
    initialisation loop counts with an [int] and leaves [entry] on the
    last slot it visited, unassigned when the ring has no slot. *)
Definition qemu_log_instr_init (tgt : target_t) (reset_entry_buffer_size : N)
  (reset_filters : option (list nat)) (m : machine) : option machine :=
  let len := N.to_nat (guint_of reset_entry_buffer_size) in
  let entry_ring := replicate len (zero_entry tgt) in
  if (INT_MAX <? guint_of reset_entry_buffer_size)%N then None else
  if (guint_of reset_entry_buffer_size =? 0)%N then None else
  let m :=
    upd_cpulog
      (fun c =>
         set_ring 0 0
           (set_instr_info entry_ring
              (set_filters [] (set_loglevel QEMU_LOG_INSTR_LOGLEVEL_NONE false c)))) m in
  (* entry is the last slot the initialisation loop visited *)
  m ← reset_log_buffer (len - 1) m;
  (* If we are starting with instruction logging enabled, switch it on now *)
  m ← (if has_flag (qemu_loglevel m) (Z.lor CPU_LOG_INSTR CPU_LOG_INSTR_U) then
         if has_flag (qemu_loglevel m) CPU_LOG_INSTR_U then
           if has_flag (qemu_loglevel m) CPU_LOG_INSTR then
             do_cpu_loglevel_switch tgt
               (mk_next_level_arg QEMU_LOG_INSTR_LOGLEVEL_USER None true) m
           else None (* assert: CPU_LOG_INSTR_U implies CPU_LOG_INSTR *)
         else
           do_cpu_loglevel_switch tgt
             (mk_next_level_arg QEMU_LOG_INSTR_LOGLEVEL_ALL None true) m
       else Some m);
  let m :=
    match reset_filters with
    | None => m
    | Some fs => foldl (fun m f => upd_cpulog (qemu_log_instr_add_filter f) m) m fs
    end in
  Some (upd_cpulog (set_stats (mk_stats 0 0 0)) m).

(** ** Startup filters *)

(** Modelled from the spec: the enum value of the EVENTS filter
    ([exec/log_instr.h] is absent); it is the index of
    [entry_event_filter] in the registry. *)
Definition LOG_FILTER_EVENTS : nat := 1.

(** The process-wide filter state: the startup list ([None] while
    unallocated) and the log states of the CPUs that exist. *)
Record filter_world := mk_filter_world {
  reset_filters : option (list nat);
  cpus : list cpu_log_instr_state_t
}.

Definition qemu_log_instr_allcpu_add_filter (filter : nat)
  (cs : list cpu_log_instr_state_t) : list cpu_log_instr_state_t :=
  map (qemu_log_instr_add_filter filter) cs.

Definition qemu_log_instr_add_startup_filter (filter : nat) (w : filter_world)
  : filter_world :=
  let rf := match reset_filters w with None => [] | Some fs => fs end in
  match cpus w with
  | [] => mk_filter_world (Some (rf ++ [filter])) []
  | cs => mk_filter_world (Some rf) (qemu_log_instr_allcpu_add_filter filter cs)
  end.

(** The loop of [qemu_log_instr_set_cli_filters] over the names
    [g_strsplit] returned: the world after it and whether the error was
    set. *)
Fixpoint set_cli_filters_loop (names : list string) (w : filter_world)
  : filter_world * bool :=
  match names with
  | [] => (w, false)
  | name :: rest =>
      if String.eqb name "events"
      then set_cli_filters_loop rest (qemu_log_instr_add_startup_filter LOG_FILTER_EVENTS w)
      else (w, true) (* error_setg, break *)
  end.


(** ** Accounting of backend calls *)

(** [m'] comes after [m]: its trace extends that of [m], and the
    [entries_emitted] counter grew, modulo 2^64, by the number of
    [emit_instr] calls among the new observations. *)
Definition accounted (m m' : machine) : Prop :=
  exists obs,
    trace m' = trace m ++ obs /\
    wrap64 (entries_emitted (stats (cpulog m'))) =
      wrap64 (entries_emitted (stats (cpulog m))
              + Z.of_nat (length (emit_calls obs))).

(** ** Pending starts *)

(** A start that is pending ([starting] set) belongs to a CPU that is
    tracing and is announced by a START event in the current entry. *)
Definition start_pending_ok (m : machine) : Prop :=
  starting (cpulog m) = true ->
  loglevel_active (cpulog m) = true /\
  exists e pc,
    get_cpu_log_entry m = Some e /\
    LOG_EVENT_STATE LOG_EVENT_STATE_START pc ∈ e_events e.
(** * Properties *)

(** ** Reset *)

Lemma free_event_payloads_keeps_none evts (h : gmap nat (list log_reginfo_t)) a :
  h !! a = None -> free_event_payloads evts h !! a = None.
Proof.
  revert h. induction evts as [|ev evts IH]; intros h Hh; [exact Hh|].
  destruct ev as [st pc|b|id p]; simpl; try (apply IH; exact Hh).
  apply IH. destruct (decide (b = a)) as [->|Hne].
  - apply lookup_delete_eq.
  - rewrite lookup_delete_ne by exact Hne. exact Hh.
Qed.

Lemma free_event_payloads_frees evts (h : gmap nat (list log_reginfo_t)) a :
  LOG_EVENT_REGDUMP a ∈ evts -> free_event_payloads evts h !! a = None.
Proof.
  revert h. induction evts as [|ev evts IH]; intros h Hin.
  - inversion Hin.
  - apply elem_of_cons in Hin as [Heq|Hin].
    + subst ev. simpl. apply free_event_payloads_keeps_none, lookup_delete_eq.
    + destruct ev; simpl; apply IH; exact Hin.
Qed.

(** Dumps that no event of the entry points to stay allocated. *)
Lemma free_event_payloads_other evts (h : gmap nat (list log_reginfo_t)) a :
  LOG_EVENT_REGDUMP a ∉ evts -> free_event_payloads evts h !! a = h !! a.
Proof.
  revert h. induction evts as [|ev evts IH]; intros h Hnin; [reflexivity|].
  apply not_elem_of_cons in Hnin as [Hne Hnin].
  destruct ev as [st pc|b|id p]; simpl; try (apply IH; exact Hnin).
  rewrite IH by exact Hnin. apply lookup_delete_ne. congruence.
Qed.

Lemma reset_entry_canonical e : canonically_empty (reset_entry e).
Proof. repeat split. Qed.

(** What [reset_log_buffer] returns on a slot that exists. *)
Lemma reset_log_buffer_eq i m e :
  instr_info (cpulog m) !! i = Some e ->
  reset_log_buffer i m =
    Some (mk_machine
            (mk_cpulog (loglevel (cpulog m)) (loglevel_active (cpulog m))
               false false (cl_flags (cpulog m))
               (<[i := reset_entry e]> (instr_info (cpulog m)))
               (ring_head (cpulog m)) (ring_tail (cpulog m))
               (filters (cpulog m)) (stats (cpulog m))
               (qemu_log_printf_buf (cpulog m)))
            (qemu_loglevel m)
            (free_event_payloads (e_events e) (heap m))
            (heap_next m) (trace m)).
Proof. intros He. unfold reset_log_buffer. rewrite He. reflexivity. Qed.

Lemma reset_log_buffer_flags i m m' :
  reset_log_buffer i m = Some m' ->
  force_drop (cpulog m') = false /\ starting (cpulog m') = false.
Proof.
  unfold reset_log_buffer. destruct (instr_info (cpulog m) !! i) as [e|]; simpl;
    [|discriminate].
  intros [= <-]. split; reflexivity.
Qed.

Lemma reset_log_buffer_frame i m m' :
  reset_log_buffer i m = Some m' ->
  length (instr_info (cpulog m')) = length (instr_info (cpulog m)) /\
  ring_head (cpulog m') = ring_head (cpulog m) /\
  ring_tail (cpulog m') = ring_tail (cpulog m) /\
  loglevel (cpulog m') = loglevel (cpulog m) /\
  loglevel_active (cpulog m') = loglevel_active (cpulog m) /\
  cl_flags (cpulog m') = cl_flags (cpulog m) /\
  filters (cpulog m') = filters (cpulog m) /\
  stats (cpulog m') = stats (cpulog m) /\
  trace m' = trace m /\ qemu_loglevel m' = qemu_loglevel m.
Proof.
  unfold reset_log_buffer. destruct (instr_info (cpulog m) !! i) as [e|]; simpl;
    [|discriminate].
  intros [= <-]. simpl. rewrite length_insert. repeat split; reflexivity.
Qed.

Lemma reset_log_buffer_slot i m m' :
  reset_log_buffer i m = Some m' ->
  exists e e', instr_info (cpulog m) !! i = Some e /\
    instr_info (cpulog m') !! i = Some e' /\ canonically_empty e' /\
    heap m' = free_event_payloads (e_events e) (heap m).
Proof.
  unfold reset_log_buffer.
  destruct (instr_info (cpulog m) !! i) as [e|] eqn:He; simpl; [|discriminate].
  intros [= <-]. exists e, (reset_entry e). simpl.
  split; [reflexivity|]. split.
  - apply list_lookup_insert_eq. eapply lookup_lt_Some; exact He.
  - split; [apply reset_entry_canonical | reflexivity].
Qed.

Lemma reset_log_buffer_defined i m :
  (i < length (instr_info (cpulog m)))%nat -> is_Some (reset_log_buffer i m).
Proof.
  intros Hi. destruct (lookup_lt_is_Some_2 _ _ Hi) as [e He].
  rewrite (reset_log_buffer_eq _ _ _ He). eauto.
Qed.


(** ** Commit *)

Section Commit.
Context (tgt : target_t).

Lemma ring_wf_nonempty c : ring_wf c -> (0 < length (instr_info c))%nat.
Proof. intros [Hh _]. lia. Qed.

Lemma ring_wf_entry m :
  ring_wf (cpulog m) -> is_Some (get_cpu_log_entry m).
Proof. intros [Hh _]. apply lookup_lt_is_Some_2. exact Hh. Qed.

(** The filter loop only ever records filter calls. *)
Lemma run_filters_only_filters fs e :
  Forall (fun o => exists fn r, o = ObsFilter fn e r) (run_filters tgt fs e).2.
Proof.
  induction fs as [|fn fs IH]; simpl; [constructor|].
  destruct (call_filter tgt fn e) eqn:Hc.
  - destruct (run_filters tgt fs e) as [ok obs]. simpl in *.
    constructor; [eauto | exact IH].
  - simpl. constructor; [eauto | constructor].
Qed.

(** The loop stops at the first filter that rejects. *)
Lemma run_filters_reject l1 fn l2 e :
  Forall (fun g => call_filter tgt g e = true) l1 ->
  call_filter tgt fn e = false ->
  run_filters tgt (l1 ++ fn :: l2) e =
    (false, map (fun g => ObsFilter g e true) l1 ++ [ObsFilter fn e false]).
Proof.
  intros Hl1 Hfn. induction Hl1 as [|g l1 Hg _ IH]; simpl.
  - rewrite Hfn. reflexivity.
  - rewrite Hg, IH. reflexivity.
Qed.

Lemma run_filters_pass fs e :
  Forall (fun g => call_filter tgt g e = true) fs ->
  run_filters tgt fs e = (true, map (fun g => ObsFilter g e true) fs).
Proof.
  intros Hfs. induction Hfs as [|g fs Hg _ IH]; simpl; [reflexivity|].
  rewrite Hg, IH. reflexivity.
Qed.

(** A commit never touches the slots, the heap or the flags that reset
    owns; it moves the ring indices within the ring. *)
Lemma do_instr_commit_defined m :
  ring_wf (cpulog m) ->
  exists m', do_instr_commit tgt m = Some m' /\
    instr_info (cpulog m') = instr_info (cpulog m) /\
    ring_wf (cpulog m') /\ heap m' = heap m /\
    force_drop (cpulog m') = force_drop (cpulog m) /\
    cl_flags (cpulog m') = cl_flags (cpulog m) /\
    filters (cpulog m') = filters (cpulog m).
Proof.
  intros Hwf. pose proof (ring_wf_nonempty _ Hwf) as Hlen.
  destruct (ring_wf_entry m Hwf) as [e He].
  unfold do_instr_commit. destruct (force_drop (cpulog m)) eqn:Hfd.
  { exists m. repeat split; try reflexivity; try exact Hfd; apply Hwf. }
  rewrite He. simpl. destruct (run_filters tgt (filters (cpulog m)) e) as [ok obs].
  destruct ok; simpl.
  - destruct (has_flag (cl_flags (cpulog m)) QEMU_LOG_INSTR_FLAG_BUFFERED).
    + destruct (Nat.eqb_spec (length (instr_info (cpulog m))) 0) as [H0|_]; [lia|].
      eexists. split; [reflexivity|]. simpl.
      repeat split; try reflexivity; try exact Hfd; simpl.
      * apply Nat.mod_upper_bound. lia.
      * destruct (_ =? _)%nat; [apply Nat.mod_upper_bound; lia | apply Hwf].
    + eexists. split; [reflexivity|]. simpl.
      repeat split; try reflexivity; try exact Hfd; apply Hwf.
  - eexists. split; [reflexivity|]. simpl.
    repeat split; try reflexivity; try exact Hfd; apply Hwf.
Qed.

Lemma qemu_log_instr_commit_defined m :
  ring_wf (cpulog m) ->
  exists m1 m', do_instr_commit tgt m = Some m1 /\
    reset_log_buffer (ring_head (cpulog m1)) m1 = Some m' /\
    qemu_log_instr_commit tgt m = Some m' /\ ring_wf (cpulog m1).
Proof.
  intros Hwf. destruct (do_instr_commit_defined m Hwf) as (m1 & Hc & _ & Hwf1 & _).
  destruct (reset_log_buffer_defined (ring_head (cpulog m1)) m1) as [m' Hr];
    [apply Hwf1|].
  exists m1, m'. unfold qemu_log_instr_commit. rewrite Hc. simpl.
  split; [reflexivity|]. split; [exact Hr|]. split; [exact Hr | exact Hwf1].
Qed.

End Commit.

(** C5.  After every commit the slot that is then current is canonically
    empty: its register, memory and event sequences are empty, its text
    buffer is empty and its flags are 0; the reset that ends the commit
    has handed every register dump held by that slot's events to
    [g_array_free] before emptying the event sequence. *)
Theorem commit_resets_current_entry (tgt : target_t) (m : machine)
  (Hwf : ring_wf (cpulog m)) :
  exists m1 m',
    do_instr_commit tgt m = Some m1 /\
    qemu_log_instr_commit tgt m = Some m' /\
    (exists e', get_cpu_log_entry m' = Some e' /\
       length (e_regs e') = 0%nat /\ length (e_mem e') = 0%nat /\
       length (e_events e') = 0%nat /\
       e_txt_buffer e' = EmptyString /\ e_flags e' = 0) /\
    (forall e1 a,
       get_cpu_log_entry m1 = Some e1 ->
       LOG_EVENT_REGDUMP a ∈ e_events e1 ->
       heap m' !! a = None).
Proof.
  destruct (qemu_log_instr_commit_defined tgt m Hwf) as (m1 & m' & Hc & Hr & Hq & Hwf1).
  exists m1, m'. split; [exact Hc|]. split; [exact Hq|].
  destruct (reset_log_buffer_slot _ _ _ Hr) as (e & e' & He & He' & Hcan & Hheap).
  destruct (reset_log_buffer_frame _ _ _ Hr) as (_ & Hhead & _).
  split.
  - exists e'. unfold get_cpu_log_entry. rewrite Hhead. split; [exact He'|].
    destruct Hcan as (-> & -> & -> & -> & ->). repeat split.
  - intros e1 a He1 Hin. unfold get_cpu_log_entry in He1.
    rewrite He in He1. injection He1 as <-.
    rewrite Hheap. apply free_event_payloads_frees. exact Hin.
Qed.

Lemma emit_calls_app tr1 tr2 :
  emit_calls (tr1 ++ tr2) = emit_calls tr1 ++ emit_calls tr2.
Proof.
  induction tr1 as [|o tr1 IH]; [reflexivity|].
  destruct o; simpl; rewrite IH; reflexivity.
Qed.

Lemma filter_calls_app tr1 tr2 :
  filter_calls (tr1 ++ tr2) = filter_calls tr1 ++ filter_calls tr2.
Proof.
  induction tr1 as [|o tr1 IH]; [reflexivity|].
  destruct o; simpl; rewrite IH; reflexivity.
Qed.

Lemma emit_calls_filters_only e (gs : list cpu_log_instr_filter_fn_t) r :
  emit_calls (map (fun g => ObsFilter g e r) gs) = [].
Proof. induction gs; [reflexivity | assumption]. Qed.

Lemma filter_calls_filters_only e (gs : list cpu_log_instr_filter_fn_t) r :
  filter_calls (map (fun g => ObsFilter g e r) gs) = gs.
Proof. induction gs as [|g gs IH]; [reflexivity | simpl; rewrite IH; reflexivity]. Qed.

(** C7.  A commit performed with [force_drop] set (as [drop] leaves it)
    discards the current entry: [do_instr_commit] changes nothing, so
    [emit_instr] is not called, no filter runs and [entries_emitted]
    keeps its value, and the commit ends with the entry reset.  When the
    filters [l1] accept the entry and the next filter [fn] rejects it,
    [emit_instr] is not called either, and the filters evaluated are
    exactly [l1] then [fn]: none of the filters after [fn] runs. *)
Theorem commit_drop_or_reject_skips_emit (tgt : target_t) (m : machine) :
  force_drop (cpulog (qemu_log_instr_drop m)) = true /\
  (force_drop (cpulog m) = true ->
     do_instr_commit tgt m = Some m) /\
  (ring_wf (cpulog m) ->
   exists m' e',
     qemu_log_instr_commit tgt (qemu_log_instr_drop m) = Some m' /\
     emit_calls (trace m') = emit_calls (trace m) /\
     filter_calls (trace m') = filter_calls (trace m) /\
     entries_emitted (stats (cpulog m')) = entries_emitted (stats (cpulog m)) /\
     get_cpu_log_entry m' = Some e' /\ canonically_empty e') /\
  (forall entry l1 fn l2,
     force_drop (cpulog m) = false ->
     get_cpu_log_entry m = Some entry ->
     filters (cpulog m) = l1 ++ fn :: l2 ->
     Forall (fun g => call_filter tgt g entry = true) l1 ->
     call_filter tgt fn entry = false ->
     exists m', do_instr_commit tgt m = Some m' /\
       emit_calls (trace m') = emit_calls (trace m) /\
       filter_calls (trace m') = filter_calls (trace m) ++ l1 ++ [fn] /\
       cpulog m' = cpulog m).
Proof.
  split; [reflexivity|]. split; [|split].
  - intros Hfd. unfold do_instr_commit. rewrite Hfd. reflexivity.
  - intros Hwf. unfold qemu_log_instr_commit, do_instr_commit. simpl.
    destruct (reset_log_buffer_defined (ring_head (cpulog m)) (qemu_log_instr_drop m))
      as [m' Hr]; [apply Hwf|].
    simpl in Hr.
    destruct (reset_log_buffer_slot _ _ _ Hr) as (e & e' & _ & He' & Hcan & _).
    destruct (reset_log_buffer_frame _ _ _ Hr)
      as (_ & Hh & _ & _ & _ & _ & _ & Hstats & Htr & _).
    simpl in He', Hh, Hstats, Htr.
    exists m', e'. split; [exact Hr|]. rewrite Htr, Hstats.
    do 3 (split; [reflexivity|]).
    split; [unfold get_cpu_log_entry; rewrite Hh; exact He' | exact Hcan].
  - intros entry l1 fn l2 Hfd He Hfs Hl1 Hfn.
    unfold do_instr_commit. rewrite Hfd, He. simpl.
    rewrite Hfs, (run_filters_reject tgt l1 fn l2 entry Hl1 Hfn). simpl.
    eexists. split; [reflexivity|]. simpl.
    rewrite emit_calls_app, filter_calls_app, emit_calls_app, filter_calls_app.
    rewrite emit_calls_filters_only, filter_calls_filters_only. simpl.
    rewrite app_nil_r. destruct (cpulog m); repeat split; reflexivity.
Qed.

(** The theorem at work: a dropped commit of the sample machine, and a
    commit the event filter rejects before the region filter is asked. *)
Lemma commit_drop_or_reject_skips_emit_witness :
  do_instr_commit sample_target (qemu_log_instr_drop (sample_machine 0 [])) =
    Some (qemu_log_instr_drop (sample_machine 0 [])) /\
  exists m',
    do_instr_commit sample_target
      (sample_machine 0 [entry_event_filter_fn; entry_mem_regions_filter_fn]) =
      Some m' /\
    emit_calls (trace m') = [] /\
    filter_calls (trace m') = [entry_event_filter_fn].
Proof.
  split.
  - apply (commit_drop_or_reject_skips_emit sample_target
             (qemu_log_instr_drop (sample_machine 0 []))).
    reflexivity.
  - destruct (commit_drop_or_reject_skips_emit sample_target
                (sample_machine 0 [entry_event_filter_fn; entry_mem_regions_filter_fn]))
      as (_ & _ & _ & H).
    destruct (H sample_entry [] entry_event_filter_fn [entry_mem_regions_filter_fn])
      as (m' & Hc & Hemit & Hfilt & _).
    + reflexivity.
    + reflexivity.
    + reflexivity.
    + constructor.
    + reflexivity.
    + exists m'. split; [exact Hc|]. split; [exact Hemit | exact Hfilt].
Defined.

(** ** Resize *)

Lemma resize_loop_defined idxs m :
  Forall (fun i => (i < length (instr_info (cpulog m)))%nat) idxs ->
  exists m', resize_loop idxs m = Some m' /\
    length (instr_info (cpulog m')) = length (instr_info (cpulog m)) /\
    ring_head (cpulog m') = ring_head (cpulog m) /\
    ring_tail (cpulog m') = ring_tail (cpulog m) /\
    (idxs <> [] ->
       force_drop (cpulog m') = false /\ starting (cpulog m') = false) /\
    (idxs = [] -> m' = m).
Proof.
  revert m. induction idxs as [|i idxs IH]; intros m Hall.
  - exists m. split; [reflexivity|]. do 3 (split; [reflexivity|]).
    split; [intros Hne; contradiction | reflexivity].
  - apply Forall_cons in Hall as [Hi Hall]. simpl.
    destruct (reset_log_buffer_defined i m Hi) as [m1 Hr]. rewrite Hr. simpl.
    destruct (reset_log_buffer_frame _ _ _ Hr) as (Hlen & Hh & Ht & _).
    destruct (reset_log_buffer_flags _ _ _ Hr) as (Hfd & Hst).
    destruct (IH m1) as (m' & Hloop & Hlen' & Hh' & Ht' & Hflags & Hnil).
    { rewrite Hlen. exact Hall. }
    exists m'. split; [exact Hloop|].
    split; [congruence|]. split; [congruence|]. split; [congruence|].
    split; [|discriminate].
    intros _. destruct idxs as [|j idxs].
    + rewrite (Hnil eq_refl). split; assumption.
    + apply Hflags. discriminate.
Qed.

Lemma guint_of_ulong_of n : guint_of (ulong_of n) = guint_of n.
Proof.
  unfold guint_of, ulong_of.
  change (2 ^ 64)%N with (2 ^ 32 * 2 ^ 32)%N.
  rewrite N.Div0.mod_mul_r, N.mul_comm, N.Div0.mod_add.
  apply N.Div0.mod_mod.
Qed.

(** The resize is defined when the truncated length fits the [int]
    counter; the flags are cleared when the ring has a slot to reset. *)
Lemma do_log_buffer_resize_defined tgt new_size m :
  (guint_of new_size <= INT_MAX)%N ->
  exists m', do_log_buffer_resize tgt new_size m = Some m' /\
    length (instr_info (cpulog m')) = N.to_nat (guint_of new_size) /\
    ring_head (cpulog m') = 0%nat /\ ring_tail (cpulog m') = 0%nat /\
    ((0 < guint_of new_size)%N ->
       force_drop (cpulog m') = false /\ starting (cpulog m') = false).
Proof.
  intros Hint. unfold do_log_buffer_resize.
  destruct (N.ltb_spec INT_MAX (guint_of new_size)) as [Hgt|_]; [lia|].
  set (len := N.to_nat (guint_of new_size)).
  match goal with |- exists m', resize_loop ?idxs ?m0 = _ /\ _ =>
    assert (Hlen : length (instr_info (cpulog m0)) = len) end.
  { simpl. rewrite length_app, length_take, length_replicate. lia. }
  match goal with |- exists m', resize_loop ?idxs ?m0 = _ /\ _ =>
    destruct (resize_loop_defined idxs m0) as (m' & Hloop & Hl & Hh & Ht & Hflags & _) end.
  { rewrite Hlen. apply Forall_forall. intros i Hi. apply elem_of_seq in Hi. lia. }
  exists m'. split; [exact Hloop|]. split; [congruence|].
  split; [exact Hh|]. split; [exact Ht|].
  intros Hpos. apply Hflags.
  destruct len eqn:Hl0; [subst len; lia | discriminate].
Qed.

(** ** Loglevel switch *)

Section Switch.
Context (tgt : target_t).

Lemma do_instr_commit_frame m m' :
  do_instr_commit tgt m = Some m' ->
  instr_info (cpulog m') = instr_info (cpulog m) /\
  heap m' = heap m /\ heap_next m' = heap_next m /\
  loglevel (cpulog m') = loglevel (cpulog m) /\
  loglevel_active (cpulog m') = loglevel_active (cpulog m) /\
  starting (cpulog m') = starting (cpulog m) /\
  trace_start (stats (cpulog m')) = trace_start (stats (cpulog m)) /\
  trace_stop (stats (cpulog m')) = trace_stop (stats (cpulog m)) /\
  qemu_loglevel m' = qemu_loglevel m.
Proof.
  unfold do_instr_commit. destruct (force_drop (cpulog m)).
  { intros [= <-]. repeat split. }
  destruct (get_cpu_log_entry m) as [e|]; simpl; [|discriminate].
  destruct (run_filters tgt (filters (cpulog m)) e) as [[|] obs]; simpl.
  - destruct (has_flag _ _).
    + destruct (_ =? 0)%nat; [discriminate|]. intros [= <-]. repeat split.
    + intros [= <-]. repeat split.
  - intros [= <-]. repeat split.
Qed.

(** Step 3 of the switch on a slot that exists. *)
Lemma loglevel_switch_start_true pc m e :
  get_cpu_log_entry m = Some e ->
  exists m' e',
    loglevel_switch_start tgt true pc m = Some m' /\
    starting (cpulog m') = true /\
    get_cpu_log_entry m' = Some e' /\
    e_events e' =
      e_events e ++ LOG_EVENT_STATE LOG_EVENT_STATE_START pc
                 :: regdump_events tgt (heap_next m) /\
    stats (cpulog m') = inc_trace_start (stats (cpulog m)) /\
    loglevel (cpulog m') = loglevel (cpulog m) /\
    loglevel_active (cpulog m') = loglevel_active (cpulog m) /\
    trace m' = trace m.
Proof.
  intros He. unfold get_cpu_log_entry in He.
  pose proof (lookup_lt_Some _ _ _ He) as Hlt.
  unfold loglevel_switch_start, emit_regdump_event, regdump_events. simpl.
  rewrite He. simpl. rewrite list_lookup_insert_eq by exact Hlt. simpl.
  destruct (cpu_log_instr_event_regdump tgt) as [dump|]; simpl.
  - do 2 eexists. split; [reflexivity|]. simpl. split; [reflexivity|].
    unfold get_cpu_log_entry. simpl.
    rewrite list_lookup_insert_eq by (rewrite length_insert; exact Hlt).
    split; [reflexivity|]. simpl. rewrite <- app_assoc.
    repeat split; reflexivity.
  - do 2 eexists. split; [reflexivity|]. simpl. split; [reflexivity|].
    unfold get_cpu_log_entry. simpl.
    rewrite list_lookup_insert_eq by exact Hlt.
    repeat split; reflexivity.
Qed.

End Switch.

(** The pending-start sample is what the code produces. *)
Example idle_switch_to_all :
  do_cpu_loglevel_switch sample_target
    (mk_next_level_arg QEMU_LOG_INSTR_LOGLEVEL_ALL None true) idle_machine
  = Some pending_start_machine.
Proof. vm_compute. reflexivity. Qed.

(** C1 (as stated, refuted).  The pending start of
    [pending_start_machine] is switched from ALL to USER while the CPU is
    in user mode: the previous level was active, [starting] is set, the
    switch is not a no-op and the next level is active.  The code resets
    the entry and stops there: [starting] is not set again, no START and
    no REGDUMP event is appended and [trace_start] is not incremented. *)
Lemma loglevel_switch_restart_counterexample :
  loglevel_active (cpulog pending_start_machine) = true /\
  starting (cpulog pending_start_machine) = true /\
  exists m' e',
    do_cpu_loglevel_switch sample_target_user
      (cpu_loglevel_switch 8192 QEMU_LOG_INSTR_LOGLEVEL_USER false)
      pending_start_machine = Some m' /\
    loglevel_active (cpulog m') = true /\
    starting (cpulog m') = false /\
    get_cpu_log_entry m' = Some e' /\ e_events e' = [] /\
    trace_start (stats (cpulog m')) =
      trace_start (stats (cpulog pending_start_machine)).
Proof.
  split; [reflexivity|]. split; [reflexivity|].
  eexists. eexists. split; [vm_compute; reflexivity|].
  split; [reflexivity|]. split; [reflexivity|].
  split; [vm_compute; reflexivity|]. split; reflexivity.
Qed.

(** C1 (amended).  For a per-CPU loglevel switch that is not a no-op:
    - if the previous level was active and [starting] is set, the pending
      start is discarded by resetting the current entry and the switch
      ends there, whatever the next level: the levels are updated,
      [starting] is left false, the current entry is empty (no START, no
      REGDUMP), the counters and the backend trace keep their values;
    - step 3 is reached when the previous level was not active, or was
      active with [starting] clear (after the STOP entry was committed
      and the slot reset): if the next level is active, [starting] is
      set, STATE{START, pc} and, when the target hook provides one, a
      REGDUMP are appended to the current entry and [trace_start] is
      incremented. *)
Theorem loglevel_switch_pending_start (tgt : target_t)
  (arg : qemu_log_next_level_arg_t) (m : machine) (entry : cpu_log_entry_t)
  (pc : Z)
  (Hentry : get_cpu_log_entry m = Some entry)
  (Hglobal : has_flag (qemu_loglevel m) CPU_LOG_INSTR = true)
  (Hpc : (if arg_global arg then Some (cpu_get_recent_pc tgt) else arg_pc arg)
         = Some pc)
  (Hnoop : loglevel_eqb (next_level arg) (loglevel (cpulog m))
           && eqb (loglevel_active (cpulog m))
                (next_level_active_of tgt entry (next_level arg)) = false) :
  (loglevel_active (cpulog m) = true -> starting (cpulog m) = true ->
   exists m' e',
     do_cpu_loglevel_switch tgt arg m = Some m' /\
     loglevel (cpulog m') = next_level arg /\
     loglevel_active (cpulog m') =
       next_level_active_of tgt entry (next_level arg) /\
     starting (cpulog m') = false /\
     get_cpu_log_entry m' = Some e' /\ canonically_empty e' /\
     stats (cpulog m') = stats (cpulog m) /\
     trace m' = trace m) /\
  (loglevel_active (cpulog m) = false ->
   next_level_active_of tgt entry (next_level arg) = true ->
   exists m' e',
     do_cpu_loglevel_switch tgt arg m = Some m' /\
     starting (cpulog m') = true /\
     get_cpu_log_entry m' = Some e' /\
     e_events e' =
       e_events entry ++ LOG_EVENT_STATE LOG_EVENT_STATE_START pc
                      :: regdump_events tgt (heap_next m) /\
     trace_start (stats (cpulog m')) = inc_stat (trace_start (stats (cpulog m))) /\
     trace_stop (stats (cpulog m')) = trace_stop (stats (cpulog m))) /\
  (loglevel_active (cpulog m) = true -> starting (cpulog m) = false ->
   ring_wf (cpulog m) ->
   next_level_active_of tgt entry (next_level arg) = true ->
   exists m' e',
     do_cpu_loglevel_switch tgt arg m = Some m' /\
     starting (cpulog m') = true /\
     get_cpu_log_entry m' = Some e' /\
     e_events e' =
       LOG_EVENT_STATE LOG_EVENT_STATE_START pc
       :: regdump_events tgt (heap_next m) /\
     trace_start (stats (cpulog m')) = inc_stat (trace_start (stats (cpulog m))) /\
     trace_stop (stats (cpulog m')) = inc_stat (trace_stop (stats (cpulog m)))).
Proof.
  pose proof Hentry as He. unfold get_cpu_log_entry in He.
  pose proof (lookup_lt_Some _ _ _ He) as Hlt.
  split; [|split].
  - intros Hact Hst. unfold do_cpu_loglevel_switch.
    rewrite He. simpl. rewrite Hglobal, Hpc. simpl. rewrite Hnoop, Hact, Hst.
    rewrite (reset_log_buffer_eq _ _ entry) by exact He.
    do 2 eexists. split; [reflexivity|]. simpl.
    do 3 (split; [reflexivity|]).
    split; [unfold get_cpu_log_entry; simpl; apply list_lookup_insert_eq; exact Hlt|].
    split; [apply reset_entry_canonical|]. split; reflexivity.
  - intros Hact Hnext. unfold do_cpu_loglevel_switch.
    rewrite He. simpl. rewrite Hglobal, Hpc. simpl. rewrite Hnoop, Hact, Hnext.
    match goal with |- context [loglevel_switch_start tgt true pc ?m0] =>
      destruct (loglevel_switch_start_true tgt pc m0 entry Hentry)
        as (m' & e' & Hs & Hst' & He' & Hev & Hstats & _) end.
    exists m', e'. split; [exact Hs|]. split; [exact Hst'|].
    split; [exact He'|]. split; [exact Hev|].
    rewrite Hstats. split; reflexivity.
  - intros Hact Hst Hwf Hnext. unfold do_cpu_loglevel_switch.
    rewrite He. simpl. rewrite Hglobal, Hpc. simpl.
    rewrite Hnoop, Hact, Hst, Hnext.
    match goal with |- context [do_instr_commit tgt ?m2] =>
      destruct (do_instr_commit_defined tgt m2) as (m3 & Hc & _ & Hwf3 & _);
      [ destruct Hwf as [Hh Ht]; split; simpl; rewrite length_insert; assumption |];
      pose proof (do_instr_commit_frame tgt m2 m3 Hc)
        as (_ & _ & Hnext3 & _ & _ & _ & Hts3 & Htp3 & _)
    end.
    rewrite Hc. simpl.
    destruct (reset_log_buffer_defined (ring_head (cpulog m3)) m3) as [m4 Hr];
      [apply Hwf3|].
    rewrite Hr. simpl.
    destruct (reset_log_buffer_slot _ _ _ Hr) as (e3 & e4 & _ & He4 & Hcan & _).
    destruct (reset_log_buffer_frame _ _ _ Hr)
      as (_ & Hh4 & _ & _ & _ & _ & _ & Hstats4 & _).
    assert (Hnext4 : heap_next m4 = heap_next m3).
    { unfold reset_log_buffer in Hr.
      destruct (instr_info (cpulog m3) !! ring_head (cpulog m3)); simpl in Hr;
        [|discriminate]. injection Hr as <-. reflexivity. }
    destruct (loglevel_switch_start_true tgt pc m4 e4)
      as (m' & e' & Hs & Hst' & He' & Hev & Hstats & _).
    { unfold get_cpu_log_entry. rewrite Hh4. exact He4. }
    exists m', e'. split; [exact Hs|]. split; [exact Hst'|].
    split; [exact He'|]. destruct Hcan as (_ & _ & Hev4 & _).
    rewrite Hev, Hev4, Hnext4, Hnext3, Hstats, Hstats4. simpl.
    rewrite Hts3, Htp3. simpl. repeat split; reflexivity.
Qed.

(** The theorem at the input of the counterexample. *)
Lemma loglevel_switch_pending_start_witness :
  exists m' e',
    do_cpu_loglevel_switch sample_target_user
      (cpu_loglevel_switch 8192 QEMU_LOG_INSTR_LOGLEVEL_USER false)
      pending_start_machine = Some m' /\
    starting (cpulog m') = false /\
    get_cpu_log_entry m' = Some e' /\ canonically_empty e'.
Proof.
  destruct (loglevel_switch_pending_start sample_target_user
              (cpu_loglevel_switch 8192 QEMU_LOG_INSTR_LOGLEVEL_USER false)
              pending_start_machine
              (mk_entry 0 0 0 0 0 0 4096 4096 [0; 0; 0; 0] 0 EmptyString [] []
                 [LOG_EVENT_STATE LOG_EVENT_STATE_START 4096; LOG_EVENT_REGDUMP 0])
              8192)
    as (H & _ & _).
  - reflexivity.
  - reflexivity.
  - reflexivity.
  - reflexivity.
  - destruct H as (m' & e' & Hs & _ & _ & Hst & He' & Hcan & _).
    + reflexivity.
    + reflexivity.
    + exists m', e'. split; [exact Hs|]. split; [exact Hst|].
      split; [exact He' | exact Hcan].
Defined.

(** C9.  Every reset of the current entry clears [force_drop] and
    [starting]: the reset itself, the one that ends each commit, the one
    of a loglevel switch that stops tracing and the ones of a ring
    resize that leaves the ring a slot to reset (the length
    [g_array_set_size] receives, the low 32 bits of the size, is not 0
    and within reach of the [int] counter of the loop).  Hence a commit that follows [drop] is discarded (nothing is
    emitted, the counters and the ring head keep their values) and leaves
    [force_drop] false: the drop does not reach a later commit. *)
Theorem reset_clears_force_drop_and_starting (tgt : target_t) (m : machine)
  (Hwf : ring_wf (cpulog m)) :
  (forall i, (i < length (instr_info (cpulog m)))%nat ->
     exists m', reset_log_buffer i m = Some m' /\
       force_drop (cpulog m') = false /\ starting (cpulog m') = false) /\
  (exists m', qemu_log_instr_commit tgt m = Some m' /\
     force_drop (cpulog m') = false /\ starting (cpulog m') = false) /\
  (exists m', qemu_log_instr_commit tgt (qemu_log_instr_drop m) = Some m' /\
     force_drop (cpulog m') = false /\ starting (cpulog m') = false /\
     trace m' = trace m /\ stats (cpulog m') = stats (cpulog m) /\
     ring_head (cpulog m') = ring_head (cpulog m) /\
     ring_tail (cpulog m') = ring_tail (cpulog m)) /\
  (forall arg entry pc,
     get_cpu_log_entry m = Some entry ->
     has_flag (qemu_loglevel m) CPU_LOG_INSTR = true ->
     (if arg_global arg then Some (cpu_get_recent_pc tgt) else arg_pc arg)
       = Some pc ->
     loglevel_active (cpulog m) = true ->
     next_level_active_of tgt entry (next_level arg) = false ->
     exists m', do_cpu_loglevel_switch tgt arg m = Some m' /\
       loglevel_active (cpulog m') = false /\
       force_drop (cpulog m') = false /\ starting (cpulog m') = false) /\
  (forall new_size, (0 < guint_of new_size <= INT_MAX)%N ->
     exists m', do_log_buffer_resize tgt new_size m = Some m' /\
       (0 < length (instr_info (cpulog m')))%nat /\
       force_drop (cpulog m') = false /\ starting (cpulog m') = false).
Proof.
  split; [|split; [|split; [|split]]].
  - intros i Hi. destruct (reset_log_buffer_defined i m Hi) as [m' Hr].
    exists m'. split; [exact Hr | exact (reset_log_buffer_flags _ _ _ Hr)].
  - destruct (qemu_log_instr_commit_defined tgt m Hwf) as (m1 & m' & _ & Hr & Hq & _).
    exists m'. split; [exact Hq | exact (reset_log_buffer_flags _ _ _ Hr)].
  - unfold qemu_log_instr_commit, do_instr_commit. simpl.
    destruct (reset_log_buffer_defined (ring_head (cpulog m)) (qemu_log_instr_drop m))
      as [m' Hr]; [apply Hwf|].
    simpl in Hr. exists m'. split; [exact Hr|].
    destruct (reset_log_buffer_flags _ _ _ Hr) as [Hfd Hst].
    destruct (reset_log_buffer_frame _ _ _ Hr)
      as (_ & Hh & Ht & _ & _ & _ & _ & Hstats & Htr & _).
    repeat split; assumption.
  - intros arg entry pc Hentry Hglobal Hpc Hact Hnext.
    pose proof Hentry as He. unfold get_cpu_log_entry in He.
    unfold do_cpu_loglevel_switch. rewrite He. simpl. rewrite Hglobal, Hpc. simpl.
    rewrite Hact, Hnext. simpl. rewrite andb_false_r.
    destruct (starting (cpulog m)) eqn:Hst.
    + rewrite (reset_log_buffer_eq _ _ entry) by exact He.
      eexists. split; [reflexivity|]. repeat split.
    + match goal with |- context [do_instr_commit tgt ?m2] =>
        destruct (do_instr_commit_defined tgt m2) as (m3 & Hc & _ & Hwf3 & _);
        [ destruct Hwf as [Hh Ht]; split; simpl; rewrite length_insert; assumption |];
        pose proof (do_instr_commit_frame tgt m2 m3 Hc)
          as (_ & _ & _ & _ & Hact3 & _)
      end.
      rewrite Hc. simpl.
      destruct (reset_log_buffer_defined (ring_head (cpulog m3)) m3) as [m4 Hr];
        [apply Hwf3|].
      rewrite Hr. simpl. exists m4. split; [reflexivity|].
      destruct (reset_log_buffer_frame _ _ _ Hr) as (_ & _ & _ & _ & Hact4 & _).
      split; [rewrite Hact4, Hact3; reflexivity|].
      exact (reset_log_buffer_flags _ _ _ Hr).
  - intros new_size [Hpos Hint].
    destruct (do_log_buffer_resize_defined tgt new_size m Hint)
      as (m' & Hr & Hlen & _ & _ & Hflags).
    exists m'. split; [exact Hr|]. split; [lia | exact (Hflags Hpos)].
Qed.

(** The theorem on the sample machine: commit after drop. *)
Lemma reset_clears_force_drop_and_starting_witness :
  ring_wf (cpulog (sample_machine 0 [])) /\
  exists m',
    qemu_log_instr_commit sample_target (qemu_log_instr_drop (sample_machine 0 []))
      = Some m' /\
    force_drop (cpulog m') = false /\ starting (cpulog m') = false /\
    trace m' = [].
Proof.
  assert (Hwf : ring_wf (cpulog (sample_machine 0 []))).
  { split; simpl; lia. }
  split; [exact Hwf|].
  destruct (reset_clears_force_drop_and_starting sample_target (sample_machine 0 []) Hwf)
    as (_ & _ & (m' & Hq & Hfd & Hst & Htr & _) & _).
  exists m'. split; [exact Hq|]. split; [exact Hfd|]. split; [exact Hst | exact Htr].
Defined.

(** ** The ring indices along a run *)

Section RingInvariant.
Context (tgt : target_t).

Lemma put_entry_wf i e m :
  ring_wf (cpulog m) -> ring_wf (cpulog (put_entry i e m)).
Proof. intros [Hh Ht]. split; simpl; rewrite length_insert; assumption. Qed.

Lemma reset_log_buffer_wf i m m' :
  ring_wf (cpulog m) -> reset_log_buffer i m = Some m' -> ring_wf (cpulog m').
Proof.
  intros [Hh Ht] Hr.
  destruct (reset_log_buffer_frame _ _ _ Hr) as (Hlen & Hh' & Ht' & _).
  split; congruence.
Qed.





Lemma flush_loop_frame fuel curr m m' :
  flush_loop fuel curr m = Some m' ->
  instr_info (cpulog m') = instr_info (cpulog m) /\
  ring_head (cpulog m') = ring_head (cpulog m) /\
  ring_tail (cpulog m') = ring_tail (cpulog m).
Proof.
  revert curr m. induction fuel as [|fuel IH]; intros curr m; simpl.
  - destruct (_ =? _)%nat; [|discriminate]. intros [= <-]. repeat split.
  - destruct (_ =? _)%nat; [intros [= <-]; repeat split|].
    destruct (instr_info (cpulog m) !! curr) as [e|]; simpl; [|discriminate].
    intros Hl. apply IH in Hl. simpl in Hl. exact Hl.
Qed.


(** What a resize request does to one CPU: nothing when it is below the
    minimum; otherwise, when defined, a ring of the truncated length
    with both indices at 0, and cleared flags if that length is not 0. *)
Lemma qemu_log_instr_set_buffer_size_cases new_size m m' :
  qemu_log_instr_set_buffer_size tgt new_size m = Some m' ->
  ((ulong_of new_size < N.of_nat MIN_ENTRY_BUFFER_SIZE)%N /\ m' = m) \/
  ((N.of_nat MIN_ENTRY_BUFFER_SIZE <= ulong_of new_size)%N /\
   (guint_of new_size <= INT_MAX)%N /\
   length (instr_info (cpulog m')) = N.to_nat (guint_of new_size) /\
   ring_head (cpulog m') = 0%nat /\ ring_tail (cpulog m') = 0%nat /\
   (guint_of new_size <> 0%N ->
      force_drop (cpulog m') = false /\ starting (cpulog m') = false)).
Proof.
  unfold qemu_log_instr_set_buffer_size. cbv zeta.
  destruct (N.ltb_spec (ulong_of new_size) (N.of_nat MIN_ENTRY_BUFFER_SIZE))
    as [Hlt|Hge].
  - intros [= <-]. left. split; [exact Hlt | reflexivity].
  - intros Hs. right. split; [exact Hge|].
    assert (Hint : (guint_of (ulong_of new_size) <= INT_MAX)%N).
    { unfold do_log_buffer_resize in Hs.
      destruct (N.ltb_spec INT_MAX (guint_of (ulong_of new_size))) as [?|Hle];
        [discriminate | exact Hle]. }
    destruct (do_log_buffer_resize_defined tgt (ulong_of new_size) m Hint)
      as (m1 & Hr & Hlen & Hh & Ht & Hflags).
    rewrite Hr in Hs. injection Hs as <-.
    rewrite guint_of_ulong_of in Hint, Hlen, Hflags.
    split; [exact Hint|]. split; [exact Hlen|]. split; [exact Hh|].
    split; [exact Ht|]. intros Hnz. apply Hflags. lia.
Qed.



End RingInvariant.







(** ** Filter arrays *)

(** What [g_array_remove_index_fast] does to the order in general: the
    last element moves into the hole. *)
Example remove_index_fast_moves_last :
  g_array_remove_index_fast [10; 20; 30; 40]%nat 1 = [10; 40; 30]%nat.
Proof. reflexivity. Qed.

(** The registry has two entries and appends skip duplicates: a CPU's
    filter array is one of five. *)
Lemma reachable_filters_shape c :
  reachable_filters c ->
  filters c = [] \/
  filters c = [entry_mem_regions_filter_fn] \/
  filters c = [entry_event_filter_fn] \/
  filters c = [entry_mem_regions_filter_fn; entry_event_filter_fn] \/
  filters c = [entry_event_filter_fn; entry_mem_regions_filter_fn].
Proof.
  induction 1 as [c H0|c filter _ IH|c filter _ IH].
  - left. exact H0.
  - unfold qemu_log_instr_add_filter.
    destruct filter as [|[|n]]; simpl;
      destruct IH as [H|[H|[H|[H|H]]]]; rewrite ?H; simpl; rewrite ?H; auto 6.
  - unfold qemu_log_instr_remove_filter.
    destruct filter as [|[|n]]; simpl;
      destruct IH as [H|[H|[H|[H|H]]]]; rewrite ?H; simpl; rewrite ?H; auto 6.
Qed.

Lemma reachable_filters_NoDup c : reachable_filters c -> NoDup (filters c).
Proof.
  intros Hr. destruct (reachable_filters_shape c Hr) as [H|[H|[H|[H|H]]]];
    rewrite H; compute_done.
Qed.

(** C2.  For a CPU whose filter array holds the valid filter [filter],
    [qemu_log_instr_remove_filter] deletes that one occurrence and keeps
    the remaining filters in their relative order. *)
Theorem remove_filter_deletes_one_keeps_order (c : cpu_log_instr_state_t)
  (filter : nat) (fn : cpu_log_instr_filter_fn_t)
  (Hreach : reachable_filters c)
  (Hvalid : trace_filters !! filter = Some fn)
  (Hin : fn ∈ filters c) :
  exists l1 l2,
    filters c = l1 ++ fn :: l2 /\
    (fn ∉ l1) /\ (fn ∉ l2) /\
    filters (qemu_log_instr_remove_filter filter c) = l1 ++ l2.
Proof.
  unfold qemu_log_instr_remove_filter.
  assert (Hlt : (filter < LOG_INSTR_FILTER_MAX)%nat)
    by (eapply lookup_lt_Some; exact Hvalid).
  destruct (Nat.leb_spec LOG_INSTR_FILTER_MAX filter) as [Hge|_]; [lia|].
  rewrite Hvalid.
  destruct (reachable_filters_shape c Hreach) as [H|[H|[H|[H|H]]]];
    rewrite H in *; destruct fn.
  all: try (exfalso; revert Hin; compute_done).
  - exists [], []. repeat split; first [reflexivity | compute_done].
  - exists [], []. repeat split; first [reflexivity | compute_done].
  - exists [], [entry_event_filter_fn].
    repeat split; first [reflexivity | compute_done].
  - exists [entry_mem_regions_filter_fn], [].
    repeat split; first [reflexivity | compute_done].
  - exists [entry_event_filter_fn], [].
    repeat split; first [reflexivity | compute_done].
  - exists [], [entry_mem_regions_filter_fn].
    repeat split; first [reflexivity | compute_done].
Qed.

(** The theorem on a CPU that installed both filters: removing the
    region filter leaves the event filter. *)
Lemma remove_filter_deletes_one_keeps_order_witness :
  filters (qemu_log_instr_remove_filter 0
             (qemu_log_instr_add_filter 1
                (qemu_log_instr_add_filter 0 (sample_cpulog 0 []))))
  = [entry_event_filter_fn].
Proof.
  destruct (remove_filter_deletes_one_keeps_order
              (qemu_log_instr_add_filter 1
                 (qemu_log_instr_add_filter 0 (sample_cpulog 0 [])))
              0 entry_mem_regions_filter_fn)
    as (l1 & l2 & Hsplit & Hn1 & Hn2 & Hrem).
  - apply reachable_add, reachable_add, reachable_init. reflexivity.
  - reflexivity.
  - simpl. apply elem_of_cons. left. reflexivity.
  - rewrite Hrem. simpl in Hsplit.
    destruct l1 as [|x l1].
    + simpl in Hsplit. injection Hsplit as <-. reflexivity.
    + simpl in Hsplit. injection Hsplit as <- Hrest.
      exfalso. apply Hn1. apply elem_of_cons. left. reflexivity.
Defined.

(** ** The memory-region filter *)

(** With a range array, the filter accepts exactly the entries whose pc
    or one of whose memory addresses lies in one of the ranges. *)
Lemma mem_regions_inner_spec r mem :
  mem_regions_inner r mem = true <->
  exists minfo, minfo ∈ mem /\ range_contains r (mi_addr minfo) = true.
Proof.
  induction mem as [|mi mem IH]; simpl.
  - split; [discriminate|]. intros (x & Hx & _). inversion Hx.
  - destruct (range_contains r (mi_addr mi)) eqn:Hc.
    + split; [|reflexivity]. intros _. exists mi. split; [left|exact Hc].
    + rewrite IH. split.
      * intros (x & Hx & Hr). exists x. split; [right; exact Hx | exact Hr].
      * intros (x & Hx & Hr). apply elem_of_cons in Hx as [->|Hx]; [congruence|].
        exists x. split; assumption.
Qed.

Lemma mem_regions_outer_spec ranges entry :
  mem_regions_outer ranges entry = true <->
  exists r, r ∈ ranges /\
    (range_contains r (e_pc entry) = true \/ mem_regions_inner r (e_mem entry) = true).
Proof.
  induction ranges as [|r ranges IH]; simpl.
  - split; [discriminate|]. intros (x & Hx & _). inversion Hx.
  - destruct (range_contains r (e_pc entry)) eqn:Hpc.
    { split; [|reflexivity]. intros _. exists r. split; [left | left; exact Hpc]. }
    destruct (mem_regions_inner r (e_mem entry)) eqn:Hmem.
    { split; [|reflexivity]. intros _. exists r. split; [left | right; exact Hmem]. }
    rewrite IH. split.
    + intros (x & Hx & Hr). exists x. split; [right; exact Hx | exact Hr].
    + intros (x & Hx & Hr). apply elem_of_cons in Hx as [->|Hx].
      * destruct Hr; congruence.
      * exists x. split; assumption.
Qed.

(** C3 (as stated, refuted).  A range set that is empty but allocated
    ([debug_regions] points to an array of length 0): the sample entry
    does not pass. *)
Lemma mem_regions_filter_empty_counterexample :
  debug_regions sample_target_no_ranges = Some [] /\
  entry_mem_regions_filter sample_target_no_ranges sample_entry = false.
Proof. split; reflexivity. Qed.

(** C3 (amended).  Whenever [debug_regions] is unset (the NULL pointer),
    every entry passes the MEM_REGIONS filter; an allocated array that
    holds no range rejects every entry. *)
Theorem mem_regions_filter_unset_passes (tgt : target_t) (entry : cpu_log_entry_t) :
  (debug_regions tgt = None -> entry_mem_regions_filter tgt entry = true) /\
  (debug_regions tgt = Some [] -> entry_mem_regions_filter tgt entry = false).
Proof.
  unfold entry_mem_regions_filter. split; intros ->; reflexivity.
Qed.

(** The theorem on the sample target, where [-dfilter] is not given. *)
Lemma mem_regions_filter_unset_passes_witness :
  debug_regions sample_target = None /\
  entry_mem_regions_filter sample_target sample_entry = true.
Proof.
  split; [reflexivity|].
  apply (mem_regions_filter_unset_passes sample_target sample_entry). reflexivity.
Defined.

(** ** The start event *)

Lemma land_lnot_clears f mask : Z.land (Z.land f (Z.lnot mask)) mask = 0.
Proof.
  rewrite <- Z.land_assoc, (Z.land_comm (Z.lnot mask)), Z.land_lnot_diag.
  apply Z.land_0_r.
Qed.

Lemma land_lnot_keeps f mask other :
  Z.land other mask = 0 -> Z.land (Z.land f (Z.lnot mask)) other = Z.land f other.
Proof.
  intros Hdisj. apply Z.bits_inj'. intros n Hn.
  rewrite !Z.land_spec, Z.lnot_spec by exact Hn.
  assert (Hbit : Z.testbit other n && Z.testbit mask n = false).
  { rewrite <- Z.land_spec, Hdisj. apply Z.bits_0. }
  destruct (Z.testbit f n), (Z.testbit mask n), (Z.testbit other n);
    simpl in *; congruence.
Qed.

(** C10.  Appending a START state event to an entry always clears
    HAS_INSTR_DATA, overwrites [pc] and [paddr] with the event's pc and
    its translation, and leaves the other flag bits, the other fields
    and the register and memory sequences unchanged; the events the
    entry already held stay in place, in order, the appended START
    event being the one addition to the event sequence. *)
Theorem emit_start_event_frame (tgt : target_t) (entry : cpu_log_entry_t) (pc : Z) :
  has_flag (e_flags (emit_start_event tgt entry pc)) LI_FLAG_HAS_INSTR_DATA = false /\
  (forall other, Z.land other LI_FLAG_HAS_INSTR_DATA = 0 ->
     Z.land (e_flags (emit_start_event tgt entry pc)) other
       = Z.land (e_flags entry) other) /\
  e_pc (emit_start_event tgt entry pc) = pc /\
  e_paddr (emit_start_event tgt entry pc) = get_paddr tgt pc /\
  e_asid (emit_start_event tgt entry pc) = e_asid entry /\
  e_next_cpu_mode (emit_start_event tgt entry pc) = e_next_cpu_mode entry /\
  e_intr_code (emit_start_event tgt entry pc) = e_intr_code entry /\
  e_intr_vector (emit_start_event tgt entry pc) = e_intr_vector entry /\
  e_intr_faultaddr (emit_start_event tgt entry pc) = e_intr_faultaddr entry /\
  e_insn_bytes (emit_start_event tgt entry pc) = e_insn_bytes entry /\
  e_insn_size (emit_start_event tgt entry pc) = e_insn_size entry /\
  e_txt_buffer (emit_start_event tgt entry pc) = e_txt_buffer entry /\
  e_regs (emit_start_event tgt entry pc) = e_regs entry /\
  e_mem (emit_start_event tgt entry pc) = e_mem entry /\
  e_events (emit_start_event tgt entry pc)
    = e_events entry ++ [LOG_EVENT_STATE LOG_EVENT_STATE_START pc].
Proof.
  split; [|split].
  - unfold has_flag. simpl. rewrite land_lnot_clears. reflexivity.
  - intros other Hother. simpl. apply land_lnot_keeps. exact Hother.
  - repeat split.
Qed.

(** ** The global switch *)

Lemma has_flag_lor_keeps f extra mask :
  has_flag f mask = true -> has_flag (Z.lor f extra) mask = true.
Proof.
  unfold has_flag. rewrite !negb_true_iff, !Z.eqb_neq.
  intros Hset Hz. apply Hset.
  rewrite Z.land_lor_distr_l in Hz. apply Z.lor_eq_0_iff in Hz. apply Hz.
Qed.

Lemma global_switch_flags_idem f :
  global_switch_flags (global_switch_flags f) = global_switch_flags f /\
  global_switch_level (global_switch_flags f) = global_switch_level f.
Proof.
  unfold global_switch_flags, global_switch_level.
  destruct (has_flag f CPU_LOG_INSTR_U) eqn:Hu.
  - rewrite (has_flag_lor_keeps _ _ _ Hu).
    rewrite <- Z.lor_assoc, Z.lor_diag. split; reflexivity.
  - rewrite Hu. split; reflexivity.
Qed.

Lemma global_switch_step_eq f queue cpu :
  global_switch_step (f, queue) cpu =
    (global_switch_flags f,
     queue ++ [(cpu, mk_next_level_arg (global_switch_level f) None true)]).
Proof.
  unfold global_switch_step, global_switch_flags, global_switch_level.
  destruct (has_flag f CPU_LOG_INSTR_U); [reflexivity|].
  destruct (has_flag f CPU_LOG_INSTR); reflexivity.
Qed.

Lemma global_switch_fold cpus f queue :
  cpus <> [] ->
  foldl global_switch_step (f, queue) cpus =
    (global_switch_flags f,
     queue ++ map (fun cpu =>
                     (cpu, mk_next_level_arg (global_switch_level f) None true)) cpus).
Proof.
  revert f queue. induction cpus as [|cpu cpus IH]; intros f queue Hne;
    [contradiction|].
  cbn [foldl]. rewrite global_switch_step_eq. destruct cpus as [|cpu' cpus].
  - reflexivity.
  - rewrite IH by discriminate.
    destruct (global_switch_flags_idem f) as [-> ->].
    rewrite <- app_assoc. reflexivity.
Qed.

(** With at least one CPU the switch does what the monitor expects: the
    returned word has INSTR set when INSTR_U was, and every CPU gets one
    work item with the level the flags select. *)
Lemma global_switch_with_cpus log_flags cpus :
  cpus <> [] ->
  qemu_log_instr_global_switch log_flags cpus =
    (global_switch_flags log_flags,
     map (fun cpu =>
            (cpu, mk_next_level_arg (global_switch_level log_flags) None true)) cpus) /\
  (has_flag log_flags CPU_LOG_INSTR_U = true ->
   has_flag (qemu_log_instr_global_switch log_flags cpus).1 CPU_LOG_INSTR = true).
Proof.
  intros Hne. unfold qemu_log_instr_global_switch.
  rewrite global_switch_fold by exact Hne. split; [reflexivity|].
  intros Hu. simpl. unfold global_switch_flags. rewrite Hu.
  unfold has_flag. rewrite negb_true_iff, Z.eqb_neq.
  rewrite Z.land_lor_distr_l, Z.land_diag. intros Hz.
  apply Z.lor_eq_0_iff in Hz. destruct Hz as [_ Hz]. discriminate Hz.
Qed.

(** C4 (the code at the failing input).  Before any CPU exists the loop
    body never runs: the flag word comes back as it was given, so a word
    with INSTR_U set and INSTR clear is returned with INSTR still clear,
    and nothing is scheduled. *)
Theorem global_switch_without_cpus :
  (forall log_flags, qemu_log_instr_global_switch log_flags [] = (log_flags, [])) /\
  has_flag CPU_LOG_INSTR_U CPU_LOG_INSTR_U = true /\
  has_flag (qemu_log_instr_global_switch CPU_LOG_INSTR_U []).1 CPU_LOG_INSTR = false.
Proof. split; [reflexivity|]. split; reflexivity. Qed.

(** ** Staged printf *)

Lemma string_app_nil_r (s : string) : (s +:+ EmptyString)%string = s.
Proof.
  induction s as [|a s IH]; [reflexivity|].
  change (String a (s +:+ EmptyString) = String a s). rewrite IH. reflexivity.
Qed.

Lemma string_app_assoc (s t u : string) :
  ((s +:+ t) +:+ u)%string = (s +:+ (t +:+ u))%string.
Proof.
  induction s as [|a s IH]; [reflexivity|].
  change (String a ((s +:+ t) +:+ u) = String a (s +:+ (t +:+ u))).
  rewrite IH. reflexivity.
Qed.

Lemma ctz_from_spec fuel i v :
  (i <= ctz_from fuel i v <= i + fuel)%nat /\
  (forall j, (i <= j < ctz_from fuel i v)%nat -> Z.testbit v (Z.of_nat j) = false) /\
  ((ctz_from fuel i v < i + fuel)%nat ->
   Z.testbit v (Z.of_nat (ctz_from fuel i v)) = true).
Proof.
  revert i. induction fuel as [|fuel IH]; intros i; simpl.
  - split; [lia|]. split; [intros j Hj; lia | intros Hlt; lia].
  - destruct (Z.testbit v (Z.of_nat i)) eqn:Hb.
    + split; [lia|]. split; [intros j Hj; lia | intros _; exact Hb].
    + destruct (IH (S i)) as (Hrange & Hlow & Hset).
      split; [lia|]. split.
      * intros j Hj. destruct (Nat.eq_dec j i) as [->|Hne]; [exact Hb|].
        apply Hlow. lia.
      * intros Hlt. apply Hset. lia.
Qed.

Lemma filter_none {A} (P : A -> Prop) `{forall x, Decision (P x)} (l : list A) :
  Forall (fun x => ~ P x) l -> filter P l = [].
Proof.
  induction 1 as [|x l Hx _ IH]; [reflexivity|].
  rewrite filter_cons_False by exact Hx. exact IH.
Qed.

Lemma filter_agree {A} (P Q : A -> Prop) `{forall x, Decision (P x)}
  `{forall x, Decision (Q x)} (l : list A) :
  Forall (fun x => P x <-> Q x) l -> filter P l = filter Q l.
Proof.
  induction 1 as [|x l Hx _ IH]; [reflexivity|].
  destruct (decide (P x)) as [Hp|Hnp].
  - rewrite !filter_cons_True by tauto. rewrite IH. reflexivity.
  - rewrite !filter_cons_False by tauto. exact IH.
Qed.

Lemma lxor_bit valid k j :
  Z.testbit (Z.lxor valid (Z.shiftl 1 (Z.of_nat k))) (Z.of_nat j) =
    xorb (Z.testbit valid (Z.of_nat j)) (k =? j)%nat.
Proof.
  rewrite Z.lxor_spec, Z.shiftl_1_l, Z.pow2_bits_eqb by lia.
  f_equal. destruct (Nat.eqb_spec k j) as [->|Hne].
  - apply Z.eqb_refl.
  - apply Z.eqb_neq. lia.
Qed.

Lemma low_bits_above valid :
  0 <= valid < 2 ^ 31 ->
  forall j, (31 <= j)%nat -> Z.testbit valid (Z.of_nat j) = false.
Proof.
  intros [Hnn Hlt] j Hj. destruct (Z.eq_dec valid 0) as [->|Hnz].
  - apply Z.bits_0.
  - apply Z.bits_above_log2; [exact Hnn|].
    assert (Z.log2 valid < 31) by (apply Z.log2_lt_pow2; lia). lia.
Qed.

Lemma nonzero_has_bit valid :
  0 <= valid -> valid <> 0 ->
  exists j : nat, Z.testbit valid (Z.of_nat j) = true.
Proof.
  intros Hnn Hnz. exists (Z.to_nat (Z.log2 valid)).
  rewrite Z2Nat.id by apply Z.log2_nonneg. apply Z.bit_log2. lia.
Qed.

Section Dump.
Context (tgt : target_t) (buf : qemu_log_printf_buf_t).

Lemma rendered_cons ndx fmt rest :
  pb_fmts buf !! ndx = Some fmt ->
  rendered tgt buf (ndx :: rest) =
    (render_union_args tgt fmt
       (drop (ndx * QEMU_LOG_PRINTF_ARG_MAX)%nat (pb_args buf))
     +:+ rendered tgt buf rest)%string.
Proof. intros Hf. simpl. rewrite Hf. reflexivity. Qed.

Lemma printf_dump_loop_low fuel :
  forall lo valid txt,
    (lo <= 64)%nat -> (64 - lo <= fuel)%nat ->
    0 <= valid ->
    (forall j, (j < lo)%nat -> Z.testbit valid (Z.of_nat j) = false) ->
    (forall j, (31 <= j)%nat -> Z.testbit valid (Z.of_nat j) = false) ->
    (forall j, Z.testbit valid (Z.of_nat j) = true -> is_Some (pb_fmts buf !! j)) ->
    printf_dump_loop tgt fuel buf valid txt =
      Ok (txt +:+ rendered tgt buf
            (filter (fun i => Z.testbit valid (Z.of_nat i) = true)
               (seq lo (64 - lo))))%string.
Proof.
  induction fuel as [|fuel IH]; intros lo valid txt Hlo Hfuel Hnn Hlow Hhigh Hfmts.
  - assert (lo = 64)%nat as -> by lia. simpl.
    destruct (Z.eqb_spec valid 0) as [_|Hnz];
      [rewrite string_app_nil_r; reflexivity|].
    exfalso. destruct (nonzero_has_bit valid Hnn Hnz) as [j Hj].
    destruct (Nat.lt_ge_cases j 64) as [Hlt|Hge].
    + rewrite Hlow in Hj by exact Hlt. discriminate.
    + rewrite Hhigh in Hj by lia. discriminate.
  - cbn [printf_dump_loop]. destruct (Z.eqb_spec valid 0) as [->|Hnz].
    { rewrite filter_none, string_app_nil_r; [reflexivity|].
      apply Forall_forall. intros i _ Hb. rewrite Z.bits_0 in Hb. discriminate. }
    destruct (nonzero_has_bit valid Hnn Hnz) as [j Hj].
    assert (Hj31 : (j < 31)%nat).
    { destruct (Nat.lt_ge_cases j 31) as [Hlt|Hge]; [exact Hlt|].
      rewrite Hhigh in Hj by exact Hge. discriminate. }
    destruct (ctz_from_spec 64 0 valid) as (Hrange & Hbelow & Hset).
    fold (ctz64 valid) in Hrange, Hbelow, Hset.
    set (k := ctz64 valid) in *.
    assert (Hkj : (k <= j)%nat).
    { destruct (Nat.le_gt_cases k j) as [Hle|Hgt]; [exact Hle|].
      rewrite Hbelow in Hj by lia. discriminate. }
    assert (Hk : Z.testbit valid (Z.of_nat k) = true) by (apply Hset; lia).
    assert (Hklo : (lo <= k)%nat).
    { destruct (Nat.le_gt_cases lo k) as [Hle|Hgt]; [exact Hle|].
      rewrite Hlow in Hk by exact Hgt. discriminate. }
    unfold shl_int_1. destruct (Nat.ltb_spec k 31) as [_|Hge]; [|lia].
    destruct (Hfmts k Hk) as [fmt Hfmt]. rewrite Hfmt.
    rewrite (IH (S k)).
    + unfold g_string_append_printf_union_args. rewrite string_app_assoc.
      f_equal. f_equal. symmetry.
      replace (64 - lo)%nat with ((k - lo) + (1 + (64 - S k)))%nat by lia.
      rewrite seq_app, filter_app.
      rewrite filter_none.
      2:{ apply Forall_forall. intros i Hi Hb. apply elem_of_seq in Hi.
          rewrite Hbelow in Hb by lia. discriminate. }
      replace (lo + (k - lo))%nat with k by lia.
      change (seq k (1 + (64 - S k))) with (k :: seq (S k) (64 - S k)).
      rewrite app_nil_l, filter_cons_True by exact Hk.
      rewrite (rendered_cons _ _ _ Hfmt). f_equal. f_equal.
      apply filter_agree. apply Forall_forall. intros i Hi.
      apply elem_of_seq in Hi. cbn beta. rewrite lxor_bit.
      destruct (Nat.eqb_spec k i) as [->|_]; [lia|].
      rewrite xorb_false_r. reflexivity.
    + lia.
    + lia.
    + apply Z.lxor_nonneg. split; intros _; [|exact Hnn].
      rewrite Z.shiftl_1_l. apply Z.pow_nonneg. lia.
    + intros i Hi. rewrite lxor_bit. destruct (Nat.eqb_spec k i) as [->|Hne].
      * rewrite Hk. reflexivity.
      * rewrite xorb_false_r. apply Hbelow. lia.
    + intros i Hi. rewrite lxor_bit. destruct (Nat.eqb_spec k i) as [->|Hne].
      * rewrite Hk. reflexivity.
      * rewrite xorb_false_r. apply Hhigh. exact Hi.
    + intros i Hi. rewrite lxor_bit in Hi.
      destruct (Nat.eqb_spec k i) as [->|Hne].
      * rewrite Hk in Hi. discriminate.
      * rewrite xorb_false_r in Hi. apply Hfmts. exact Hi.
Qed.
End Dump.

(** Whatever the bitmap held, an [Ok] run leaves [valid_entries] at 0. *)
Lemma printf_dump_clears_valid tgt m m' :
  helper_qemu_log_printf_dump tgt m = Ok m' ->
  valid_entries (qemu_log_printf_buf (cpulog m')) = 0.
Proof.
  unfold helper_qemu_log_printf_dump.
  destruct (negb _); [intros [= <-]; reflexivity|].
  destruct (get_cpu_log_entry _) as [e|]; [|discriminate].
  destruct (printf_dump_loop _ _ _ _ _); try discriminate.
  intros [= <-]. reflexivity.
Qed.

(** With logging disabled the helper only clears the bitmap. *)
Lemma printf_dump_disabled tgt m :
  qemu_log_instr_check_enabled m = false ->
  helper_qemu_log_printf_dump tgt m =
    Ok (upd_cpulog
          (set_printf_buf
             (mk_printf_buf (pb_args (qemu_log_printf_buf (cpulog m)))
                (pb_fmts (qemu_log_printf_buf (cpulog m))) 0)) m).
Proof.
  intros Hdis. unfold helper_qemu_log_printf_dump.
  change (qemu_log_instr_check_enabled (upd_cpulog _ m))
    with (qemu_log_instr_check_enabled m).
  rewrite Hdis. reflexivity.
Qed.

(** While only the slots 0..30 are staged, the helper renders every
    staged format, least significant bit first, onto the text buffer of
    the current entry. *)
Lemma printf_dump_low_slots tgt m entry :
  0 <= valid_entries (qemu_log_printf_buf (cpulog m)) < 2 ^ 31 ->
  (forall j, Z.testbit (valid_entries (qemu_log_printf_buf (cpulog m))) (Z.of_nat j) = true ->
     is_Some (pb_fmts (qemu_log_printf_buf (cpulog m)) !! j)) ->
  qemu_log_instr_check_enabled m = true ->
  get_cpu_log_entry m = Some entry ->
  exists m',
    helper_qemu_log_printf_dump tgt m = Ok m' /\
    valid_entries (qemu_log_printf_buf (cpulog m')) = 0 /\
    get_cpu_log_entry m' =
      Some (set_e_txt_buffer
              (e_txt_buffer entry +:+
               rendered tgt (qemu_log_printf_buf (cpulog m))
                 (set_bits (valid_entries (qemu_log_printf_buf (cpulog m)))))%string
              entry).
Proof.
  intros Hrange Hfmts Hen Hentry. unfold helper_qemu_log_printf_dump.
  change (qemu_log_instr_check_enabled (upd_cpulog _ m))
    with (qemu_log_instr_check_enabled m).
  change (get_cpu_log_entry (upd_cpulog _ m)) with (get_cpu_log_entry m).
  rewrite Hen, Hentry. simpl negb. cbv iota.
  rewrite (printf_dump_loop_low tgt _ 64 0%nat).
  - eexists. split; [reflexivity|]. split; [reflexivity|].
    unfold get_cpu_log_entry. simpl.
    rewrite list_lookup_insert_eq; [reflexivity|].
    eapply lookup_lt_Some. exact Hentry.
  - lia.
  - lia.
  - apply Hrange.
  - intros j Hj. lia.
  - apply low_bits_above. exact Hrange.
  - exact Hfmts.
Qed.

(** C8 (the code at the failing input).  Only slot 31 is staged: the
    bitmap the generated code leaves is [1ULL << 31].  The helper finds
    [ndx = 31] and computes the mask as [1 << 31] in [int], which
    overflows: the run is undefined, whatever the fuel, instead of
    rendering slot 31 and stopping. *)
Theorem printf_dump_slot31_undefined :
  valid_entries
    (stage_slot 31 "x=%d" (qemu_log_printf_buf (cpulog (sample_machine 0 []))))
    = 2 ^ 31 /\
  qemu_log_instr_check_enabled (sample_machine 0 []) = true /\
  (forall tgt fuel buf txt,
     printf_dump_loop tgt (S fuel) buf (2 ^ 31) txt = Undefined) /\
  helper_qemu_log_printf_dump sample_target
    (upd_cpulog
       (fun c => set_printf_buf (stage_slot 31 "x=%d" (qemu_log_printf_buf c)) c)
       (sample_machine 0 []))
    = Undefined.
Proof.
  split; [reflexivity|]. split; [reflexivity|]. split.
  - intros tgt fuel buf txt. reflexivity.
  - vm_compute. reflexivity.
Qed.

(** The commit theorem on the sample machine in streaming mode: the
    entry is emitted and slot 0 is empty afterwards. *)
Lemma commit_resets_current_entry_witness :
  ring_wf (cpulog (sample_machine 0 [])) /\
  exists m' e',
    qemu_log_instr_commit sample_target (sample_machine 0 []) = Some m' /\
    get_cpu_log_entry m' = Some e' /\
    length (e_events e') = 0%nat /\ e_flags e' = 0.
Proof.
  assert (Hwf : ring_wf (cpulog (sample_machine 0 []))).
  { split; simpl; lia. }
  split; [exact Hwf|].
  destruct (commit_resets_current_entry sample_target (sample_machine 0 []) Hwf)
    as (m1 & m' & _ & Hq & (e' & He' & _ & _ & Hev & _ & Hfl) & _).
  exists m', e'. split; [exact Hq|]. split; [exact He'|].
  split; [exact Hev | exact Hfl].
Defined.

(** The start-event theorem on the sample entry: HAS_INSTR_DATA is
    cleared, a MODE_SWITCH bit would be kept. *)
Lemma emit_start_event_frame_witness :
  Z.land LI_FLAG_MODE_SWITCH LI_FLAG_HAS_INSTR_DATA = 0 /\
  Z.land (e_flags (emit_start_event sample_target sample_entry 4096))
    LI_FLAG_MODE_SWITCH
  = Z.land (e_flags sample_entry) LI_FLAG_MODE_SWITCH.
Proof.
  split; [reflexivity|].
  destruct (emit_start_event_frame sample_target sample_entry 4096) as (_ & H & _).
  apply H. reflexivity.
Defined.

(** ** Scenarios *)

(** A start that is stopped before any commit leaves no trace in the
    backend: nothing is emitted, [trace_start] is 1 and [trace_stop] 0. *)
Example degenerate_slice :
  exists m',
    run_ops
      [(sample_target,
        OpGlobalLoglevelSwitch (mk_next_level_arg QEMU_LOG_INSTR_LOGLEVEL_ALL None true));
       (sample_target,
        OpGlobalLoglevelSwitch (mk_next_level_arg QEMU_LOG_INSTR_LOGLEVEL_NONE None true))]
      idle_machine = Some m' /\
    trace m' = [] /\
    trace_start (stats (cpulog m')) = 1 /\ trace_stop (stats (cpulog m')) = 0 /\
    heap m' = ∅.
Proof.
  eexists. split; [vm_compute; reflexivity|]. repeat split.
Qed.

(** Streaming mode: two instructions committed after a start, then a
    stop.  Three entries reach the backend; the first carries the START
    event and the register dump, the last the STOP event. *)
Example start_emit_stop :
  exists m',
    run_ops
      [(sample_target,
        OpGlobalLoglevelSwitch (mk_next_level_arg QEMU_LOG_INSTR_LOGLEVEL_ALL None true));
       (sample_target, OpInstr 4096 [144]);
       (sample_target, OpReg "rax" 66);
       (sample_target, OpCommit);
       (sample_target, OpInstr 4097 [144]);
       (sample_target, OpCommit);
       (sample_target,
        OpGlobalLoglevelSwitch (mk_next_level_arg QEMU_LOG_INSTR_LOGLEVEL_NONE None true))]
      idle_machine = Some m' /\
    map e_events (emit_calls (trace m')) =
      [[LOG_EVENT_STATE LOG_EVENT_STATE_START 4096; LOG_EVENT_REGDUMP 0];
       [];
       [LOG_EVENT_STATE LOG_EVENT_STATE_STOP 4096]] /\
    entries_emitted (stats (cpulog m')) = 3 /\
    trace_start (stats (cpulog m')) = 1 /\ trace_stop (stats (cpulog m')) = 1.
Proof.
  eexists. split; [vm_compute; reflexivity|]. repeat split.
Qed.

(** * Further properties *)

(** ** Collector calls *)

Lemma put_entry_put_entry i e1 e2 m :
  put_entry i e2 (put_entry i e1 m) = put_entry i e2 m.
Proof.
  unfold put_entry, upd_cpulog, set_instr_info. simpl.
  rewrite list_insert_insert_eq. reflexivity.
Qed.

(** One call that fits: its records go to the end of the sequences and
    the instruction array keeps its size. *)
Lemma collect_fits tgt call entry :
  call_fits (length (e_insn_bytes entry)) call ->
  exists e1,
    collect tgt call entry = Some e1 /\
    length (e_insn_bytes e1) = length (e_insn_bytes entry) /\
    e_regs e1 = e_regs entry ++ call_regs call /\
    e_mem e1 = e_mem entry ++ call_mem tgt call /\
    e_events e1 = e_events entry ++ call_events call.
Proof.
  intros Hfit.
  destruct call; simpl in *;
    try (eexists; split; [reflexivity|]; simpl; rewrite ?app_nil_r;
         repeat split; reflexivity).
  destruct (Nat.ltb_spec (length (e_insn_bytes entry)) (length insn)) as [?|_];
    [lia|].
  eexists. split; [reflexivity|]. simpl. rewrite !app_nil_r.
  split; [|repeat split].
  rewrite length_app, length_drop. lia.
Qed.

(** X1.  A run of collector calls on a CPU with a current entry, none
    of which records more instruction bytes than [insn_bytes] holds,
    succeeds and touches nothing but that entry: the register, memory
    and event records the calls carry are appended to the entry's
    sequences in call order and the instruction array keeps its size;
    the ring indices, the other slots, the counters, the heap and the
    backend trace stay as they were.  Recording an instruction longer
    than [insn_bytes] is a write past the array: it has no defined
    result. *)
Theorem collect_all_appends_in_order (tgt : target_t) (calls : list collector_call)
  (m : machine) (entry : cpu_log_entry_t)
  (Hentry : get_cpu_log_entry m = Some entry)
  (Hfit : Forall (call_fits (length (e_insn_bytes entry))) calls) :
  (exists entry',
     collect_all tgt calls m = Some (put_entry (ring_head (cpulog m)) entry' m) /\
     (calls = [] -> entry' = entry) /\
     e_regs entry' = e_regs entry ++ concat (map call_regs calls) /\
     e_mem entry' = e_mem entry ++ concat (map (call_mem tgt) calls) /\
     e_events entry' = e_events entry ++ concat (map call_events calls) /\
     length (e_insn_bytes entry') = length (e_insn_bytes entry)) /\
  (forall pc insn,
     (length (e_insn_bytes entry) < length insn)%nat ->
     qemu_log_instr_collect tgt (CallInstr pc insn) m = None /\
     qemu_log_instr tgt pc insn m = None).
Proof.
  split.
  - revert m entry Hentry Hfit.
    induction calls as [|call calls IH]; intros m entry Hentry Hfit.
    + exists entry. simpl. rewrite !app_nil_r.
      split; [|repeat split].
      f_equal. unfold put_entry, upd_cpulog, set_instr_info.
      unfold get_cpu_log_entry in Hentry. rewrite list_insert_id by exact Hentry.
      destruct m as [[] ? ? ? ?]. reflexivity.
    + apply Forall_cons in Hfit as [Hfit1 Hfit].
      destruct (collect_fits tgt call entry Hfit1)
        as (e1 & Hc & Hlen1 & Hregs1 & Hmem1 & Hev1).
      cbn [collect_all]. unfold qemu_log_instr_collect at 1.
      rewrite Hentry. cbn [mbind option_bind]. rewrite Hc. cbn [mbind option_bind].
      destruct (IH (put_entry (ring_head (cpulog m)) e1 m) e1)
        as (entry' & Hrun & _ & Hregs & Hmem & Hev & Hlen).
      { unfold get_cpu_log_entry. simpl. apply list_lookup_insert_eq.
        eapply lookup_lt_Some. exact Hentry. }
      { rewrite Hlen1. exact Hfit. }
      exists entry'. simpl in Hrun. rewrite Hrun, put_entry_put_entry.
      split; [reflexivity|]. split; [discriminate|].
      rewrite Hregs, Hmem, Hev, Hregs1, Hmem1, Hev1, Hlen, Hlen1.
      cbn [map concat]. rewrite !app_assoc. repeat split; reflexivity.
  - intros pc insn Hlong.
    unfold qemu_log_instr_collect, qemu_log_instr. rewrite Hentry. simpl.
    destruct (Nat.ltb_spec (length (e_insn_bytes entry)) (length insn)) as [_|?];
      [split; reflexivity | lia].
Qed.

(** The sample CPU (four instruction bytes per entry) records a
    one-byte instruction, two registers and a store. *)
Lemma collect_all_appends_in_order_witness :
  exists entry',
    collect_all sample_target
      [CallInstr 8192 [144]; CallReg "rax" 1; CallStInt 12288 3 1; CallReg "rbx" 2]
      (sample_machine 0 [])
    = Some (put_entry 0 entry' (sample_machine 0 [])) /\
    map ri_name (e_regs entry') = ["rax"; "rax"; "rbx"].
Proof.
  destruct (collect_all_appends_in_order sample_target
              [CallInstr 8192 [144]; CallReg "rax" 1; CallStInt 12288 3 1;
               CallReg "rbx" 2]
              (sample_machine 0 []) sample_entry)
    as ((entry' & Hrun & _ & Hregs & _) & _).
  - reflexivity.
  - repeat constructor.
  - exists entry'. split; [exact Hrun|]. rewrite Hregs. reflexivity.
Defined.

(** The entry-level calls agree with the entry points modelled one by
    one. *)
Lemma qemu_log_instr_collect_agrees tgt m :
  (forall reg_name value,
     qemu_log_instr_collect tgt (CallReg reg_name value) m
       = qemu_log_instr_reg reg_name value m) /\
  (forall evt, qemu_log_instr_collect tgt (CallEvent evt) m = qemu_log_instr_event evt m) /\
  (forall pc insn, qemu_log_instr_collect tgt (CallInstr pc insn) m = qemu_log_instr tgt pc insn m) /\
  (forall addr memop value,
     qemu_log_instr_collect tgt (CallLdInt addr memop value) m
       = qemu_log_instr_mem_int tgt addr LMI_LD memop value m).
Proof.
  repeat split; intros;
    unfold qemu_log_instr_collect, qemu_log_instr_reg, qemu_log_instr_event,
      qemu_log_instr, qemu_log_instr_mem_int;
    destruct (get_cpu_log_entry m) as [e|]; simpl; try reflexivity.
  destruct (_ <? _)%nat; reflexivity.
Qed.

(** ** More on the loglevel switch *)

Lemma loglevel_eqb_eq a b : loglevel_eqb a b = true <-> a = b.
Proof. destruct a, b; simpl; split; congruence. Qed.

Lemma set_loglevel_same m :
  upd_cpulog (set_loglevel (loglevel (cpulog m)) (loglevel_active (cpulog m))) m = m.
Proof. destruct m as [[] ? ? ? ?]. reflexivity. Qed.

(** X2.  A loglevel switch that asks for the level the CPU already has,
    with the activity it already has, changes nothing at all: no event,
    no commit, no reset, no counter. *)
Theorem loglevel_switch_noop_is_identity (tgt : target_t)
  (arg : qemu_log_next_level_arg_t) (m : machine) (entry : cpu_log_entry_t) (pc : Z)
  (Hentry : get_cpu_log_entry m = Some entry)
  (Hglobal : has_flag (qemu_loglevel m) CPU_LOG_INSTR = true)
  (Hpc : (if arg_global arg then Some (cpu_get_recent_pc tgt) else arg_pc arg)
         = Some pc)
  (Hlevel : next_level arg = loglevel (cpulog m))
  (Hactive : next_level_active_of tgt entry (next_level arg)
             = loglevel_active (cpulog m)) :
  do_cpu_loglevel_switch tgt arg m = Some m.
Proof.
  unfold do_cpu_loglevel_switch. unfold get_cpu_log_entry in Hentry.
  rewrite Hentry. simpl. rewrite Hglobal, Hpc. simpl.
  rewrite Hactive, Hlevel.
  assert (Hl : loglevel_eqb (loglevel (cpulog m)) (loglevel (cpulog m)) = true)
    by (apply loglevel_eqb_eq; reflexivity).
  rewrite Hl, eqb_reflx. simpl. rewrite set_loglevel_same. reflexivity.
Qed.

(** A second switch to ALL on the pending-start sample is such a no-op:
    the pending start stays as it is. *)
Lemma loglevel_switch_noop_is_identity_witness :
  do_cpu_loglevel_switch sample_target
    (mk_next_level_arg QEMU_LOG_INSTR_LOGLEVEL_ALL None true) pending_start_machine
  = Some pending_start_machine.
Proof.
  apply (loglevel_switch_noop_is_identity sample_target _ pending_start_machine
           (mk_entry 0 0 0 0 0 0 4096 4096 [0; 0; 0; 0] 0 EmptyString [] []
              [LOG_EVENT_STATE LOG_EVENT_STATE_START 4096; LOG_EVENT_REGDUMP 0])
           4096); reflexivity.
Defined.

(** The switch is total on well-formed states and lands on the level
    asked for. *)
Lemma loglevel_switch_total (tgt : target_t)
  (arg : qemu_log_next_level_arg_t) (m : machine) (entry : cpu_log_entry_t) (pc : Z) :
  ring_wf (cpulog m) ->
  get_cpu_log_entry m = Some entry ->
  has_flag (qemu_loglevel m) CPU_LOG_INSTR = true ->
  (if arg_global arg then Some (cpu_get_recent_pc tgt) else arg_pc arg) = Some pc ->
  exists m',
    do_cpu_loglevel_switch tgt arg m = Some m' /\
    loglevel (cpulog m') = next_level arg /\
    loglevel_active (cpulog m') = next_level_active_of tgt entry (next_level arg) /\
    qemu_loglevel m' = qemu_loglevel m /\
    length (instr_info (cpulog m')) = length (instr_info (cpulog m)).
Proof.
  intros Hwf Hentry Hglobal Hpc.
  pose proof Hentry as He. unfold get_cpu_log_entry in He.
  unfold do_cpu_loglevel_switch. rewrite He. simpl. rewrite Hglobal, Hpc. simpl.
  set (nla := next_level_active_of tgt entry (next_level arg)).
  set (m0 := upd_cpulog (set_loglevel (next_level arg) nla) m).
  assert (Hstart : forall b m1,
    ring_wf (cpulog m1) ->
    loglevel (cpulog m1) = next_level arg -> loglevel_active (cpulog m1) = nla ->
    qemu_loglevel m1 = qemu_loglevel m ->
    length (instr_info (cpulog m1)) = length (instr_info (cpulog m)) ->
    exists m', loglevel_switch_start tgt b pc m1 = Some m' /\
      loglevel (cpulog m') = next_level arg /\ loglevel_active (cpulog m') = nla /\
      qemu_loglevel m' = qemu_loglevel m /\
      length (instr_info (cpulog m')) = length (instr_info (cpulog m))).
  { intros b m1 Hwf1 Hl1 Ha1 Hq1 Hlen1. destruct b.
    - destruct (ring_wf_entry m1 Hwf1) as [e1 He1].
      destruct (loglevel_switch_start_true tgt pc m1 e1 He1)
        as (m' & e' & Hs & _ & _ & _ & _ & Hl & Ha & _).
      exists m'. split; [exact Hs|]. split; [congruence|]. split; [congruence|].
      unfold loglevel_switch_start, emit_regdump_event in Hs. simpl in Hs.
      unfold get_cpu_log_entry in He1. rewrite He1 in Hs. simpl in Hs.
      rewrite list_lookup_insert_eq in Hs by (eapply lookup_lt_Some; exact He1).
      simpl in Hs.
      destruct (cpu_log_instr_event_regdump tgt); injection Hs as <-; simpl;
        rewrite ?length_insert; split; assumption.
    - exists m1. split; [reflexivity|]. repeat split; assumption. }
  destruct (_ && _).
  { exists m0. split; [reflexivity|]. repeat split. }
  destruct (loglevel_active (cpulog m)).
  - destruct (starting (cpulog m)).
    + rewrite (reset_log_buffer_eq _ _ entry) by exact He.
      eexists. split; [reflexivity|]. simpl. rewrite length_insert. repeat split.
    + match goal with |- context [do_instr_commit tgt ?m2] =>
        destruct (do_instr_commit_defined tgt m2) as (m3 & Hc & Hinfo3 & Hwf3 & _);
        [ destruct Hwf as [Hh Ht]; split; simpl; rewrite length_insert; assumption |];
        pose proof (do_instr_commit_frame tgt m2 m3 Hc)
          as (_ & _ & _ & Hl3 & Ha3 & _ & _ & _ & Hq3)
      end.
      rewrite Hc. simpl.
      destruct (reset_log_buffer_defined (ring_head (cpulog m3)) m3) as [m4 Hr];
        [apply Hwf3|].
      rewrite Hr. simpl.
      destruct (reset_log_buffer_frame _ _ _ Hr)
        as (Hlen4 & _ & _ & Hl4 & Ha4 & _ & _ & _ & _ & Hq4).
      apply Hstart.
      * eapply reset_log_buffer_wf; eassumption.
      * rewrite Hl4, Hl3. reflexivity.
      * rewrite Ha4, Ha3. reflexivity.
      * rewrite Hq4, Hq3. reflexivity.
      * rewrite Hlen4, Hinfo3. simpl. apply length_insert.
  - apply Hstart; try reflexivity. exact Hwf.
Qed.

(** X3.  On a CPU whose ring indices name slots, with the global bit set
    and a pc to use, the switch always completes and lands on the
    requested level: [loglevel] is the level asked for and
    [loglevel_active] is what that level means for the CPU (false for
    NONE, true for ALL, the user-mode test for USER); the global flag
    word and the ring size are unchanged. *)
Theorem loglevel_switch_lands_on_level (tgt : target_t)
  (arg : qemu_log_next_level_arg_t) (m : machine) (entry : cpu_log_entry_t) (pc : Z)
  (Hwf : ring_wf (cpulog m))
  (Hentry : get_cpu_log_entry m = Some entry)
  (Hglobal : has_flag (qemu_loglevel m) CPU_LOG_INSTR = true)
  (Hpc : (if arg_global arg then Some (cpu_get_recent_pc tgt) else arg_pc arg)
         = Some pc) :
  exists m',
    do_cpu_loglevel_switch tgt arg m = Some m' /\
    loglevel (cpulog m') = next_level arg /\
    loglevel_active (cpulog m') = next_level_active_of tgt entry (next_level arg) /\
    (next_level arg = QEMU_LOG_INSTR_LOGLEVEL_NONE -> loglevel_active (cpulog m') = false) /\
    (next_level arg = QEMU_LOG_INSTR_LOGLEVEL_ALL -> loglevel_active (cpulog m') = true) /\
    qemu_loglevel m' = qemu_loglevel m /\
    length (instr_info (cpulog m')) = length (instr_info (cpulog m)).
Proof.
  destruct (loglevel_switch_total tgt arg m entry pc Hwf Hentry Hglobal Hpc)
    as (m' & Hs & Hl & Ha & Hq & Hlen).
  exists m'. split; [exact Hs|]. split; [exact Hl|]. split; [exact Ha|].
  split; [intros Hn; rewrite Ha, Hn; reflexivity|].
  split; [intros Hn; rewrite Ha, Hn; reflexivity|].
  split; assumption.
Qed.

Lemma loglevel_switch_lands_on_level_witness :
  exists m',
    do_cpu_loglevel_switch sample_target
      (cpu_loglevel_switch 8192 QEMU_LOG_INSTR_LOGLEVEL_NONE false)
      (sample_machine 0 []) = Some m' /\
    loglevel (cpulog m') = QEMU_LOG_INSTR_LOGLEVEL_NONE /\
    loglevel_active (cpulog m') = false.
Proof.
  destruct (loglevel_switch_lands_on_level sample_target
              (cpu_loglevel_switch 8192 QEMU_LOG_INSTR_LOGLEVEL_NONE false)
              (sample_machine 0 []) sample_entry 8192)
    as (m' & Hs & Hl & _ & Hnone & _).
  - split; simpl; lia.
  - reflexivity.
  - reflexivity.
  - reflexivity.
  - exists m'. split; [exact Hs|]. split; [exact Hl | apply Hnone; reflexivity].
Defined.

(** ** The buffered ring as a queue *)

Lemma ring_slice_from_same (ring : list cpu_log_entry_t) head :
  ring_slice_from ring head head = [].
Proof.
  unfold ring_slice_from. rewrite Nat.leb_refl, Nat.sub_diag. apply take_0.
Qed.

(** One step of the walk: the slot at [curr], then the walk from the
    next index. *)
Lemma ring_slice_from_step (ring : list cpu_log_entry_t) curr head e :
  (head < length ring)%nat -> curr <> head -> ring !! curr = Some e ->
  ring_slice_from ring curr head =
    e :: ring_slice_from ring ((curr + 1) mod length ring)%nat head.
Proof.
  intros Hh Hne He. pose proof (lookup_lt_Some _ _ _ He) as Hc.
  unfold ring_slice_from.
  destruct (Nat.leb_spec curr head) as [Hle|Hgt].
  - rewrite Nat.mod_small by lia.
    destruct (Nat.leb_spec (curr + 1) head) as [_|?]; [|lia].
    rewrite (drop_S _ _ _ He).
    replace (head - curr)%nat with (S (head - (curr + 1)))%nat by lia.
    replace (S curr) with (curr + 1)%nat by lia. reflexivity.
  - rewrite (drop_S _ _ _ He). simpl.
    destruct (Nat.eq_dec (curr + 1) (length ring)) as [Heq|Hneq].
    + rewrite Heq, Nat.Div0.mod_same. simpl. rewrite Nat.sub_0_r, drop_0.
      replace (S curr) with (length ring) by lia.
      rewrite drop_all. reflexivity.
    + rewrite Nat.mod_small by lia.
      destruct (Nat.leb_spec (curr + 1) head) as [?|_]; [lia|].
      replace (S curr) with (curr + 1)%nat by lia. reflexivity.
Qed.

Lemma ring_slice_from_length (ring : list cpu_log_entry_t) curr head :
  (curr < length ring)%nat -> (head < length ring)%nat ->
  (length (ring_slice_from ring curr head) < length ring)%nat.
Proof.
  intros Hc Hh. unfold ring_slice_from.
  destruct (Nat.leb_spec curr head).
  - rewrite length_take, length_drop. lia.
  - rewrite length_app, length_take, length_drop. lia.
Qed.

(** Writing the head slot does not change what is queued. *)
Lemma ring_slice_from_insert_head (ring : list cpu_log_entry_t) curr head x :
  ring_slice_from (<[head := x]> ring) curr head = ring_slice_from ring curr head.
Proof.
  unfold ring_slice_from. destruct (Nat.leb_spec curr head) as [Hle|Hgt].
  - rewrite drop_insert_ge by exact Hle. apply take_insert_ge. lia.
  - rewrite drop_insert_lt by exact Hgt. rewrite take_insert_ge by lia. reflexivity.
Qed.

Lemma wrap64_inc x n : wrap64 (inc_stat x + n) = wrap64 (x + (1 + n)).
Proof.
  unfold inc_stat, wrap64. rewrite Zplus_mod_idemp_l. f_equal. lia.
Qed.

(** The drain loop hands the slots from [curr] up to the head to the
    backend, in ring order, and counts each one. *)
Lemma flush_loop_emits fuel :
  forall curr m,
    (curr < length (instr_info (cpulog m)))%nat ->
    (ring_head (cpulog m) < length (instr_info (cpulog m)))%nat ->
    (length (ring_slice_from (instr_info (cpulog m)) curr (ring_head (cpulog m)))
       <= fuel)%nat ->
    exists m',
      flush_loop fuel curr m = Some m' /\
      trace m' =
        trace m ++ map ObsEmitInstr
                     (ring_slice_from (instr_info (cpulog m)) curr (ring_head (cpulog m))) /\
      wrap64 (entries_emitted (stats (cpulog m'))) =
        wrap64 (entries_emitted (stats (cpulog m))
                + Z.of_nat (length (ring_slice_from (instr_info (cpulog m)) curr
                                      (ring_head (cpulog m))))) /\
      trace_start (stats (cpulog m')) = trace_start (stats (cpulog m)) /\
      trace_stop (stats (cpulog m')) = trace_stop (stats (cpulog m)) /\
      heap m' = heap m.
Proof.
  induction fuel as [|fuel IH]; intros curr m Hc Hh Hlen; simpl.
  - destruct (Nat.eqb_spec curr (ring_head (cpulog m))) as [->|Hne].
    + exists m. rewrite ring_slice_from_same. simpl.
      rewrite app_nil_r, Z.add_0_r. repeat split.
    + destruct (lookup_lt_is_Some_2 _ _ Hc) as [e He].
      rewrite (ring_slice_from_step _ _ _ e Hh Hne He) in Hlen. simpl in Hlen. lia.
  - destruct (Nat.eqb_spec curr (ring_head (cpulog m))) as [->|Hne].
    + exists m. rewrite ring_slice_from_same. simpl.
      rewrite app_nil_r, Z.add_0_r. repeat split.
    + destruct (lookup_lt_is_Some_2 _ _ Hc) as [e He]. rewrite He. simpl.
      rewrite (ring_slice_from_step _ _ _ e Hh Hne He) in Hlen |- *.
      simpl in Hlen.
      match goal with |- context [flush_loop fuel ?c' ?m1] =>
        destruct (IH c' m1) as (m' & Hl & Htr & Hcount & Hts & Htp & Hheap) end.
      * simpl. apply Nat.mod_upper_bound. lia.
      * simpl. exact Hh.
      * simpl. lia.
      * exists m'. split; [exact Hl|]. simpl in Htr, Hcount, Hts, Htp, Hheap.
        split; [rewrite Htr, <- app_assoc; reflexivity|].
        split; [|repeat split; assumption].
        rewrite Hcount, wrap64_inc. f_equal. simpl length. lia.
Qed.

Lemma emit_calls_emits (es : list cpu_log_entry_t) :
  emit_calls (map ObsEmitInstr es) = es.
Proof. induction es as [|e es IH]; [reflexivity | simpl; rewrite IH; reflexivity]. Qed.

(** X4.  In buffered mode, with logging enabled, [flush] appends a FLUSH
    event (at the entry's pc) to the current entry, hands the queued
    slots to the backend oldest first, counts them in
    [entries_emitted], and empties the queue by moving the tail onto
    the head.  The current entry itself is not emitted. *)
Theorem flush_drains_queue_in_order (tgt : target_t) (m : machine)
  (entry : cpu_log_entry_t)
  (Hwf : ring_wf (cpulog m))
  (Hentry : get_cpu_log_entry m = Some entry)
  (Henabled : qemu_log_instr_check_enabled m = true)
  (Hbuf : has_flag (cl_flags (cpulog m)) QEMU_LOG_INSTR_FLAG_BUFFERED = true) :
  exists m',
    qemu_log_instr_flush tgt m = Some m' /\
    emit_calls (trace m') = emit_calls (trace m) ++ ring_slice (cpulog m) /\
    wrap64 (entries_emitted (stats (cpulog m'))) =
      wrap64 (entries_emitted (stats (cpulog m))
              + Z.of_nat (length (ring_slice (cpulog m)))) /\
    ring_head (cpulog m') = ring_head (cpulog m) /\
    ring_tail (cpulog m') = ring_head (cpulog m) /\
    ring_slice (cpulog m') = [] /\
    get_cpu_log_entry m' =
      Some (set_e_events
              (e_events entry ++ [LOG_EVENT_STATE LOG_EVENT_STATE_FLUSH (e_pc entry)])
              entry).
Proof.
  destruct Hwf as [Hh Ht]. pose proof Hentry as He. unfold get_cpu_log_entry in He.
  unfold qemu_log_instr_flush. rewrite Hentry. simpl.
  unfold qemu_log_instr_event. rewrite Hentry. simpl.
  change (qemu_log_instr_check_enabled (put_entry _ _ m))
    with (qemu_log_instr_check_enabled m).
  rewrite Henabled. simpl. rewrite Hbuf. simpl.
  match goal with |- context [flush_loop ?f ?c ?m1] =>
    destruct (flush_loop_emits f c m1)
      as (m' & Hl & Htr & Hcount & _ & _ & _);
    [ simpl; rewrite length_insert; exact Ht
    | simpl; rewrite length_insert; exact Hh
    | simpl; rewrite ring_slice_from_insert_head, length_insert;
      apply Nat.lt_le_incl, ring_slice_from_length; assumption
    | pose proof (flush_loop_frame _ _ _ _ Hl) as (Hinfo & Hhead & _) ]
  end.
  rewrite Hl. simpl in *. rewrite ring_slice_from_insert_head in Htr, Hcount.
  eexists. split; [reflexivity|]. simpl.
  rewrite Htr, emit_calls_app, emit_calls_emits.
  split; [reflexivity|]. split; [exact Hcount|].
  split; [exact Hhead|]. split; [exact Hhead|].
  split; [apply ring_slice_from_same|].
  unfold get_cpu_log_entry. simpl. rewrite Hinfo, Hhead.
  apply list_lookup_insert_eq. exact Hh.
Qed.

(** Pushing the head slot onto the queue: the walk to the advanced head
    is the old walk followed by the slot, without its oldest element
    when the tail had to give way. *)
Lemma ring_slice_from_push (ring : list cpu_log_entry_t) head tail e :
  (head < length ring)%nat -> (tail < length ring)%nat ->
  (2 <= length ring)%nat ->
  ring !! head = Some e ->
  ring_slice_from ring
    (if (tail =? (head + 1) mod length ring)%nat
     then ((tail + 1) mod length ring)%nat else tail)
    ((head + 1) mod length ring)%nat
  = (if (tail =? (head + 1) mod length ring)%nat
     then drop 1 (ring_slice_from ring tail head)
     else ring_slice_from ring tail head) ++ [e].
Proof.
  intros Hh Ht Hlen He.
  assert (Hsplit : take (S head) ring = take head ring ++ [e])
    by (apply take_S_r; exact He).
  destruct (Nat.eq_dec (head + 1) (length ring)) as [Heq|Hneq].
  - rewrite Heq, Nat.Div0.mod_same.
    assert (Hring : ring = take head ring ++ [e]).
    { rewrite <- Hsplit. symmetry. apply take_ge. lia. }
    destruct (Nat.eqb_spec tail 0) as [->|Hne].
    + rewrite Nat.mod_small by lia. unfold ring_slice_from. simpl.
      rewrite Nat.sub_0_r, drop_0, take_0, app_nil_r.
      rewrite Hring at 1. apply drop_app_le. rewrite length_take. lia.
    + unfold ring_slice_from.
      destruct (Nat.leb_spec tail 0) as [?|_]; [lia|].
      destruct (Nat.leb_spec tail head) as [_|?]; [|lia].
      rewrite take_0, app_nil_r.
      rewrite <- (take_S_r _ _ e).
      * symmetry. apply take_ge. rewrite length_drop. lia.
      * rewrite lookup_drop. replace (tail + (head - tail))%nat with head by lia.
        exact He.
  - rewrite (Nat.mod_small (head + 1)) by lia.
    replace (head + 1)%nat with (S head) by lia.
    destruct (Nat.eqb_spec tail (S head)) as [->|Hne].
    + destruct (lookup_lt_is_Some_2 ring (S head)) as [x Hx]; [lia|].
      assert (Hold : drop 1 (ring_slice_from ring (S head) head)
                     = drop (S (S head)) ring ++ take head ring).
      { unfold ring_slice_from.
        destruct (Nat.leb_spec (S head) head) as [?|_]; [lia|].
        rewrite (drop_S _ _ _ Hx). reflexivity. }
      rewrite Hold.
      destruct (Nat.eq_dec (S head + 1) (length ring)) as [Heq2|Hneq2].
      * rewrite Heq2, Nat.Div0.mod_same.
        rewrite (drop_ge ring (S (S head))) by lia.
        unfold ring_slice_from. simpl. rewrite drop_0. exact Hsplit.
      * rewrite Nat.mod_small by lia. unfold ring_slice_from.
        destruct (Nat.leb_spec (S head + 1) (S head)) as [?|_]; [lia|].
        replace (S head + 1)%nat with (S (S head)) by lia.
        rewrite Hsplit, app_assoc. reflexivity.
    + unfold ring_slice_from.
      destruct (Nat.leb_spec tail head) as [Hle|Hgt].
      * destruct (Nat.leb_spec tail (S head)) as [_|?]; [|lia].
        replace (S head - tail)%nat with (S (head - tail)) by lia.
        apply take_S_r. rewrite lookup_drop.
        replace (tail + (head - tail))%nat with head by lia. exact He.
      * destruct (Nat.leb_spec tail (S head)) as [?|_]; [lia|].
        rewrite Hsplit, app_assoc. reflexivity.
Qed.

(** X5.  In buffered mode a commit of an entry that is not dropped and
    passes the filters puts that entry at the young end of the queue a
    flush will drain, and emits nothing.  When the ring is full (the
    advanced head reaches the tail) the oldest queued entry is dropped
    to make room; no other queued entry is lost or reordered. *)
Theorem buffered_commit_enqueues (tgt : target_t) (m : machine)
  (entry : cpu_log_entry_t)
  (Hwf : ring_wf (cpulog m))
  (Hlen : (2 <= length (instr_info (cpulog m)))%nat)
  (Hbuf : has_flag (cl_flags (cpulog m)) QEMU_LOG_INSTR_FLAG_BUFFERED = true)
  (Hfd : force_drop (cpulog m) = false)
  (Hentry : get_cpu_log_entry m = Some entry)
  (Hpass : Forall (fun g => call_filter tgt g entry = true) (filters (cpulog m))) :
  exists m',
    qemu_log_instr_commit tgt m = Some m' /\
    emit_calls (trace m') = emit_calls (trace m) /\
    ring_slice (cpulog m') =
      (if (ring_tail (cpulog m)
           =? (ring_head (cpulog m) + 1) mod length (instr_info (cpulog m)))%nat
       then drop 1 (ring_slice (cpulog m))
       else ring_slice (cpulog m)) ++ [entry].
Proof.
  destruct Hwf as [Hh Ht]. pose proof Hentry as He. unfold get_cpu_log_entry in He.
  unfold qemu_log_instr_commit, do_instr_commit. rewrite Hfd, Hentry. simpl.
  rewrite (run_filters_pass tgt _ _ Hpass). simpl. rewrite Hbuf.
  destruct (Nat.eqb_spec (length (instr_info (cpulog m))) 0) as [H0|_]; [lia|].
  simpl.
  set (len := length (instr_info (cpulog m))) in *.
  set (head' := ((ring_head (cpulog m) + 1) mod len)%nat).
  assert (Hh' : (head' < len)%nat) by (apply Nat.mod_upper_bound; lia).
  destruct (lookup_lt_is_Some_2 (instr_info (cpulog m)) head' Hh') as [e' He'].
  unfold reset_log_buffer. simpl. rewrite He'. simpl.
  eexists. split; [reflexivity|]. simpl.
  rewrite emit_calls_app, emit_calls_filters_only, app_nil_r.
  split; [reflexivity|].
  unfold ring_slice. simpl. rewrite ring_slice_from_insert_head.
  apply ring_slice_from_push; assumption.
Qed.

(** The theorem on a full four-slot ring: head in slot 3, tail in slot
    0.  The queue held slots 0, 1, 2; after the commit it holds slots 1,
    2, 3. *)
Lemma buffered_commit_enqueues_witness :
  exists m',
    qemu_log_instr_commit sample_target
      (upd_cpulog (set_ring 3 0) (sample_machine QEMU_LOG_INSTR_FLAG_BUFFERED []))
      = Some m' /\
    ring_slice (cpulog m') =
      [zero_entry sample_target; zero_entry sample_target; zero_entry sample_target].
Proof.
  destruct (buffered_commit_enqueues sample_target
              (upd_cpulog (set_ring 3 0) (sample_machine QEMU_LOG_INSTR_FLAG_BUFFERED []))
              (zero_entry sample_target))
    as (m' & Hc & _ & Hslice).
  - split; simpl; lia.
  - simpl. lia.
  - reflexivity.
  - reflexivity.
  - reflexivity.
  - constructor.
  - exists m'. split; [exact Hc|]. rewrite Hslice. reflexivity.
Defined.

Lemma flush_drains_queue_in_order_witness :
  exists m',
    qemu_log_instr_flush sample_target
      (upd_cpulog (set_ring 2 0) (sample_machine QEMU_LOG_INSTR_FLAG_BUFFERED []))
      = Some m' /\
    emit_calls (trace m') = [sample_entry; zero_entry sample_target] /\
    ring_tail (cpulog m') = 2%nat.
Proof.
  destruct (flush_drains_queue_in_order sample_target
              (upd_cpulog (set_ring 2 0) (sample_machine QEMU_LOG_INSTR_FLAG_BUFFERED []))
              (zero_entry sample_target))
    as (m' & Hf & Hemit & _ & _ & Ht & _).
  - split; simpl; lia.
  - reflexivity.
  - reflexivity.
  - reflexivity.
  - exists m'. split; [exact Hf|]. split; [exact Hemit | exact Ht].
Defined.

(** X6.  [flush] while logging is disabled, on a ring of at least two
    slots, with no drop pending and every installed filter accepting
    the entry once it carries the FLUSH event: the flush force-commits
    that entry.  In streaming mode the backend receives it.  In
    buffered mode the backend receives the queue and then that entry,
    unless the ring was full: the forced commit then moves the tail
    past the index the drain starts from, the drain finds nothing to
    do, and the whole queue is discarded unseen. *)
Theorem flush_while_disabled (tgt : target_t) (m : machine)
  (entry : cpu_log_entry_t)
  (Hwf : ring_wf (cpulog m))
  (Hlen : (2 <= length (instr_info (cpulog m)))%nat)
  (Hentry : get_cpu_log_entry m = Some entry)
  (Hdisabled : qemu_log_instr_check_enabled m = false)
  (Hfd : force_drop (cpulog m) = false)
  (Hpass : Forall
             (fun g =>
                call_filter tgt g
                  (set_e_events
                     (e_events entry
                      ++ [LOG_EVENT_STATE LOG_EVENT_STATE_FLUSH (e_pc entry)])
                     entry) = true)
             (filters (cpulog m))) :
  exists m' e',
    qemu_log_instr_flush tgt m = Some m' /\
    get_cpu_log_entry m' = Some e' /\ canonically_empty e' /\
    emit_calls (trace m') =
      emit_calls (trace m) ++
      (if has_flag (cl_flags (cpulog m)) QEMU_LOG_INSTR_FLAG_BUFFERED then
         if (ring_tail (cpulog m)
             =? (ring_head (cpulog m) + 1) mod length (instr_info (cpulog m)))%nat
         then []
         else ring_slice (cpulog m)
              ++ [set_e_events
                    (e_events entry
                     ++ [LOG_EVENT_STATE LOG_EVENT_STATE_FLUSH (e_pc entry)])
                    entry]
       else [set_e_events
               (e_events entry
                ++ [LOG_EVENT_STATE LOG_EVENT_STATE_FLUSH (e_pc entry)])
               entry]).
Proof.
  destruct Hwf as [Hh Ht]. pose proof Hentry as He. unfold get_cpu_log_entry in He.
  set (ef := set_e_events
               (e_events entry ++ [LOG_EVENT_STATE LOG_EVENT_STATE_FLUSH (e_pc entry)])
               entry) in *.
  unfold qemu_log_instr_flush. rewrite Hentry. simpl.
  unfold qemu_log_instr_event. rewrite Hentry. simpl. fold ef.
  change (qemu_log_instr_check_enabled (put_entry _ _ m))
    with (qemu_log_instr_check_enabled m).
  rewrite Hdisabled.
  unfold qemu_log_instr_commit, do_instr_commit. simpl. rewrite Hfd.
  unfold get_cpu_log_entry. simpl.
  rewrite list_lookup_insert_eq by exact Hh. simpl.
  rewrite (run_filters_pass tgt _ _ Hpass). simpl.
  set (len := length (instr_info (cpulog m))) in *.
  destruct (has_flag (cl_flags (cpulog m)) QEMU_LOG_INSTR_FLAG_BUFFERED) eqn:Hbuf.
  - rewrite length_insert. fold len.
    destruct (Nat.eqb_spec len 0) as [H0|_]; [lia|]. simpl.
    set (head' := ((ring_head (cpulog m) + 1) mod len)%nat).
    assert (Hh' : (head' < len)%nat) by (apply Nat.mod_upper_bound; lia).
    assert (Hne : head' <> ring_head (cpulog m)).
    { unfold head'. destruct (Nat.eq_dec (ring_head (cpulog m) + 1) len) as [Heq|Hneq].
      - rewrite Heq, Nat.Div0.mod_same. lia.
      - rewrite Nat.mod_small by lia. lia. }
    unfold reset_log_buffer. simpl.
    destruct (lookup_lt_is_Some_2 (<[ring_head (cpulog m):=ef]> (instr_info (cpulog m)))
                head') as [e1 He1]; [rewrite length_insert; exact Hh'|].
    rewrite He1. simpl. rewrite Hbuf. simpl. rewrite !length_insert. fold len.
    match goal with |- context [flush_loop len ?c ?m1] =>
      destruct (flush_loop_emits len c m1)
        as (m' & Hl & Htr & _);
      [ simpl; rewrite !length_insert; exact Ht
      | simpl; rewrite !length_insert; exact Hh'
      | simpl; rewrite ?length_insert; fold len;
        apply Nat.lt_le_incl;
        match goal with |- (length (ring_slice_from ?r _ _) < _)%nat =>
          replace len with (length r) by (rewrite !length_insert; reflexivity)
        end;
        apply ring_slice_from_length; rewrite !length_insert; assumption
      | pose proof (flush_loop_frame _ _ _ _ Hl) as (Hinfo & Hhead & _) ]
    end.
    rewrite Hl. simpl in *.
    eexists. exists (reset_entry e1). split; [reflexivity|].
    unfold get_cpu_log_entry. simpl. rewrite Hinfo, Hhead.
    split; [apply list_lookup_insert_eq; rewrite length_insert; exact Hh'|].
    split; [apply reset_entry_canonical|].
    rewrite Htr, !emit_calls_app, emit_calls_filters_only, emit_calls_emits, app_nil_r.
    f_equal. rewrite ring_slice_from_insert_head.
    destruct (Nat.eqb_spec (ring_tail (cpulog m)) head') as [Heq|Hneq].
    + rewrite Heq. apply ring_slice_from_same.
    + pose proof (ring_slice_from_push
                    (<[ring_head (cpulog m):=ef]> (instr_info (cpulog m)))
                    (ring_head (cpulog m)) (ring_tail (cpulog m)) ef) as Hpush.
      rewrite length_insert in Hpush. fold len head' in Hpush.
      destruct (Nat.eqb_spec (ring_tail (cpulog m)) head') as [?|_]; [contradiction|].
      rewrite Hpush; try assumption.
      * rewrite ring_slice_from_insert_head. reflexivity.
      * apply list_lookup_insert_eq. exact Hh.
  - unfold reset_log_buffer. simpl.
    rewrite list_lookup_insert_eq by exact Hh. simpl. rewrite Hbuf. simpl.
    eexists. exists (reset_entry ef). split; [reflexivity|].
    unfold get_cpu_log_entry. simpl.
    split; [apply list_lookup_insert_eq; rewrite length_insert; exact Hh|].
    split; [apply reset_entry_canonical|].
    rewrite !emit_calls_app, emit_calls_filters_only, app_nil_r. reflexivity.
Qed.

(** The theorem on a full buffered ring of a CPU that is not tracing:
    three entries are queued, the flush hands none of them to the
    backend. *)
Lemma flush_while_disabled_witness :
  length (ring_slice
            (cpulog (upd_cpulog (fun c => set_cl_flags QEMU_LOG_INSTR_FLAG_BUFFERED
                                            (set_ring 3 0 c)) idle_machine)))
    = 3%nat /\
  exists m',
    qemu_log_instr_flush sample_target
      (upd_cpulog (fun c => set_cl_flags QEMU_LOG_INSTR_FLAG_BUFFERED (set_ring 3 0 c))
         idle_machine) = Some m' /\
    emit_calls (trace m') = [].
Proof.
  split; [reflexivity|].
  destruct (flush_while_disabled sample_target
              (upd_cpulog (fun c => set_cl_flags QEMU_LOG_INSTR_FLAG_BUFFERED
                                      (set_ring 3 0 c)) idle_machine)
              (zero_entry sample_target))
    as (m' & e' & Hf & _ & _ & Hemit).
  - split; simpl; lia.
  - simpl. lia.
  - reflexivity.
  - reflexivity.
  - reflexivity.
  - constructor.
  - exists m'. split; [exact Hf | exact Hemit].
Defined.

(** ** Filter arrays in general *)

Lemma filter_index_None fn fs : filter_index fn fs = None <-> fn ∉ fs.
Proof.
  induction fs as [|g fs IH]; simpl.
  - split; [intros _ Hin; inversion Hin | reflexivity].
  - destruct (decide (g = fn)) as [->|Hne].
    + split; [discriminate|]. intros Hnin. exfalso. apply Hnin. left.
    + destruct (filter_index fn fs) as [i|]; simpl.
      * split; [discriminate|]. intros Hnin. exfalso.
        apply not_elem_of_cons in Hnin as [_ Hnin]. apply IH in Hnin. discriminate.
      * split; [|reflexivity]. intros _. apply not_elem_of_cons.
        split; [congruence | apply IH; reflexivity].
Qed.

Lemma filter_index_Some fn fs i :
  filter_index fn fs = Some i ->
  fs !! i = Some fn /\ fn ∉ take i fs.
Proof.
  revert i. induction fs as [|g fs IH]; intros i; simpl; [discriminate|].
  destruct (decide (g = fn)) as [->|Hne].
  - intros [= <-]. split; [reflexivity|]. simpl. intros Hin. inversion Hin.
  - destruct (filter_index fn fs) as [j|]; simpl; [|discriminate].
    intros [= <-]. destruct (IH j eq_refl) as [Hj Hnin].
    split; [exact Hj|]. simpl. apply not_elem_of_cons. split; [congruence | exact Hnin].
Qed.

Lemma insert_snoc_Permutation {A} (T : list A) i x y :
  T !! i = Some x -> T ++ [y] ≡ₚ x :: <[i := y]> T.
Proof.
  revert i. induction T as [|a T IH]; intros i Hi; [discriminate|].
  destruct i as [|i]; simpl in *.
  - injection Hi as ->. constructor. symmetry. apply Permutation_cons_append.
  - rewrite (IH i Hi). apply perm_swap.
Qed.

(** What [g_array_remove_index_fast] returns, by position of the hole. *)
Lemma g_array_remove_index_fast_eq {A} (T : list A) y i :
  (i <= length T)%nat ->
  g_array_remove_index_fast (T ++ [y]) i =
    if decide (i = length T) then T else <[i := y]> T.
Proof.
  intros Hi. unfold g_array_remove_index_fast. rewrite last_snoc.
  rewrite length_app. simpl. replace (length T + 1 - 1)%nat with (length T) by lia.
  case_decide as Heq.
  - subst i. rewrite list_insert_id.
    + apply take_app_length.
    + rewrite lookup_app_r by lia. rewrite Nat.sub_diag. reflexivity.
  - rewrite insert_app_l by lia. apply take_app_length'. rewrite length_insert.
    reflexivity.
Qed.

Lemma g_array_remove_index_fast_Permutation {A} (l : list A) i x :
  l !! i = Some x -> l ≡ₚ x :: g_array_remove_index_fast l i.
Proof.
  intros Hi. pose proof (lookup_lt_Some _ _ _ Hi) as Hlt.
  destruct (last l) as [y|] eqn:Hlast.
  2:{ apply last_None in Hlast. subst l. discriminate. }
  apply last_Some in Hlast as [T ->]. rewrite length_app in Hlt. simpl in Hlt.
  rewrite g_array_remove_index_fast_eq by lia. case_decide as Heq.
  - subst i. rewrite lookup_app_r, Nat.sub_diag in Hi by lia.
    injection Hi as ->. symmetry. apply Permutation_cons_append.
  - rewrite lookup_app_l in Hi by lia. apply insert_snoc_Permutation. exact Hi.
Qed.

Lemma set_filters_same c : set_filters (filters c) c = c.
Proof. destruct c. reflexivity. Qed.

(** X7.  [qemu_log_instr_add_filter] on any filter array: an index outside
    the registry changes nothing; a valid index leaves the filter in the
    array, appends it at the end only when it was absent, never creates
    a duplicate, and adding it a second time changes nothing. *)
Theorem add_filter_appends_once (c : cpu_log_instr_state_t) (filter : nat) :
  ((LOG_INSTR_FILTER_MAX <= filter)%nat -> qemu_log_instr_add_filter filter c = c) /\
  (forall fn, trace_filters !! filter = Some fn ->
     fn ∈ filters (qemu_log_instr_add_filter filter c) /\
     (fn ∈ filters c -> qemu_log_instr_add_filter filter c = c) /\
     (fn ∉ filters c ->
        qemu_log_instr_add_filter filter c = set_filters (filters c ++ [fn]) c) /\
     (NoDup (filters c) -> NoDup (filters (qemu_log_instr_add_filter filter c))) /\
     qemu_log_instr_add_filter filter (qemu_log_instr_add_filter filter c)
       = qemu_log_instr_add_filter filter c).
Proof.
  split.
  - intros Hge. unfold qemu_log_instr_add_filter.
    destruct (Nat.leb_spec LOG_INSTR_FILTER_MAX filter); [reflexivity | lia].
  - intros fn Hvalid.
    assert (Hlt : (filter < LOG_INSTR_FILTER_MAX)%nat)
      by (eapply lookup_lt_Some; exact Hvalid).
    assert (Hadd : forall c',
      qemu_log_instr_add_filter filter c' =
        match filter_index fn (filters c') with
        | Some _ => c'
        | None => set_filters (filters c' ++ [fn]) c'
        end).
    { intros c'. unfold qemu_log_instr_add_filter.
      destruct (Nat.leb_spec LOG_INSTR_FILTER_MAX filter); [lia|].
      rewrite Hvalid. reflexivity. }
    assert (Hin : fn ∈ filters (qemu_log_instr_add_filter filter c)).
    { rewrite Hadd. destruct (filter_index fn (filters c)) as [i|] eqn:Hidx.
      - apply filter_index_Some in Hidx as [Hi _].
        eapply list_elem_of_lookup_2. exact Hi.
      - simpl. apply elem_of_app. right. left. }
    split; [exact Hin|]. split; [|split; [|split]].
    + intros Hpresent. rewrite Hadd.
      destruct (filter_index fn (filters c)) eqn:Hidx; [reflexivity|].
      apply filter_index_None in Hidx. contradiction.
    + intros Habsent. rewrite Hadd. apply filter_index_None in Habsent.
      rewrite Habsent. reflexivity.
    + intros Hnd. rewrite Hadd.
      destruct (filter_index fn (filters c)) eqn:Hidx; [exact Hnd|].
      apply filter_index_None in Hidx. simpl.
      apply NoDup_app. split; [exact Hnd|]. split.
      * intros x Hx Hx'. apply list_elem_of_singleton in Hx'. subst x. contradiction.
      * apply NoDup_singleton.
    + rewrite (Hadd (qemu_log_instr_add_filter filter c)).
      destruct (filter_index fn (filters (qemu_log_instr_add_filter filter c)))
        eqn:Hidx; [reflexivity|].
      apply filter_index_None in Hidx. contradiction.
Qed.

Lemma add_filter_appends_once_witness :
  filters (qemu_log_instr_add_filter 1 (sample_cpulog 0 [entry_mem_regions_filter_fn]))
    = [entry_mem_regions_filter_fn; entry_event_filter_fn] /\
  qemu_log_instr_add_filter 0 (sample_cpulog 0 [entry_mem_regions_filter_fn])
    = sample_cpulog 0 [entry_mem_regions_filter_fn] /\
  qemu_log_instr_add_filter 2 (sample_cpulog 0 []) = sample_cpulog 0 [].
Proof.
  split; [|split].
  - destruct (add_filter_appends_once (sample_cpulog 0 [entry_mem_regions_filter_fn]) 1)
      as [_ H].
    destruct (H entry_event_filter_fn eq_refl) as (_ & _ & Habsent & _).
    rewrite Habsent; [reflexivity|]. compute_done.
  - destruct (add_filter_appends_once (sample_cpulog 0 [entry_mem_regions_filter_fn]) 0)
      as [_ H].
    destruct (H entry_mem_regions_filter_fn eq_refl) as (_ & Hpresent & _).
    apply Hpresent. compute_done.
  - apply (add_filter_appends_once (sample_cpulog 0 []) 2). compute_done.
Defined.

(** Adding an absent filter puts it in the last position, where the
    search of a later removal finds it. *)
Lemma add_filter_eq_snoc c filter fn :
  trace_filters !! filter = Some fn -> fn ∉ filters c ->
  qemu_log_instr_add_filter filter c = set_filters (filters c ++ [fn]) c /\
  filter_index fn (filters c ++ [fn]) = Some (length (filters c)).
Proof.
  intros Hvalid Habsent. split.
  - unfold qemu_log_instr_add_filter.
    assert (Hlt : (filter < LOG_INSTR_FILTER_MAX)%nat)
      by (eapply lookup_lt_Some; exact Hvalid).
    destruct (Nat.leb_spec LOG_INSTR_FILTER_MAX filter); [lia|].
    rewrite Hvalid. apply filter_index_None in Habsent. rewrite Habsent. reflexivity.
  - induction (filters c) as [|g fs IH]; simpl.
    + rewrite decide_True by reflexivity. reflexivity.
    + apply not_elem_of_cons in Habsent as [Hne Habsent].
      rewrite decide_False by congruence. rewrite (IH Habsent). reflexivity.
Qed.

(** X8.  [qemu_log_instr_remove_filter] on any filter array: an index
    outside the registry, or a filter that is not installed, changes
    nothing; otherwise the array loses exactly one occurrence of the
    filter (the first one) and keeps every other element, as a
    multiset.  Removing a filter right after adding it to an array that
    did not hold it restores the array. *)
Theorem remove_filter_takes_one_out (c : cpu_log_instr_state_t) (filter : nat) :
  ((LOG_INSTR_FILTER_MAX <= filter)%nat -> qemu_log_instr_remove_filter filter c = c) /\
  (forall fn, trace_filters !! filter = Some fn ->
     (fn ∉ filters c -> qemu_log_instr_remove_filter filter c = c) /\
     (fn ∈ filters c ->
        filters c ≡ₚ fn :: filters (qemu_log_instr_remove_filter filter c) /\
        S (length (filters (qemu_log_instr_remove_filter filter c)))
          = length (filters c)) /\
     (fn ∈ filters c -> NoDup (filters c) ->
        (fn ∉ filters (qemu_log_instr_remove_filter filter c)) /\
        NoDup (filters (qemu_log_instr_remove_filter filter c))) /\
     (fn ∉ filters c ->
        qemu_log_instr_remove_filter filter (qemu_log_instr_add_filter filter c) = c)).
Proof.
  split.
  - intros Hge. unfold qemu_log_instr_remove_filter.
    destruct (Nat.leb_spec LOG_INSTR_FILTER_MAX filter); [reflexivity | lia].
  - intros fn Hvalid.
    assert (Hlt : (filter < LOG_INSTR_FILTER_MAX)%nat)
      by (eapply lookup_lt_Some; exact Hvalid).
    assert (Hrem : forall c',
      qemu_log_instr_remove_filter filter c' =
        match filter_index fn (filters c') with
        | Some i => set_filters (g_array_remove_index_fast (filters c') i) c'
        | None => c'
        end).
    { intros c'. unfold qemu_log_instr_remove_filter.
      destruct (Nat.leb_spec LOG_INSTR_FILTER_MAX filter); [lia|].
      rewrite Hvalid. reflexivity. }
    assert (Hperm : fn ∈ filters c ->
      filters c ≡ₚ fn :: filters (qemu_log_instr_remove_filter filter c)).
    { intros Hin. rewrite Hrem.
      destruct (filter_index fn (filters c)) as [i|] eqn:Hidx.
      - apply filter_index_Some in Hidx as [Hi _]. simpl.
        apply g_array_remove_index_fast_Permutation. exact Hi.
      - apply filter_index_None in Hidx. contradiction. }
    split; [|split; [|split]].
    + intros Habsent. rewrite Hrem. apply filter_index_None in Habsent.
      rewrite Habsent. reflexivity.
    + intros Hin. split; [exact (Hperm Hin)|].
      rewrite (Permutation_length (Hperm Hin)). reflexivity.
    + intros Hin Hnd. pose proof (Hperm Hin) as Hp. rewrite Hp in Hnd.
      apply NoDup_cons in Hnd. exact Hnd.
    + intros Habsent.
      destruct (add_filter_eq_snoc c filter fn Hvalid Habsent) as [Hadd Hidx].
      rewrite Hrem, Hadd. simpl. rewrite Hidx.
      rewrite g_array_remove_index_fast_eq by lia.
      rewrite decide_True by reflexivity. simpl.
      destruct c. reflexivity.
Qed.

Lemma remove_filter_takes_one_out_witness :
  qemu_log_instr_remove_filter 1
    (qemu_log_instr_add_filter 1 (sample_cpulog 0 [entry_mem_regions_filter_fn]))
    = sample_cpulog 0 [entry_mem_regions_filter_fn] /\
  qemu_log_instr_remove_filter 1 (sample_cpulog 0 [entry_mem_regions_filter_fn])
    = sample_cpulog 0 [entry_mem_regions_filter_fn].
Proof.
  destruct (remove_filter_takes_one_out
              (sample_cpulog 0 [entry_mem_regions_filter_fn]) 1) as [_ H].
  destruct (H entry_event_filter_fn eq_refl) as (Habsent & _ & _ & Hround).
  split; [apply Hround | apply Habsent]; compute_done.
Defined.

(** ** The region filter with ranges *)

Lemma wrap64_uint64 v : is_uint64 v -> wrap64 v = v.
Proof. intros Hv. apply Z.mod_small. exact Hv. Qed.

Lemma range_contains_spec r v :
  is_uint64 (lob r) -> is_uint64 (upb r) -> is_uint64 v ->
  range_contains r v = true <-> lob r <= v <= upb r.
Proof.
  intros Hl Hu Hv. unfold range_contains. cbv zeta.
  rewrite !wrap64_uint64 by assumption.
  rewrite andb_true_iff, !Z.leb_le. reflexivity.
Qed.

(** X9.  When [-dfilter] ranges are set, for bounds, pc and addresses
    that are 64-bit unsigned values (as the C types hold them), the
    MEM_REGIONS filter accepts an entry exactly when its pc, or the
    address of one of its memory records, lies in one of the ranges
    (bounds included).  In particular an entry without memory records
    is judged by its pc alone. *)
Theorem mem_regions_filter_matches (tgt : target_t) (entry : cpu_log_entry_t)
  (ranges : list Range)
  (Hranges : debug_regions tgt = Some ranges)
  (Hbounds : Forall (fun r => is_uint64 (lob r) /\ is_uint64 (upb r)) ranges)
  (Hpc : is_uint64 (e_pc entry))
  (Hmem : Forall (fun minfo => is_uint64 (mi_addr minfo)) (e_mem entry)) :
  (entry_mem_regions_filter tgt entry = true <->
   exists r, r ∈ ranges /\
     (lob r <= e_pc entry <= upb r \/
      exists minfo, minfo ∈ e_mem entry /\ lob r <= mi_addr minfo <= upb r)) /\
  (e_mem entry = [] ->
   (entry_mem_regions_filter tgt entry = true <->
    exists r, r ∈ ranges /\ lob r <= e_pc entry <= upb r)).
Proof.
  unfold entry_mem_regions_filter. rewrite Hranges.
  rewrite Forall_forall in Hbounds. rewrite Forall_forall in Hmem.
  assert (Hiff : mem_regions_outer ranges entry = true <->
    exists r, r ∈ ranges /\
      (lob r <= e_pc entry <= upb r \/
       exists minfo, minfo ∈ e_mem entry /\ lob r <= mi_addr minfo <= upb r)).
  { rewrite mem_regions_outer_spec. split.
    - intros (r & Hr & [Hc|Hin]); exists r; (split; [exact Hr|]);
        destruct (Hbounds r Hr) as [Hl Hu].
      + left. apply range_contains_spec; assumption.
      + right. apply mem_regions_inner_spec in Hin as (mi & Hmi & Hc).
        exists mi. split; [exact Hmi|].
        apply range_contains_spec; try assumption. apply Hmem, Hmi.
    - intros (r & Hr & [Hc|(mi & Hmi & Hc)]); exists r; (split; [exact Hr|]);
        destruct (Hbounds r Hr) as [Hl Hu].
      + left. apply range_contains_spec; assumption.
      + right. apply mem_regions_inner_spec. exists mi.
        split; [exact Hmi|].
        apply range_contains_spec; try assumption. apply Hmem, Hmi. }
  split; [exact Hiff|].
  intros Hnomem. rewrite Hiff, Hnomem. split.
  - intros (r & Hr & [Hc|(mi & Hmi & _)]); [|inversion Hmi].
    exists r. split; assumption.
  - intros (r & Hr & Hc). exists r. split; [exact Hr | left; exact Hc].
Qed.

(** The sample entry (pc 8192, one store to 12288) against the range
    12288..12288: accepted through its store. *)
Lemma mem_regions_filter_matches_witness :
  entry_mem_regions_filter
    (mk_target 12 4 (fun page => page) false 4096 None
       (Some [mk_range 12288 12288]) (fun fmt _ => fmt))
    sample_entry = true.
Proof.
  destruct (mem_regions_filter_matches
              (mk_target 12 4 (fun page => page) false 4096 None
                 (Some [mk_range 12288 12288]) (fun fmt _ => fmt))
              sample_entry [mk_range 12288 12288] eq_refl) as [Hiff _].
  - repeat constructor; simpl; unfold is_uint64; lia.
  - unfold is_uint64. simpl. lia.
  - repeat constructor. unfold is_uint64. simpl. lia.
  - apply Hiff.
    exists (mk_range 12288 12288). split; [left|].
    right. exists (mk_meminfo LMI_ST 0 12288 12288 (REG_GPR 1)).
    split; [left | simpl; lia].
Defined.

(** ** The global switch, end to end *)

Lemma global_loglevel_enable_sets m :
  has_flag (qemu_loglevel (global_loglevel_enable m)) CPU_LOG_INSTR = true /\
  cpulog (global_loglevel_enable m) = cpulog m /\
  heap (global_loglevel_enable m) = heap m /\
  trace (global_loglevel_enable m) = trace m /\
  (has_flag (qemu_loglevel m) CPU_LOG_INSTR = true -> global_loglevel_enable m = m) /\
  (forall mask, has_flag (qemu_loglevel m) mask = true ->
     has_flag (qemu_loglevel (global_loglevel_enable m)) mask = true).
Proof.
  unfold global_loglevel_enable.
  destruct (has_flag (qemu_loglevel m) CPU_LOG_INSTR) eqn:Hset.
  - repeat split; auto.
  - simpl. split; [|repeat split; try discriminate].
    + unfold has_flag. rewrite negb_true_iff, Z.eqb_neq.
      rewrite Z.land_lor_distr_l, Z.land_diag. intros Hz.
      apply Z.lor_eq_0_iff in Hz. destruct Hz as [_ Hz]. discriminate Hz.
    + intros mask Hm. apply has_flag_lor_keeps. exact Hm.
Qed.

(** X10.  With at least one CPU, [qemu_log_instr_global_switch] returns
    the flag word with INSTR implied by INSTR_U and queues exactly one
    work item per CPU, in CPU order, all with the same level (USER if
    INSTR_U is set, else ALL if INSTR is set, else NONE) and marked
    global.  Running such an item for a level other than NONE on a CPU
    whose ring indices name slots always completes, whatever the global
    flag word was: the global INSTR bit is set first, and the CPU ends
    on the queued level. *)
Theorem global_switch_queues_one_item_per_cpu (tgt : target_t) (log_flags : Z)
  (cpus : list nat) (m : machine)
  (Hcpus : cpus <> [])
  (Hwf : ring_wf (cpulog m)) :
  (qemu_log_instr_global_switch log_flags cpus).1 = global_switch_flags log_flags /\
  (has_flag log_flags CPU_LOG_INSTR_U = true ->
   has_flag (qemu_log_instr_global_switch log_flags cpus).1 CPU_LOG_INSTR = true) /\
  (qemu_log_instr_global_switch log_flags cpus).2.*1 = cpus /\
  Forall (fun item => item.2 = mk_next_level_arg (global_switch_level log_flags) None true)
    (qemu_log_instr_global_switch log_flags cpus).2 /\
  (global_switch_level log_flags <> QEMU_LOG_INSTR_LOGLEVEL_NONE ->
   exists m',
     do_global_loglevel_switch tgt
       (mk_next_level_arg (global_switch_level log_flags) None true) m = Some m' /\
     has_flag (qemu_loglevel m') CPU_LOG_INSTR = true /\
     loglevel (cpulog m') = global_switch_level log_flags).
Proof.
  unfold qemu_log_instr_global_switch. rewrite global_switch_fold by exact Hcpus.
  simpl. split; [reflexivity|]. split; [|split; [|split]].
  - intros Hu. unfold global_switch_flags. rewrite Hu.
    unfold has_flag. rewrite negb_true_iff, Z.eqb_neq.
    rewrite Z.land_lor_distr_l, Z.land_diag. intros Hz.
    apply Z.lor_eq_0_iff in Hz. destruct Hz as [_ Hz]. discriminate Hz.
  - clear. induction cpus as [|cpu cpus IH]; [reflexivity|].
    simpl. f_equal. exact IH.
  - apply Forall_forall. intros item Hin. apply list_elem_of_fmap in Hin.
    destruct Hin as (cpu & -> & _). reflexivity.
  - intros Hlevel.
    destruct (global_loglevel_enable_sets m) as (Hset & Hcl & _).
    destruct (ring_wf_entry (global_loglevel_enable m)) as [entry Hentry];
      [rewrite Hcl; exact Hwf|].
    destruct (loglevel_switch_total tgt
                (mk_next_level_arg (global_switch_level log_flags) None true)
                (global_loglevel_enable m) entry (cpu_get_recent_pc tgt))
      as (m' & Hs & Hl & _ & Hq & _).
    + rewrite Hcl. exact Hwf.
    + exact Hentry.
    + exact Hset.
    + reflexivity.
    + exists m'. unfold do_global_loglevel_switch. simpl.
      destruct (global_switch_level log_flags) eqn:Hlv; [contradiction| |];
        (split; [exact Hs|]); (split; [rewrite Hq; exact Hset | exact Hl]).
Qed.

Lemma global_switch_queues_one_item_per_cpu_witness :
  qemu_log_instr_global_switch CPU_LOG_INSTR_U [0; 1]%nat =
    (Z.lor CPU_LOG_INSTR_U CPU_LOG_INSTR,
     [(0%nat, mk_next_level_arg QEMU_LOG_INSTR_LOGLEVEL_USER None true);
      (1%nat, mk_next_level_arg QEMU_LOG_INSTR_LOGLEVEL_USER None true)]) /\
  (qemu_log_instr_global_switch CPU_LOG_INSTR_U [0; 1]%nat).2.*1 = [0; 1]%nat.
Proof.
  split; [reflexivity|].
  apply (global_switch_queues_one_item_per_cpu sample_target CPU_LOG_INSTR_U
           [0; 1]%nat idle_machine).
  - discriminate.
  - split; simpl; lia.
Defined.

(** ** Start and stop helpers *)

(** X11.  [do_qemu_log_instr_start] followed by the switch it queues
    always completes on a CPU whose ring indices name slots, whatever
    the global flag word was: the global INSTR bit ends set and the CPU
    ends on the requested level.  When the CPU already runs at that
    level nothing is queued; in particular a start to ALL that is
    repeated after it took effect queues nothing and changes nothing. *)
Theorem start_then_switch_reaches_level (tgt : target_t) (pc : Z)
  (level : qemu_log_instr_loglevel_t) (global : bool) (m : machine)
  (Hwf : ring_wf (cpulog m)) :
  (loglevel (cpulog m) = level -> loglevel_active (cpulog m) = true ->
   do_qemu_log_instr_start pc level global m = (global_loglevel_enable m, None)) /\
  exists m',
    run_queued tgt (do_qemu_log_instr_start pc level global m) = Some m' /\
    has_flag (qemu_loglevel m') CPU_LOG_INSTR = true /\
    loglevel (cpulog m') = level /\
    (level = QEMU_LOG_INSTR_LOGLEVEL_ALL ->
     loglevel_active (cpulog m') = true /\
     forall pc', do_qemu_log_instr_start pc' level global m' = (m', None)).
Proof.
  destruct (global_loglevel_enable_sets m) as (Hset & Hcl & _ & _ & Hid & _).
  split.
  - intros Hl Ha. unfold do_qemu_log_instr_start. rewrite Hcl, Hl, Ha.
    assert (Hrefl : loglevel_eqb level level = true) by (apply loglevel_eqb_eq; reflexivity).
    rewrite Hrefl. reflexivity.
  - unfold do_qemu_log_instr_start. rewrite Hcl.
    assert (Hagain : forall m1,
      has_flag (qemu_loglevel m1) CPU_LOG_INSTR = true ->
      loglevel (cpulog m1) = level -> loglevel_active (cpulog m1) = true ->
      forall pc', do_qemu_log_instr_start pc' level global m1 = (m1, None)).
    { intros m1 Hg Hl Ha pc'. unfold do_qemu_log_instr_start.
      destruct (global_loglevel_enable_sets m1) as (_ & _ & _ & _ & Hid1 & _).
      rewrite (Hid1 Hg), Hl, Ha.
      assert (Hrefl : loglevel_eqb level level = true)
        by (apply loglevel_eqb_eq; reflexivity).
      rewrite Hrefl. reflexivity. }
    destruct (loglevel_eqb (loglevel (cpulog m)) level && loglevel_active (cpulog m))
      eqn:Hbail.
    + apply andb_true_iff in Hbail as [Hl Ha]. apply loglevel_eqb_eq in Hl.
      exists (global_loglevel_enable m). unfold run_queued. simpl.
      split; [reflexivity|]. split; [exact Hset|]. rewrite Hcl.
      split; [exact Hl|]. intros _. split; [exact Ha|].
      apply Hagain; [exact Hset | rewrite Hcl; exact Hl | rewrite Hcl; exact Ha].
    + destruct (ring_wf_entry (global_loglevel_enable m)) as [entry Hentry];
        [rewrite Hcl; exact Hwf|].
      destruct (loglevel_switch_total tgt (cpu_loglevel_switch pc level global)
                  (global_loglevel_enable m) entry
                  (if global then cpu_get_recent_pc tgt else pc))
        as (m' & Hs & Hl & Ha & Hq & _).
      * rewrite Hcl. exact Hwf.
      * exact Hentry.
      * exact Hset.
      * simpl. destruct global; reflexivity.
      * exists m'. unfold run_queued. simpl. split; [exact Hs|].
        split; [rewrite Hq; exact Hset|]. split; [exact Hl|].
        intros ->. simpl in Ha. split; [exact Ha|].
        apply Hagain; [rewrite Hq; exact Hset | exact Hl | exact Ha].
Qed.

(** The start helper on the idle sample CPU: the queued switch leaves
    the start pending at the helper's pc. *)
Lemma start_then_switch_reaches_level_witness :
  exists m',
    run_queued sample_target (helper_qemu_log_instr_start 8192 idle_machine) = Some m' /\
    loglevel (cpulog m') = QEMU_LOG_INSTR_LOGLEVEL_ALL /\
    loglevel_active (cpulog m') = true /\
    helper_qemu_log_instr_start 12288 m' = (m', None).
Proof.
  destruct (start_then_switch_reaches_level sample_target 8192
              QEMU_LOG_INSTR_LOGLEVEL_ALL false idle_machine)
    as (_ & m' & Hrun & _ & Hl & Hall).
  - split; simpl; lia.
  - destruct (Hall eq_refl) as [Ha Hagain].
    exists m'. split; [exact Hrun|]. split; [exact Hl|]. split; [exact Ha|].
    apply Hagain.
Defined.

(** ** Mode switches and user-only tracing *)

Lemma has_flag_lor_self f mask : mask <> 0 -> has_flag (Z.lor f mask) mask = true.
Proof.
  intros Hm. unfold has_flag. rewrite negb_true_iff, Z.eqb_neq.
  rewrite Z.land_lor_distr_l, Z.land_diag. intros Hz.
  apply Z.lor_eq_0_iff in Hz. destruct Hz as [_ Hz]. contradiction.
Qed.

(** X12.  [qemu_log_instr_mode_switch] marks the current entry with
    MODE_SWITCH and the new mode.  It queues a loglevel switch only when
    the global bit is set, the CPU's level is USER and entering or
    leaving user mode changes whether the CPU should trace.  Once the
    queued switch has run, a CPU at level USER traces exactly when the
    new mode is the user mode. *)
Theorem mode_switch_tracks_user_mode (tgt : target_t) (mode pc : Z) (m : machine)
  (entry : cpu_log_entry_t)
  (Hwf : ring_wf (cpulog m))
  (Hentry : get_cpu_log_entry m = Some entry) :
  exists m1 queued,
    qemu_log_instr_mode_switch mode pc m = Some (m1, queued) /\
    get_cpu_log_entry m1 =
      Some (set_e_next_cpu_mode mode
              (set_e_flags (Z.lor (e_flags entry) LI_FLAG_MODE_SWITCH) entry)) /\
    (queued <> None <->
     has_flag (qemu_loglevel m) CPU_LOG_INSTR = true /\
     loglevel (cpulog m) = QEMU_LOG_INSTR_LOGLEVEL_USER /\
     (mode =? QEMU_LOG_INSTR_CPU_USER) <> loglevel_active (cpulog m)) /\
    (has_flag (qemu_loglevel m) CPU_LOG_INSTR = true ->
     loglevel (cpulog m) = QEMU_LOG_INSTR_LOGLEVEL_USER ->
     exists m2,
       run_queued tgt (m1, queued) = Some m2 /\
       loglevel (cpulog m2) = QEMU_LOG_INSTR_LOGLEVEL_USER /\
       loglevel_active (cpulog m2) = (mode =? QEMU_LOG_INSTR_CPU_USER)).
Proof.
  pose proof Hentry as He. unfold get_cpu_log_entry in He.
  pose proof (lookup_lt_Some _ _ _ He) as Hlt.
  set (e1 := set_e_next_cpu_mode mode
               (set_e_flags (Z.lor (e_flags entry) LI_FLAG_MODE_SWITCH) entry)).
  set (m1 := put_entry (ring_head (cpulog m)) e1 m).
  assert (He1 : get_cpu_log_entry m1 = Some e1).
  { unfold get_cpu_log_entry, m1. simpl. apply list_lookup_insert_eq. exact Hlt. }
  assert (Hwf1 : ring_wf (cpulog m1)) by (apply put_entry_wf; exact Hwf).
  unfold qemu_log_instr_mode_switch. rewrite Hentry. simpl. fold e1 m1.
  change (qemu_loglevel m1) with (qemu_loglevel m).
  destruct (has_flag (qemu_loglevel m) CPU_LOG_INSTR) eqn:Hg; simpl.
  2:{ exists m1, None. split; [reflexivity|]. split; [exact He1|]. split.
      - split; [congruence|]. intros (Hcontra & _). discriminate.
      - discriminate. }
  destruct (loglevel (cpulog m)) eqn:Hl; simpl.
  1,3: exists m1, None; (split; [reflexivity|]); (split; [exact He1|]);
       (split; [split; [congruence | intros (_ & Hcontra & _); discriminate]
               | discriminate]).
  destruct (eqb (mode =? QEMU_LOG_INSTR_CPU_USER) (loglevel_active (cpulog m)))
    eqn:Hsame; simpl.
  - apply eqb_prop in Hsame.
    exists m1, None. split; [reflexivity|]. split; [exact He1|]. split.
    + split; [congruence|]. intros (_ & _ & Hcontra). contradiction.
    + intros _ _. exists m1. unfold run_queued. simpl.
      split; [reflexivity|]. split; [exact Hl | symmetry; exact Hsame].
  - apply eqb_false_iff in Hsame.
    eexists m1, (Some _). split; [reflexivity|]. split; [exact He1|]. split.
    + split; [intros _; repeat split; assumption | discriminate].
    + intros _ _. unfold run_queued. simpl.
      destruct (loglevel_switch_total tgt
                  (cpu_loglevel_switch pc QEMU_LOG_INSTR_LOGLEVEL_USER false)
                  m1 e1 pc Hwf1 He1 Hg eq_refl)
        as (m2 & Hs & Hl2 & Ha2 & _).
      exists m2. split; [exact Hs|]. split; [exact Hl2|].
      rewrite Ha2. unfold next_level_active_of, e1. simpl.
      rewrite has_flag_lor_self by discriminate. reflexivity.
Qed.

(** A CPU at level USER that is not tracing enters user mode at pc
    8192: after the queued switch it traces. *)
Lemma mode_switch_tracks_user_mode_witness :
  exists m1 queued,
    qemu_log_instr_mode_switch QEMU_LOG_INSTR_CPU_USER 8192
      (upd_cpulog (set_loglevel QEMU_LOG_INSTR_LOGLEVEL_USER false) idle_machine)
      = Some (m1, queued) /\
    exists m2,
      run_queued sample_target (m1, queued) = Some m2 /\
      loglevel_active (cpulog m2) = true.
Proof.
  destruct (mode_switch_tracks_user_mode sample_target QEMU_LOG_INSTR_CPU_USER 8192
              (upd_cpulog (set_loglevel QEMU_LOG_INSTR_LOGLEVEL_USER false) idle_machine)
              (zero_entry sample_target))
    as (m1 & queued & Hms & _ & _ & Hrun).
  - split; simpl; lia.
  - reflexivity.
  - destruct (Hrun eq_refl eq_refl) as (m2 & Hr & _ & Ha).
    exists m1, queued. split; [exact Hms|].
    exists m2. split; [exact Hr | exact Ha].
Defined.

(** ** Resizing the ring *)

Lemma destroy_entries_keeps_none removed (h : gmap nat (list log_reginfo_t)) a :
  h !! a = None -> destroy_entries removed h !! a = None.
Proof.
  revert h. induction removed as [|e removed IH]; intros h Hh; [exact Hh|].
  simpl. apply IH, free_event_payloads_keeps_none, Hh.
Qed.

Lemma destroy_entries_frees removed (h : gmap nat (list log_reginfo_t)) e a :
  e ∈ removed -> LOG_EVENT_REGDUMP a ∈ e_events e ->
  destroy_entries removed h !! a = None.
Proof.
  revert h. induction removed as [|e0 removed IH]; intros h Hin Ha.
  - inversion Hin.
  - apply elem_of_cons in Hin as [->|Hin]; simpl.
    + apply destroy_entries_keeps_none, free_event_payloads_frees, Ha.
    + apply IH; assumption.
Qed.

(** What one pass of the resize loop keeps and what it leaves behind. *)
Lemma resize_loop_frame idxs m m' :
  resize_loop idxs m = Some m' ->
  loglevel (cpulog m') = loglevel (cpulog m) /\
  loglevel_active (cpulog m') = loglevel_active (cpulog m) /\
  cl_flags (cpulog m') = cl_flags (cpulog m) /\
  filters (cpulog m') = filters (cpulog m) /\
  stats (cpulog m') = stats (cpulog m) /\
  trace m' = trace m /\ qemu_loglevel m' = qemu_loglevel m /\
  (forall a, heap m !! a = None -> heap m' !! a = None) /\
  (forall i e, instr_info (cpulog m) !! i = Some e -> canonically_empty e ->
     exists e', instr_info (cpulog m') !! i = Some e' /\ canonically_empty e').
Proof.
  revert m. induction idxs as [|i idxs IH]; intros m Hl; simpl in Hl.
  - injection Hl as <-. repeat split; try reflexivity; eauto.
  - destruct (reset_log_buffer i m) as [m1|] eqn:Hr; simpl in Hl; [|discriminate].
    destruct (IH m1 Hl) as (Hl1 & Ha1 & Hf1 & Hfs1 & Hs1 & Ht1 & Hq1 & Hh1 & Hc1).
    destruct (reset_log_buffer_frame _ _ _ Hr)
      as (_ & _ & _ & Hl0 & Ha0 & Hf0 & Hfs0 & Hs0 & Ht0 & Hq0).
    destruct (reset_log_buffer_slot _ _ _ Hr) as (e0 & e0' & He0 & He0' & Hcan0 & Hheap).
    split; [congruence|]. split; [congruence|]. split; [congruence|].
    split; [congruence|]. split; [congruence|]. split; [congruence|].
    split; [congruence|]. split.
    + intros a Ha. apply Hh1. rewrite Hheap.
      apply free_event_payloads_keeps_none, Ha.
    + intros j e Hj Hcan. destruct (decide (j = i)) as [->|Hne].
      * apply (Hc1 i e0'); assumption.
      * apply (Hc1 j e); [|exact Hcan].
        rewrite (reset_log_buffer_eq _ _ _ He0) in Hr. injection Hr as <-. simpl.
        rewrite list_lookup_insert_ne by congruence. exact Hj.
Qed.

Lemma resize_loop_resets idxs m m' i :
  resize_loop idxs m = Some m' -> i ∈ idxs ->
  (exists e', instr_info (cpulog m') !! i = Some e' /\ canonically_empty e') /\
  (forall e a, instr_info (cpulog m) !! i = Some e ->
     LOG_EVENT_REGDUMP a ∈ e_events e -> heap m' !! a = None).
Proof.
  revert m. induction idxs as [|j idxs IH]; intros m Hl Hin; [inversion Hin|].
  simpl in Hl.
  destruct (reset_log_buffer j m) as [m1|] eqn:Hr; simpl in Hl; [|discriminate].
  destruct (resize_loop_frame _ _ _ Hl) as (_ & _ & _ & _ & _ & _ & _ & Hh1 & Hc1).
  destruct (reset_log_buffer_slot _ _ _ Hr) as (e0 & e0' & He0 & He0' & Hcan0 & Hheap).
  destruct (decide (i = j)) as [->|Hne].
  - split; [apply (Hc1 j e0'); assumption|].
    intros e a He Ha. apply Hh1. rewrite Hheap.
    rewrite He in He0. injection He0 as <-.
    apply free_event_payloads_frees, Ha.
  - apply elem_of_cons in Hin as [?|Hin]; [contradiction|].
    destruct (IH m1 Hl Hin) as [Hcan Hfree]. split; [exact Hcan|].
    intros e a He Ha. apply (Hfree e a); [|exact Ha].
    rewrite (reset_log_buffer_eq _ _ _ He0) in Hr. injection Hr as <-. simpl.
    rewrite list_lookup_insert_ne by congruence. exact He.
Qed.

(** The resize on one CPU, for a length within reach of the loop
    counter. *)
Lemma do_log_buffer_resize_spec tgt new_size m :
  (guint_of new_size <= INT_MAX)%N ->
  exists m',
    do_log_buffer_resize tgt new_size m = Some m' /\
    length (instr_info (cpulog m')) = N.to_nat (guint_of new_size) /\
    Forall canonically_empty (instr_info (cpulog m')) /\
    ring_head (cpulog m') = 0%nat /\ ring_tail (cpulog m') = 0%nat /\
    trace m' = trace m /\
    stats (cpulog m') = stats (cpulog m) /\
    loglevel (cpulog m') = loglevel (cpulog m) /\
    loglevel_active (cpulog m') = loglevel_active (cpulog m) /\
    (forall e a, e ∈ instr_info (cpulog m) ->
       LOG_EVENT_REGDUMP a ∈ e_events e -> heap m' !! a = None) /\
    (guint_of new_size <> 0%N ->
       starting (cpulog m') = false /\ force_drop (cpulog m') = false) /\
    (guint_of new_size = 0%N ->
       starting (cpulog m') = starting (cpulog m) /\
       force_drop (cpulog m') = force_drop (cpulog m)).
Proof.
  intros Hint.
  destruct (do_log_buffer_resize_defined tgt new_size m Hint)
    as (m' & Hr & Hlen & Hh & Ht & Hflags).
  exists m'. split; [exact Hr|].
  unfold do_log_buffer_resize in Hr.
  destruct (N.ltb_spec INT_MAX (guint_of new_size)) as [?|_]; [lia|].
  set (len := N.to_nat (guint_of new_size)) in *.
  destruct (resize_loop_frame _ _ _ Hr)
    as (Hl & Ha & _ & _ & Hs & Htr & _ & Hnone & _).
  split; [exact Hlen|]. split.
  { apply Forall_forall. intros e He.
    apply list_elem_of_lookup in He as [i Hi].
    assert (Hi' : (i < len)%nat) by (rewrite <- Hlen; eapply lookup_lt_Some; exact Hi).
    destruct (resize_loop_resets _ _ _ i Hr) as [(e' & He' & Hcan) _].
    { apply elem_of_seq. lia. }
    rewrite Hi in He'. injection He' as <-. exact Hcan. }
  split; [exact Hh|]. split; [exact Ht|].
  split; [exact Htr|]. split; [exact Hs|]. split; [exact Hl|]. split; [exact Ha|].
  split; [|split].
  - intros e a He Hin. apply list_elem_of_lookup in He as [i Hi].
    destruct (Nat.lt_ge_cases i len) as [Hi'|Hi'].
    + destruct (resize_loop_resets _ _ _ i Hr) as [_ Hfree].
      { apply elem_of_seq. lia. }
      apply (Hfree e a); [|exact Hin]. simpl.
      rewrite lookup_app_l by (rewrite length_take; apply lookup_lt_Some in Hi; lia).
      rewrite lookup_take_lt by exact Hi'. exact Hi.
    + apply Hnone. simpl. eapply destroy_entries_frees; [|exact Hin].
      apply list_elem_of_lookup. exists (i - len)%nat.
      rewrite lookup_drop. replace (len + (i - len))%nat with i by lia.
      exact Hi.
  - intros Hnz. destruct Hflags as [Hfd Hst]; [lia|]. split; assumption.
  - intros Hz. assert (Hlen0 : len = 0%nat) by (subst len; rewrite Hz; reflexivity).
    rewrite Hlen0 in Hr. simpl in Hr. injection Hr as <-. split; reflexivity.
Qed.

(** X13.  [qemu_log_instr_set_buffer_size] on one CPU.  A size below
    the minimum changes nothing.  Otherwise the ring gets the length
    [g_array_set_size] receives, the low 32 bits of the size; a length
    above [INT_MAX] is out of reach of the [int] counter of the reset
    loop.  For the other lengths the resize completes with head and tail
    at 0 and every slot canonically empty; the entries that were
    buffered are discarded without a backend call, every register dump
    an event of the old ring pointed to is freed, and the level and its
    activity stay as they were.  When the ring has a slot, [starting]
    and [force_drop] are cleared: a pending start is forgotten.  When
    the size is a multiple of 2^32 the ring is left without a slot, the
    two flags keep their values and there is no current entry. *)
Theorem set_buffer_size_discards_ring (tgt : target_t) (new_size : N)
  (m : machine) :
  ((ulong_of new_size < N.of_nat MIN_ENTRY_BUFFER_SIZE)%N ->
   qemu_log_instr_set_buffer_size tgt new_size m = Some m) /\
  ((N.of_nat MIN_ENTRY_BUFFER_SIZE <= ulong_of new_size)%N ->
   (INT_MAX < guint_of new_size)%N ->
   qemu_log_instr_set_buffer_size tgt new_size m = None) /\
  ((N.of_nat MIN_ENTRY_BUFFER_SIZE <= ulong_of new_size)%N ->
   (guint_of new_size <= INT_MAX)%N ->
   exists m',
     qemu_log_instr_set_buffer_size tgt new_size m = Some m' /\
     length (instr_info (cpulog m')) = N.to_nat (guint_of new_size) /\
     Forall canonically_empty (instr_info (cpulog m')) /\
     ring_head (cpulog m') = 0%nat /\ ring_tail (cpulog m') = 0%nat /\
     ring_slice (cpulog m') = [] /\
     trace m' = trace m /\
     stats (cpulog m') = stats (cpulog m) /\
     loglevel (cpulog m') = loglevel (cpulog m) /\
     loglevel_active (cpulog m') = loglevel_active (cpulog m) /\
     (forall e a, e ∈ instr_info (cpulog m) ->
        LOG_EVENT_REGDUMP a ∈ e_events e -> heap m' !! a = None) /\
     (guint_of new_size <> 0%N ->
        starting (cpulog m') = false /\ force_drop (cpulog m') = false) /\
     (guint_of new_size = 0%N ->
        starting (cpulog m') = starting (cpulog m) /\
        force_drop (cpulog m') = force_drop (cpulog m) /\
        get_cpu_log_entry m' = None)).
Proof.
  unfold qemu_log_instr_set_buffer_size. cbv zeta.
  destruct (N.ltb_spec (ulong_of new_size) (N.of_nat MIN_ENTRY_BUFFER_SIZE))
    as [Hlt|Hge].
  { split; [reflexivity|]. split; intros; lia. }
  split; [intros; lia|]. split.
  - intros _ Hbig. unfold do_log_buffer_resize. rewrite guint_of_ulong_of.
    destruct (N.ltb_spec INT_MAX (guint_of new_size)) as [_|?]; [reflexivity | lia].
  - intros _ Hint.
    destruct (do_log_buffer_resize_spec tgt (ulong_of new_size) m)
      as (m' & Hr & Hlen & Hcan & Hh & Ht & Htr & Hs & Hl & Ha & Hfree & Hnz & Hz).
    { rewrite guint_of_ulong_of. exact Hint. }
    rewrite guint_of_ulong_of in Hlen, Hnz, Hz.
    exists m'. split; [exact Hr|]. split; [exact Hlen|]. split; [exact Hcan|].
    split; [exact Hh|]. split; [exact Ht|]. split.
    { unfold ring_slice. rewrite Hh, Ht. apply ring_slice_from_same. }
    split; [exact Htr|]. split; [exact Hs|]. split; [exact Hl|]. split; [exact Ha|].
    split; [exact Hfree|]. split; [exact Hnz|].
    intros H0. destruct (Hz H0) as [Hst Hfd]. split; [exact Hst|].
    split; [exact Hfd|]. unfold get_cpu_log_entry. apply lookup_ge_None_2.
    rewrite Hlen, H0. simpl. lia.
Qed.

(** The pending-start sample CPU is resized to 2^32 + 4 entries, of
    which [g_array_set_size] keeps 4: the start is forgotten.  Resized
    to 2^32 entries it is left with no slot and the start still
    pending. *)
Lemma set_buffer_size_discards_ring_witness :
  (exists m',
     qemu_log_instr_set_buffer_size sample_target (2 ^ 32 + 4) pending_start_machine
       = Some m' /\
     length (instr_info (cpulog m')) = 4%nat /\
     starting (cpulog m') = false /\ loglevel_active (cpulog m') = true) /\
  (exists m',
     qemu_log_instr_set_buffer_size sample_target (2 ^ 32) pending_start_machine
       = Some m' /\
     length (instr_info (cpulog m')) = 0%nat /\
     starting (cpulog m') = true /\ get_cpu_log_entry m' = None).
Proof.
  split.
  - destruct (set_buffer_size_discards_ring sample_target (2 ^ 32 + 4)
                pending_start_machine) as (_ & _ & H).
    destruct H as (m' & Hs & Hlen & _ & _ & _ & _ & _ & _ & _ & Ha & _ & Hnz & _).
    + vm_compute. discriminate.
    + vm_compute. discriminate.
    + exists m'. split; [exact Hs|]. split; [exact Hlen|].
      split; [apply Hnz; vm_compute; discriminate | exact Ha].
  - destruct (set_buffer_size_discards_ring sample_target (2 ^ 32)
                pending_start_machine) as (_ & _ & H).
    destruct H as (m' & Hs & Hlen & _ & _ & _ & _ & _ & _ & _ & _ & _ & _ & Hz).
    + vm_compute. discriminate.
    + vm_compute. discriminate.
    + destruct (Hz eq_refl) as (Hst & _ & He).
      exists m'. split; [exact Hs|]. split; [exact Hlen|].
      split; [exact Hst | exact He].
Defined.

(** ** CPU creation *)

Lemma has_flag_lor_mask f a b :
  has_flag f (Z.lor a b) = has_flag f a || has_flag f b.
Proof.
  unfold has_flag. rewrite Z.land_lor_distr_r.
  destruct (Z.eqb_spec (Z.land f a) 0) as [Ha|Ha];
    destruct (Z.eqb_spec (Z.land f b) 0) as [Hb|Hb]; simpl;
    destruct (Z.eqb_spec (Z.lor (Z.land f a) (Z.land f b)) 0) as [Hab|Hab];
    try reflexivity; exfalso.
  - apply Hab. rewrite Ha, Hb. reflexivity.
  - apply Z.lor_eq_0_iff in Hab. tauto.
  - apply Z.lor_eq_0_iff in Hab. tauto.
  - apply Z.lor_eq_0_iff in Hab. tauto.
Qed.

(** One [qemu_log_instr_add_filter]: nothing changes, or the function of
    a valid index that was absent is appended. *)
Lemma add_filter_cases c filter :
  (qemu_log_instr_add_filter filter c = c /\
   forall fn, trace_filters !! filter = Some fn -> fn ∈ filters c) \/
  (exists fn, trace_filters !! filter = Some fn /\ (fn ∉ filters c) /\
     qemu_log_instr_add_filter filter c = set_filters (filters c ++ [fn]) c).
Proof.
  unfold qemu_log_instr_add_filter.
  destruct (Nat.leb_spec LOG_INSTR_FILTER_MAX filter) as [Hge|Hlt].
  { left. split; [reflexivity|]. intros fn Hfn. apply lookup_lt_Some in Hfn.
    unfold LOG_INSTR_FILTER_MAX in Hge. lia. }
  destruct (trace_filters !! filter) as [fn|] eqn:Hfn.
  - destruct (filter_index fn (filters c)) as [i|] eqn:Hidx.
    + left. split; [reflexivity|]. intros fn' [= <-].
      apply filter_index_Some in Hidx as [Hi _].
      eapply list_elem_of_lookup_2. exact Hi.
    + right. exists fn. apply filter_index_None in Hidx. repeat split; assumption.
  - left. split; [reflexivity | discriminate].
Qed.

(** The loop of [qemu_log_instr_init] over the startup filters. *)
Lemma add_filters_fold fs c :
  NoDup (filters c) ->
  let c' := foldl (fun c f => qemu_log_instr_add_filter f c) c fs in
  NoDup (filters c') /\
  (forall fn, fn ∈ filters c' <->
     fn ∈ filters c \/ exists f, f ∈ fs /\ trace_filters !! f = Some fn) /\
  c' = set_filters (filters c') c.
Proof.
  revert c. induction fs as [|f fs IH]; intros c Hnd; simpl.
  - split; [exact Hnd|]. split; [|symmetry; apply set_filters_same].
    intros fn. split; [auto|]. intros [H|(f & Hf & _)]; [exact H | inversion Hf].
  - destruct (add_filter_cases c f) as [[Heq Hin]|(fn0 & Hfn0 & Habs & Heq)].
    + rewrite Heq. destruct (IH c Hnd) as (Hnd' & Hmem & Hframe).
      split; [exact Hnd'|]. split; [|exact Hframe].
      intros fn. rewrite Hmem. split.
      * intros [H|(g & Hg & Hfn)]; [left; exact H|].
        right. exists g. split; [right; exact Hg | exact Hfn].
      * intros [H|(g & Hg & Hfn)]; [left; exact H|].
        apply elem_of_cons in Hg as [->|Hg]; [left; apply Hin, Hfn|].
        right. exists g. split; assumption.
    + rewrite Heq.
      destruct (IH (set_filters (filters c ++ [fn0]) c)) as (Hnd' & Hmem & Hframe).
      { destruct c; simpl in *. apply NoDup_app. split; [exact Hnd|]. split.
        - intros x Hx Hx'. apply list_elem_of_singleton in Hx'. subst x. contradiction.
        - apply NoDup_singleton. }
      split; [exact Hnd'|]. split.
      * intros fn. rewrite Hmem.
        replace (filters (set_filters (filters c ++ [fn0]) c)) with (filters c ++ [fn0])
          by (destruct c; reflexivity).
        rewrite elem_of_app, list_elem_of_singleton. split.
        -- intros [[H| ->]|(g & Hg & Hfn)].
           ++ left. exact H.
           ++ right. exists f. split; [left | exact Hfn0].
           ++ right. exists g. split; [right; exact Hg | exact Hfn].
        -- intros [H|(g & Hg & Hfn)]; [left; left; exact H|].
           apply elem_of_cons in Hg as [->|Hg].
           ++ left. right. congruence.
           ++ right. exists g. split; assumption.
      * rewrite Hframe at 1. destruct c; reflexivity.
Qed.

Lemma add_filters_fold_machine fs m :
  foldl (fun m f => upd_cpulog (qemu_log_instr_add_filter f) m) m fs =
  upd_cpulog (fun c => foldl (fun c f => qemu_log_instr_add_filter f c) c fs) m.
Proof.
  revert m. induction fs as [|f fs IH]; intros m; simpl.
  - destruct m. reflexivity.
  - rewrite IH. reflexivity.
Qed.

Lemma reset_entry_zero_entry tgt : reset_entry (zero_entry tgt) = zero_entry tgt.
Proof. unfold reset_entry, zero_entry. simpl. rewrite length_replicate. reflexivity. Qed.

(** The tail of [qemu_log_instr_init]: the startup filters are added to
    the empty array and the counters are cleared. *)
Lemma init_finish_spec (rf : option (list nat)) (m2 : machine) :
  filters (cpulog m2) = [] ->
  let m' :=
    upd_cpulog (set_stats (mk_stats 0 0 0))
      match rf with
      | Some fs =>
          foldl (fun m f => upd_cpulog (qemu_log_instr_add_filter f) m) m2 fs
      | None => m2
      end in
  cpulog m' = set_stats (mk_stats 0 0 0) (set_filters (filters (cpulog m')) (cpulog m2)) /\
  NoDup (filters (cpulog m')) /\
  (forall fn, fn ∈ filters (cpulog m') <->
     exists fs f, rf = Some fs /\ f ∈ fs /\ trace_filters !! f = Some fn) /\
  trace m' = trace m2 /\ qemu_loglevel m' = qemu_loglevel m2 /\
  heap m' = heap m2 /\ heap_next m' = heap_next m2.
Proof.
  intros Hempty. destruct rf as [fs|]; cbv zeta.
  - rewrite add_filters_fold_machine.
    unfold upd_cpulog. cbn [cpulog trace qemu_loglevel heap heap_next].
    destruct (add_filters_fold fs (cpulog m2)) as (Hnd & Hmem & Hframe).
    { rewrite Hempty. apply NoDup_nil_2. }
    cbv zeta in Hnd, Hmem, Hframe.
    remember (foldl (fun c f => qemu_log_instr_add_filter f c) (cpulog m2) fs)
      as c' eqn:Hc'. clear Hc'.
    change (filters (set_stats (mk_stats 0 0 0) c')) with (filters c').
    split; [rewrite Hframe at 1; generalize (filters c'); intros l;
            destruct (cpulog m2); reflexivity|].
    split; [exact Hnd|]. split; [|repeat split].
    intros fn.
    rewrite Hmem, Hempty. split.
    + intros [H|(f & Hf & Hfn)]; [inversion H|]. exists fs, f. repeat split; assumption.
    + intros (fs' & f & [= <-] & Hf & Hfn). right. exists f. split; assumption.
  - unfold upd_cpulog. cbn [cpulog trace qemu_loglevel heap heap_next].
    change (filters (set_stats (mk_stats 0 0 0) (cpulog m2)))
      with (filters (cpulog m2)).
    rewrite set_filters_same. split; [reflexivity|]. rewrite Hempty.
    split; [apply NoDup_nil_2|]. split; [|repeat split].
    intros fn. split; [intros H; inversion H|]. intros (fs & f & Hd & _). discriminate.
Qed.

(** X14.  [qemu_log_instr_init].  The ring gets the length
    [g_array_set_size] receives, the low 32 bits of the configured
    size.  When that length is 0 the reset runs on an entry pointer
    that was never assigned, and a length above [INT_MAX] is out of
    reach of the [int] counter of the initialisation loop: creation has
    no defined result.  For the other lengths: when the global flag
    word has INSTR_U without INSTR the assertion fails.  Otherwise
    creation completes: the ring has that length with head and tail 0,
    the CPU is at the level the global flags name (USER for INSTR_U,
    ALL for INSTR alone, NONE for neither) with no backend call made, a
    CPU that starts active has its start pending in slot 0 (START event
    at the recent pc followed by the register dump of the target), the
    counters are all zero even then, and the filter array holds,
    without duplicates, the functions of the valid indices in the
    startup list. *)
Theorem init_enters_global_level (tgt : target_t) (size : N)
  (rf : option (list nat)) (m : machine) :
  (guint_of size = 0%N -> qemu_log_instr_init tgt size rf m = None) /\
  ((INT_MAX < guint_of size)%N -> qemu_log_instr_init tgt size rf m = None) /\
  ((0 < guint_of size <= INT_MAX)%N ->
  (has_flag (qemu_loglevel m) CPU_LOG_INSTR_U = true ->
   has_flag (qemu_loglevel m) CPU_LOG_INSTR = false ->
   qemu_log_instr_init tgt size rf m = None) /\
  ((has_flag (qemu_loglevel m) CPU_LOG_INSTR_U = true ->
    has_flag (qemu_loglevel m) CPU_LOG_INSTR = true) ->
   exists m' e,
     qemu_log_instr_init tgt size rf m = Some m' /\
     length (instr_info (cpulog m')) = N.to_nat (guint_of size) /\
     ring_head (cpulog m') = 0%nat /\ ring_tail (cpulog m') = 0%nat /\
     loglevel (cpulog m') = global_switch_level (qemu_loglevel m) /\
     loglevel_active (cpulog m') =
       next_level_active_of tgt (zero_entry tgt) (loglevel (cpulog m')) /\
     starting (cpulog m') = loglevel_active (cpulog m') /\
     force_drop (cpulog m') = false /\
     stats (cpulog m') = mk_stats 0 0 0 /\
     get_cpu_log_entry m' = Some e /\
     e_events e =
       (if loglevel_active (cpulog m')
        then LOG_EVENT_STATE LOG_EVENT_STATE_START (cpu_get_recent_pc tgt)
             :: regdump_events tgt (heap_next m)
        else []) /\
     NoDup (filters (cpulog m')) /\
     (forall fn, fn ∈ filters (cpulog m') <->
        exists fs f, rf = Some fs /\ f ∈ fs /\ trace_filters !! f = Some fn) /\
     trace m' = trace m /\ qemu_loglevel m' = qemu_loglevel m)).
Proof.
  split; [|split].
  { intros Hz. unfold qemu_log_instr_init. cbv zeta. rewrite Hz. reflexivity. }
  { intros Hbig. unfold qemu_log_instr_init. cbv zeta.
    destruct (N.ltb_spec INT_MAX (guint_of size)) as [_|?]; [reflexivity | lia]. }
  intros [Hpos Hint].
  assert (Hsz : exists n, N.to_nat (guint_of size) = S n)
    by (exists (Nat.pred (N.to_nat (guint_of size))); lia).
  destruct Hsz as [n Hsz].
  set (z := zero_entry tgt).
  assert (Hlast : replicate (S n) z !! n = Some z)
    by (apply lookup_replicate_2; lia).
  assert (Hins : <[n := z]> (replicate (S n) z) = replicate (S n) z)
    by (apply list_insert_id; exact Hlast).
  unfold qemu_log_instr_init. cbv zeta.
  destruct (N.ltb_spec INT_MAX (guint_of size)) as [?|_]; [lia|].
  destruct (N.eqb_spec (guint_of size) 0) as [?|_]; [lia|].
  rewrite Hsz.
  replace (S n - 1)%nat with n by lia.
  fold z.
  match goal with |- context [reset_log_buffer n ?m0] =>
    rewrite (reset_log_buffer_eq n m0 z) by exact Hlast end.
  cbn [mbind option_bind cpulog upd_cpulog instr_info set_ring set_instr_info
       set_filters set_loglevel loglevel loglevel_active cl_flags ring_head
       ring_tail filters stats qemu_log_printf_buf qemu_loglevel heap heap_next
       trace].
  replace (reset_entry z) with z by (symmetry; apply reset_entry_zero_entry).
  rewrite Hins.
  change (free_event_payloads (e_events z) (heap m)) with (heap m).
  set (m1 := mk_machine _ _ _ _ _).
  rewrite has_flag_lor_mask.
  assert (Hfin : forall m2 e,
    filters (cpulog m2) = [] ->
    length (instr_info (cpulog m2)) = S n ->
    ring_head (cpulog m2) = 0%nat -> ring_tail (cpulog m2) = 0%nat ->
    loglevel (cpulog m2) = global_switch_level (qemu_loglevel m) ->
    loglevel_active (cpulog m2) = next_level_active_of tgt z (loglevel (cpulog m2)) ->
    starting (cpulog m2) = loglevel_active (cpulog m2) ->
    force_drop (cpulog m2) = false ->
    get_cpu_log_entry m2 = Some e ->
    e_events e =
      (if loglevel_active (cpulog m2)
       then LOG_EVENT_STATE LOG_EVENT_STATE_START (cpu_get_recent_pc tgt)
            :: regdump_events tgt (heap_next m)
       else []) ->
    trace m2 = trace m -> qemu_loglevel m2 = qemu_loglevel m ->
    exists m' e',
      Some (upd_cpulog (set_stats (mk_stats 0 0 0))
              match rf with
              | Some fs =>
                  foldl (fun m f => upd_cpulog (qemu_log_instr_add_filter f) m) m2 fs
              | None => m2
              end) = Some m' /\
      length (instr_info (cpulog m')) = S n /\
      ring_head (cpulog m') = 0%nat /\ ring_tail (cpulog m') = 0%nat /\
      loglevel (cpulog m') = global_switch_level (qemu_loglevel m) /\
      loglevel_active (cpulog m') =
        next_level_active_of tgt z (loglevel (cpulog m')) /\
      starting (cpulog m') = loglevel_active (cpulog m') /\
      force_drop (cpulog m') = false /\
      stats (cpulog m') = mk_stats 0 0 0 /\
      get_cpu_log_entry m' = Some e' /\
      e_events e' =
        (if loglevel_active (cpulog m')
         then LOG_EVENT_STATE LOG_EVENT_STATE_START (cpu_get_recent_pc tgt)
              :: regdump_events tgt (heap_next m)
         else []) /\
      NoDup (filters (cpulog m')) /\
      (forall fn, fn ∈ filters (cpulog m') <->
         exists fs f, rf = Some fs /\ f ∈ fs /\ trace_filters !! f = Some fn) /\
      trace m' = trace m /\ qemu_loglevel m' = qemu_loglevel m).
  { intros m2 e Hfs Hlen Hh Ht Hl Ha Hst Hfd He Hev Htr Hq.
    destruct (init_finish_spec rf m2 Hfs) as (Hc & Hnd & Hmem & Htr' & Hq' & _).
    cbv zeta in Hc, Hnd, Hmem, Htr', Hq'.
    remember (upd_cpulog (set_stats (mk_stats 0 0 0))
                match rf with
                | Some fs =>
                    foldl (fun m f => upd_cpulog (qemu_log_instr_add_filter f) m) m2 fs
                | None => m2
                end) as m' eqn:Hm'.
    clear Hm'.
    assert (E1 : instr_info (cpulog m') = instr_info (cpulog m2))
      by (rewrite Hc; reflexivity).
    assert (E2 : ring_head (cpulog m') = ring_head (cpulog m2))
      by (rewrite Hc; reflexivity).
    assert (E3 : ring_tail (cpulog m') = ring_tail (cpulog m2))
      by (rewrite Hc; reflexivity).
    assert (E4 : loglevel (cpulog m') = loglevel (cpulog m2))
      by (rewrite Hc; reflexivity).
    assert (E5 : loglevel_active (cpulog m') = loglevel_active (cpulog m2))
      by (rewrite Hc; reflexivity).
    assert (E6 : starting (cpulog m') = starting (cpulog m2))
      by (rewrite Hc; reflexivity).
    assert (E7 : force_drop (cpulog m') = force_drop (cpulog m2))
      by (rewrite Hc; reflexivity).
    assert (E8 : stats (cpulog m') = mk_stats 0 0 0)
      by (rewrite Hc; reflexivity).
    exists m', e. split; [reflexivity|].
    unfold get_cpu_log_entry in *. rewrite E1, E2, E3, E4, E5, E6, E7, E8.
    repeat (split; [first [assumption | reflexivity | congruence]|]).
    congruence. }
  assert (Hswitch : forall level,
    level <> QEMU_LOG_INSTR_LOGLEVEL_NONE ->
    has_flag (qemu_loglevel m) CPU_LOG_INSTR = true ->
    exists m2 e,
      do_cpu_loglevel_switch tgt (mk_next_level_arg level None true) m1 = Some m2 /\
      filters (cpulog m2) = [] /\
      length (instr_info (cpulog m2)) = S n /\
      ring_head (cpulog m2) = 0%nat /\ ring_tail (cpulog m2) = 0%nat /\
      loglevel (cpulog m2) = level /\
      loglevel_active (cpulog m2) = next_level_active_of tgt z level /\
      starting (cpulog m2) = loglevel_active (cpulog m2) /\
      force_drop (cpulog m2) = false /\
      get_cpu_log_entry m2 = Some e /\
      e_events e =
        (if loglevel_active (cpulog m2)
         then LOG_EVENT_STATE LOG_EVENT_STATE_START (cpu_get_recent_pc tgt)
              :: regdump_events tgt (heap_next m)
         else []) /\
      trace m2 = trace m /\ qemu_loglevel m2 = qemu_loglevel m).
  { intros level Hne Hflag. unfold do_cpu_loglevel_switch. subst m1.
    cbn [cpulog ring_head instr_info qemu_loglevel loglevel loglevel_active
         arg_global arg_pc next_level].
    change (replicate (S n) z !! 0%nat) with (Some z).
    cbn [mbind option_bind]. rewrite Hflag. cbn [negb mbind option_bind].
    assert (Hneq : loglevel_eqb level QEMU_LOG_INSTR_LOGLEVEL_NONE = false)
      by (destruct level; [contradiction | reflexivity | reflexivity]).
    rewrite Hneq. cbn [andb].
    unfold loglevel_switch_start, emit_regdump_event, regdump_events.
    destruct (next_level_active_of tgt z level) eqn:Hnla.
    - simpl.
      destruct (cpu_log_instr_event_regdump tgt); simpl;
        (eexists; eexists; split; [reflexivity|]); simpl;
        rewrite ?length_replicate; repeat split.
    - simpl.
      eexists. exists z. split; [reflexivity|]. simpl.
      rewrite ?length_replicate. repeat split. }
  unfold global_switch_level in Hfin |- *.
  destruct (has_flag (qemu_loglevel m) CPU_LOG_INSTR_U) eqn:HU;
    destruct (has_flag (qemu_loglevel m) CPU_LOG_INSTR) eqn:HI; cbn [orb].
  - split; [intros _ Hd; discriminate|]. intros _.
    destruct (Hswitch QEMU_LOG_INSTR_LOGLEVEL_USER)
      as (m2 & e & Hs & Hfs & Hlen & Hh & Ht & Hl & Ha & Hst & Hfd & He & Hev & Htr & Hq);
      [discriminate | reflexivity |].
    rewrite Hs. cbn [mbind option_bind].
    apply (Hfin m2 e); try assumption. rewrite Hl. exact Ha.
  - split; [intros _ _; reflexivity|]. intros Himp.
    specialize (Himp eq_refl). discriminate.
  - split; [intros Hd; discriminate|]. intros _.
    destruct (Hswitch QEMU_LOG_INSTR_LOGLEVEL_ALL)
      as (m2 & e & Hs & Hfs & Hlen & Hh & Ht & Hl & Ha & Hst & Hfd & He & Hev & Htr & Hq);
      [discriminate | reflexivity |].
    rewrite Hs. cbn [mbind option_bind].
    apply (Hfin m2 e); try assumption. rewrite Hl. exact Ha.
  - split; [intros Hd; discriminate|]. intros _.
    cbn [mbind option_bind].
    apply (Hfin m1 z); try reflexivity. apply length_replicate.
Qed.

(** A CPU created with a configured size of 2^32 + 4, hence four
    slots, while the global word asks for user-only tracing, the
    startup list naming the event filter twice, on a target that runs
    in user mode. *)
Lemma init_enters_global_level_witness :
  exists m' e,
    qemu_log_instr_init sample_target_user (2 ^ 32 + 4) (Some [1; 1]%nat)
      (set_qemu_loglevel (Z.lor CPU_LOG_INSTR CPU_LOG_INSTR_U) idle_machine)
      = Some m' /\
    loglevel (cpulog m') = QEMU_LOG_INSTR_LOGLEVEL_USER /\
    loglevel_active (cpulog m') = true /\
    stats (cpulog m') = mk_stats 0 0 0 /\
    get_cpu_log_entry m' = Some e /\
    e_events e = [LOG_EVENT_STATE LOG_EVENT_STATE_START 4096; LOG_EVENT_REGDUMP 0] /\
    NoDup (filters (cpulog m')).
Proof.
  destruct (init_enters_global_level sample_target_user (2 ^ 32 + 4)
              (Some [1; 1]%nat)
              (set_qemu_loglevel (Z.lor CPU_LOG_INSTR CPU_LOG_INSTR_U) idle_machine))
    as (_ & _ & H).
  destruct H as [_ H]; [vm_compute; split; [reflexivity | discriminate]|].
  destruct H as (m' & e & Hi & _ & _ & _ & Hl & Ha & _ & _ & Hs & He & Hev & Hnd & _).
  - intros _. reflexivity.
  - exists m', e. split; [exact Hi|].
    rewrite Hl in Ha. rewrite Ha in Hev.
    split; [exact Hl|]. split; [exact Ha|]. split; [exact Hs|].
    split; [exact He|]. split; [exact Hev | exact Hnd].
Defined.

(** ** Startup and command-line filters *)

Lemma add_filter_idem filter c :
  qemu_log_instr_add_filter filter (qemu_log_instr_add_filter filter c)
    = qemu_log_instr_add_filter filter c.
Proof.
  destruct (add_filter_cases c filter) as [[Heq _]|(fn & Hfn & Habs & Heq)].
  - rewrite Heq. exact Heq.
  - rewrite Heq.
    destruct (add_filter_cases (set_filters (filters c ++ [fn]) c) filter)
      as [[Heq' _]|(fn' & Hfn' & Habs' & _)]; [exact Heq'|].
    exfalso. apply Habs'. rewrite Hfn in Hfn'. injection Hfn' as <-.
    destruct c; simpl. apply elem_of_app. right. left.
Qed.

(** [k] startup additions of the same filter. *)
Lemma add_startup_filter_iter filter k w :
  Nat.iter k (qemu_log_instr_add_startup_filter filter) w =
    match k, cpus w with
    | O, _ => w
    | S _, [] =>
        mk_filter_world
          (Some (default [] (reset_filters w) ++ replicate k filter)) []
    | S _, cs =>
        mk_filter_world (Some (default [] (reset_filters w)))
          (qemu_log_instr_allcpu_add_filter filter cs)
    end.
Proof.
  induction k as [|k IH]; [reflexivity|].
  rewrite Nat.iter_succ, IH. unfold qemu_log_instr_add_startup_filter.
  destruct k as [|k].
  - destruct w as [rf [|c cs]]; simpl; [|reflexivity].
    destruct rf; reflexivity.
  - destruct (cpus w) as [|c cs] eqn:Hcs; cbn [cpus reset_filters default].
    + rewrite <- app_assoc. f_equal. f_equal. f_equal.
      change (filter :: replicate k filter) with (replicate (S k) filter).
      rewrite <- replicate_S_end. reflexivity.
    + unfold qemu_log_instr_allcpu_add_filter. cbn [map].
      rewrite !add_filter_idem. f_equal. f_equal.
      rewrite map_map. apply map_ext. intros c'. apply add_filter_idem.
Qed.

Lemma set_cli_filters_loop_app good rest w :
  Forall (fun name => name = "events") good ->
  set_cli_filters_loop (good ++ rest) w =
    set_cli_filters_loop rest
      (Nat.iter (length good)
         (qemu_log_instr_add_startup_filter LOG_FILTER_EVENTS) w).
Proof.
  revert w. induction good as [|name good IH]; intros w Hall; [reflexivity|].
  apply Forall_cons in Hall as [-> Hall].
  cbn [app set_cli_filters_loop length]. rewrite String.eqb_refl.
  rewrite IH by exact Hall. f_equal.
  rewrite Nat.iter_succ_r. reflexivity.
Qed.

(** X15.  The loop of [qemu_log_instr_set_cli_filters] over the names of
    the option: it stops at the first name that is not [events] and
    sets the error, keeping what the names before it already did.  With
    no CPU created yet each accepted name appends one EVENTS entry to
    the startup list (duplicates included); once CPUs exist the startup
    list gains nothing and every CPU gets the event filter, added at
    most once. *)
Theorem cli_filters_stop_at_first_invalid (good rest : list string)
  (w : filter_world)
  (Hgood : Forall (fun name => name = "events") good)
  (Hrest : forall bad rest', rest = bad :: rest' -> bad <> "events") :
  let r := set_cli_filters_loop (good ++ rest) w in
  r.2 = negb (bool_decide (rest = [])) /\
  (good = [] -> r.1 = w) /\
  (good <> [] -> cpus w = [] ->
     r.1 = mk_filter_world
             (Some (default [] (reset_filters w)
                    ++ replicate (length good) LOG_FILTER_EVENTS)) []) /\
  (good <> [] -> cpus w <> [] ->
     r.1 = mk_filter_world (Some (default [] (reset_filters w)))
             (map (qemu_log_instr_add_filter LOG_FILTER_EVENTS) (cpus w))).
Proof.
  cbv zeta. rewrite set_cli_filters_loop_app by exact Hgood.
  rewrite add_startup_filter_iter.
  set (w' := match length good with O => w | S _ => _ end).
  assert (Hloop : set_cli_filters_loop rest w' = (w', negb (bool_decide (rest = [])))).
  { destruct rest as [|bad rest']; [reflexivity|].
    cbn [set_cli_filters_loop].
    destruct (String.eqb_spec bad "events") as [Heq|_].
    - exfalso. exact (Hrest bad rest' eq_refl Heq).
    - reflexivity. }
  rewrite Hloop. cbn [fst snd]. split; [reflexivity|]. subst w'.
  split; [intros ->; reflexivity|].
  split.
  - intros Hne Hcs. destruct good as [|g good]; [contradiction|].
    cbn [length]. rewrite Hcs. reflexivity.
  - intros Hne Hcs. destruct good as [|g good]; [contradiction|].
    cbn [length]. destruct (cpus w) as [|c cs]; [contradiction|]. reflexivity.
Qed.

(** The option [events,events,bogus,events] before any CPU exists: two
    entries reach the startup list, the error is set, the last name is
    never looked at. *)
Lemma cli_filters_stop_at_first_invalid_witness :
  set_cli_filters_loop ["events"; "events"; "bogus"; "events"]
    (mk_filter_world None [])
  = (mk_filter_world (Some [LOG_FILTER_EVENTS; LOG_FILTER_EVENTS]) [], true).
Proof.
  pose proof (cli_filters_stop_at_first_invalid ["events"; "events"]
                ["bogus"; "events"] (mk_filter_world None [])) as H.
  cbv zeta in H. destruct H as (Herr & _ & Hw & _).
  - repeat constructor.
  - intros bad rest' [= <- _]. discriminate.
  - specialize (Hw ltac:(discriminate) eq_refl).
    apply injective_projections; [exact Hw | exact Herr].
Defined.

(** ** Register dumps built by the target *)

Lemma dump_regs_spec gpr regs m dump :
  heap m !! gpr = Some dump ->
  dump_regs gpr regs m =
    Some (set_heap (<[gpr := dump ++ map dumped_reg regs]> (heap m)) (heap_next m) m).
Proof.
  revert m dump. induction regs as [|[reg_name value] regs IH]; intros m dump Hd.
  - simpl. rewrite app_nil_r, insert_id by exact Hd. destruct m. reflexivity.
  - simpl. unfold qemu_log_instr_event_dump_reg. rewrite Hd. simpl.
    erewrite IH by (simpl; apply lookup_insert_eq). simpl.
    rewrite insert_insert_eq, <- app_assoc. reflexivity.
Qed.

Lemma do_instr_commit_streaming_head tgt m m1 :
  has_flag (cl_flags (cpulog m)) QEMU_LOG_INSTR_FLAG_BUFFERED = false ->
  do_instr_commit tgt m = Some m1 ->
  ring_head (cpulog m1) = ring_head (cpulog m).
Proof.
  intros Hb. unfold do_instr_commit. rewrite Hb.
  destruct (force_drop (cpulog m)); [intros [= <-]; reflexivity|].
  destruct (get_cpu_log_entry m) as [e|]; simpl; [|discriminate].
  destruct (run_filters tgt (filters (cpulog m)) e) as [[|] obs]; simpl;
    intros [= <-]; reflexivity.
Qed.

(** X16.  A register dump through its life, on a CPU that streams its
    entries: [qemu_log_instr_event_create_regdump] hands out an array
    that nothing else uses, [qemu_log_instr_event_dump_reg] fills it with
    the registers in call order and touches no other array and nothing
    of the log state, [qemu_log_instr_event] attaches it to the current
    entry as its last event, and the commit of that entry frees it,
    whether the entry is emitted, dropped or filtered out.  An array
    that was never created cannot be filled. *)
Theorem regdump_built_attached_freed (tgt : target_t) (regs : list (string * Z))
  (m : machine)
  (Hwf : ring_wf (cpulog m))
  (Hfresh : heap_fresh m)
  (Hstream : has_flag (cl_flags (cpulog m)) QEMU_LOG_INSTR_FLAG_BUFFERED = false) :
  let a := (qemu_log_instr_event_create_regdump m).1 in
  let m1 := (qemu_log_instr_event_create_regdump m).2 in
  heap m !! a = None /\
  (forall reg_name value, qemu_log_instr_event_dump_reg a reg_name value m = None) /\
  exists m2 m3 m4 e e3,
    dump_regs a regs m1 = Some m2 /\
    heap m2 !! a = Some (map dumped_reg regs) /\
    (forall b, b <> a -> heap m2 !! b = heap m !! b) /\
    cpulog m2 = cpulog m /\ trace m2 = trace m /\
    get_cpu_log_entry m = Some e /\
    qemu_log_instr_event (LOG_EVENT_REGDUMP a) m2 = Some m3 /\
    get_cpu_log_entry m3 = Some e3 /\
    e_events e3 = e_events e ++ [LOG_EVENT_REGDUMP a] /\
    heap m3 = heap m2 /\
    qemu_log_instr_commit tgt m3 = Some m4 /\
    heap m4 !! a = None /\
    heap_fresh m4.
Proof.
  cbv zeta. unfold qemu_log_instr_event_create_regdump. cbn [fst snd].
  assert (Ha : heap m !! heap_next m = None) by (apply Hfresh; lia).
  split; [exact Ha|]. split.
  { intros reg_name value. unfold qemu_log_instr_event_dump_reg. rewrite Ha.
    reflexivity. }
  set (a := heap_next m).
  set (m1 := set_heap (<[a := []]> (heap m)) (S a) m).
  destruct (ring_wf_entry m Hwf) as [e He].
  pose proof (dump_regs_spec a regs m1 [] (lookup_insert_eq _ _ _)) as Hd.
  cbn [app] in Hd.
  set (m2 := set_heap (<[a := map dumped_reg regs]> (heap m1)) (heap_next m1) m1) in Hd.
  set (e3 := set_e_events (e_events e ++ [LOG_EVENT_REGDUMP a]) e).
  set (m3 := put_entry (ring_head (cpulog m2)) e3 m2).
  assert (Hev : qemu_log_instr_event (LOG_EVENT_REGDUMP a) m2 = Some m3).
  { unfold qemu_log_instr_event. change (get_cpu_log_entry m2) with (get_cpu_log_entry m).
    rewrite He. reflexivity. }
  assert (He3 : get_cpu_log_entry m3 = Some e3).
  { unfold get_cpu_log_entry. simpl. apply list_lookup_insert_eq.
    eapply lookup_lt_Some. exact He. }
  assert (Hwf3 : ring_wf (cpulog m3)).
  { destruct Hwf as [Hh Ht]. split; simpl; rewrite length_insert; assumption. }
  destruct (qemu_log_instr_commit_defined tgt m3 Hwf3) as (m3' & m4 & Hc & Hr & Hcommit & _).
  pose proof (do_instr_commit_frame tgt m3 m3' Hc)
    as (Hinfo & Hheap & Hnext & _).
  pose proof (do_instr_commit_streaming_head tgt m3 m3' Hstream Hc) as Hhead.
  destruct (reset_log_buffer_slot _ _ _ Hr) as (e' & _ & He' & _ & _ & Hheap4).
  assert (Hnext4 : heap_next m4 = S a).
  { unfold reset_log_buffer in Hr. rewrite He' in Hr. simpl in Hr.
    injection Hr as <-. simpl. exact Hnext. }
  rewrite Hhead, Hinfo in He'. unfold get_cpu_log_entry in He3.
  rewrite He3 in He'. injection He' as <-.
  exists m2, m3, m4, e, e3.
  split; [exact Hd|]. split; [simpl; rewrite insert_insert_eq; apply lookup_insert_eq|].
  split.
  { intros b Hb. simpl. rewrite insert_insert_eq. apply lookup_insert_ne. congruence. }
  split; [reflexivity|]. split; [reflexivity|]. split; [exact He|].
  split; [exact Hev|]. split; [exact He3|]. split; [reflexivity|].
  split; [reflexivity|]. split; [exact Hcommit|]. split.
  - rewrite Hheap4. apply free_event_payloads_frees. simpl.
    apply elem_of_app. right. left.
  - intros b Hb. rewrite Hheap4. apply free_event_payloads_keeps_none.
    rewrite Hheap. simpl. rewrite insert_insert_eq.
    rewrite lookup_insert_ne by lia. apply Hfresh. lia.
Qed.

(** The sample CPU dumps two registers for an event of the entry under
    construction and commits it. *)
Lemma regdump_built_attached_freed_witness :
  exists m2 m4,
    dump_regs 0 [("ra", 1); ("sp", 2)]
      (qemu_log_instr_event_create_regdump (sample_machine 0 [])).2 = Some m2 /\
    heap m2 !! 0%nat = Some [mk_reginfo 0 "ra" (REG_GPR 1); mk_reginfo 0 "sp" (REG_GPR 2)] /\
    (m3 ← qemu_log_instr_event (LOG_EVENT_REGDUMP 0) m2;
     qemu_log_instr_commit sample_target m3) = Some m4 /\
    heap m4 !! 0%nat = None.
Proof.
  destruct (regdump_built_attached_freed sample_target [("ra", 1); ("sp", 2)]
              (sample_machine 0 []))
    as (_ & _ & m2 & m3 & m4 & e & e3 & Hd & Hh & _ & _ & _ & _ & Hev & _ & _ & _ &
        Hc & Hfree & _).
  - split; simpl; lia.
  - intros a _. apply lookup_empty.
  - reflexivity.
  - exists m2, m4. split; [exact Hd|]. split; [exact Hh|].
    split; [|exact Hfree]. simpl in Hev. rewrite Hev. exact Hc.
Defined.

(** ** Physical addresses *)

(** X17.  [get_paddr] on a 64-bit address, with an MMU that returns
    64-bit values: it asks the MMU about the start of the page that
    holds [vaddr] and returns a 64-bit value.  When the MMU reports no
    translation the result is the [(hwaddr)-1] sentinel.  When it
    returns a page-aligned base whose page fits in 64 bits, the result
    is that base plus the offset of [vaddr] in its page: it lies in the
    page the MMU named and keeps the page offset of the virtual
    address. *)
Theorem get_paddr_keeps_page_offset (tgt : target_t) (vaddr : Z)
  (Hbits : 0 <= TARGET_PAGE_BITS tgt < 64)
  (Hvaddr : is_uint64 vaddr)
  (Hmmu : is_uint64
            (cpu_get_phys_page_attrs_debug tgt
               (2 ^ TARGET_PAGE_BITS tgt * (vaddr / 2 ^ TARGET_PAGE_BITS tgt)))) :
  let page := 2 ^ TARGET_PAGE_BITS tgt in
  let base := cpu_get_phys_page_attrs_debug tgt (page * (vaddr / page)) in
  is_uint64 (get_paddr tgt vaddr) /\
  (base = HWADDR_NONE -> get_paddr tgt vaddr = HWADDR_NONE) /\
  (base <> HWADDR_NONE -> base + page <= 2 ^ 64 -> base mod page = 0 ->
     get_paddr tgt vaddr = base + vaddr mod page /\
     get_paddr tgt vaddr / page = base / page /\
     get_paddr tgt vaddr mod page = vaddr mod page).
Proof.
  cbv zeta. set (page := 2 ^ TARGET_PAGE_BITS tgt) in *.
  assert (Hpage : 0 < page) by (apply Z.pow_pos_nonneg; lia).
  assert (Hask : Z.ldiff vaddr (Z.ones (TARGET_PAGE_BITS tgt)) = page * (vaddr / page)).
  { rewrite Z.ldiff_ones_r by lia.
    rewrite Z.shiftl_mul_pow2, Z.shiftr_div_pow2 by lia.
    apply Z.mul_comm. }
  unfold get_paddr. cbv zeta. rewrite (wrap64_uint64 vaddr) by exact Hvaddr.
  rewrite Hask, Z.land_ones by lia. fold page.
  set (base := cpu_get_phys_page_attrs_debug tgt (page * (vaddr / page))) in *.
  rewrite (wrap64_uint64 base) by exact Hmmu.
  split; [|split].
  - destruct (base =? HWADDR_NONE).
    + unfold is_uint64, HWADDR_NONE. lia.
    + unfold is_uint64, wrap64. apply Z.mod_pos_bound. lia.
  - intros ->. reflexivity.
  - intros Hne Hfit Halign.
    destruct (Z.eqb_spec base HWADDR_NONE) as [Heq|_]; [contradiction|].
    pose proof (Z.mod_pos_bound vaddr page Hpage) as Hoff.
    destruct Hmmu as [Hpos _].
    assert (Hw : wrap64 (base + vaddr mod page) = base + vaddr mod page).
    { unfold wrap64. apply Z.mod_small. lia. }
    rewrite Hw. split; [reflexivity|].
    apply Z.div_exact in Halign; [|lia].
    split.
    + rewrite Halign at 1. rewrite Z.mul_comm, Z.div_add_l by lia.
      rewrite (Z.div_small (vaddr mod page)) by lia. lia.
    + rewrite Halign at 1. rewrite Z.add_comm, Z.mul_comm, Z.mod_add by lia.
      apply Z.mod_mod. lia.
Qed.

(** The identity MMU of the sample target at address 12345 (page 3,
    offset 57). *)
Lemma get_paddr_keeps_page_offset_witness :
  get_paddr sample_target 12345 = 12288 + 57.
Proof.
  pose proof (get_paddr_keeps_page_offset sample_target 12345) as H.
  cbv zeta in H. destruct H as (_ & _ & H).
  - simpl. lia.
  - unfold is_uint64. lia.
  - unfold is_uint64. vm_compute. split; [discriminate | reflexivity].
  - destruct H as (Heq & _).
    + vm_compute. discriminate.
    + vm_compute. discriminate.
    + reflexivity.
    + exact Heq.
Defined.

(** ** Every backend call is counted *)

Lemma accounted_same m m' :
  trace m' = trace m ->
  entries_emitted (stats (cpulog m')) = entries_emitted (stats (cpulog m)) ->
  accounted m m'.
Proof.
  intros Ht Hs. exists []. rewrite app_nil_r, Hs. simpl.
  rewrite Z.add_0_r. split; [exact Ht | reflexivity].
Qed.

Lemma accounted_trans m1 m2 m3 :
  accounted m1 m2 -> accounted m2 m3 -> accounted m1 m3.
Proof.
  intros (o1 & Ht1 & Hs1) (o2 & Ht2 & Hs2). exists (o1 ++ o2).
  split; [rewrite Ht2, Ht1, app_assoc; reflexivity|].
  rewrite Hs2, emit_calls_app, length_app, Nat2Z.inj_add.
  unfold wrap64 in *. rewrite <- Z.add_mod_idemp_l, Hs1, Z.add_mod_idemp_l by lia.
  f_equal. lia.
Qed.

Lemma emit_calls_run_filters tgt fs e :
  emit_calls (run_filters tgt fs e).2 = [].
Proof.
  pose proof (run_filters_only_filters tgt fs e) as Hall.
  induction Hall as [|o obs (fn & r & ->) _ IH]; [reflexivity | exact IH].
Qed.

Lemma do_instr_commit_accounted tgt m m' :
  do_instr_commit tgt m = Some m' -> accounted m m'.
Proof.
  unfold do_instr_commit.
  destruct (force_drop (cpulog m)); [intros [= <-]; apply accounted_same; reflexivity|].
  destruct (get_cpu_log_entry m) as [e|]; simpl; [|discriminate].
  pose proof (emit_calls_run_filters tgt (filters (cpulog m)) e) as Hobs.
  destruct (run_filters tgt (filters (cpulog m)) e) as [ok obs]. simpl in Hobs.
  destruct ok; simpl.
  - destruct (has_flag (cl_flags (cpulog m)) QEMU_LOG_INSTR_FLAG_BUFFERED).
    + destruct (length (instr_info (cpulog m)) =? 0)%nat; [discriminate|].
      intros [= <-]. exists obs. simpl. rewrite Hobs. simpl. rewrite Z.add_0_r.
      split; reflexivity.
    + intros [= <-]. exists (obs ++ [ObsEmitInstr e]). simpl.
      rewrite emit_calls_app, Hobs, <- app_assoc. simpl.
      split; [reflexivity|]. unfold inc_stat, wrap64. apply Z.mod_mod. lia.
  - intros [= <-]. exists obs. simpl. rewrite Hobs. simpl. rewrite Z.add_0_r.
    split; reflexivity.
Qed.

Lemma reset_log_buffer_accounted i m m' :
  reset_log_buffer i m = Some m' -> accounted m m'.
Proof.
  intros Hr. destruct (reset_log_buffer_frame _ _ _ Hr)
    as (_ & _ & _ & _ & _ & _ & _ & Hs & Ht & _).
  apply accounted_same; [exact Ht | rewrite Hs; reflexivity].
Qed.

Lemma qemu_log_instr_commit_accounted tgt m m' :
  qemu_log_instr_commit tgt m = Some m' -> accounted m m'.
Proof.
  unfold qemu_log_instr_commit.
  destruct (do_instr_commit tgt m) as [m1|] eqn:Hc; simpl; [|discriminate].
  intros Hr. eapply accounted_trans.
  - eapply do_instr_commit_accounted. exact Hc.
  - eapply reset_log_buffer_accounted. exact Hr.
Qed.

Lemma loglevel_switch_start_accounted tgt b pc m m' :
  loglevel_switch_start tgt b pc m = Some m' -> accounted m m'.
Proof.
  unfold loglevel_switch_start, emit_regdump_event.
  destruct b; [|intros [= <-]; apply accounted_same; reflexivity].
  cbn [cpulog upd_cpulog ring_head set_starting instr_info].
  destruct (instr_info (cpulog m) !! ring_head (cpulog m)) as [e|] eqn:He;
    simpl; [|discriminate].
  rewrite list_lookup_insert_eq by (eapply lookup_lt_Some; exact He). simpl.
  destruct (cpu_log_instr_event_regdump tgt); simpl; intros [= <-];
    apply accounted_same; reflexivity.
Qed.

Lemma do_cpu_loglevel_switch_accounted tgt arg m m' :
  do_cpu_loglevel_switch tgt arg m = Some m' -> accounted m m'.
Proof.
  unfold do_cpu_loglevel_switch.
  destruct (instr_info (cpulog m) !! ring_head (cpulog m)) as [e|]; simpl;
    [|discriminate].
  destruct (negb (has_flag _ _)); [discriminate|].
  destruct (if arg_global arg then _ else _) as [pc|]; simpl; [|discriminate].
  destruct (_ && _); [intros [= <-]; apply accounted_same; reflexivity|].
  destruct (loglevel_active (cpulog m)).
  - destruct (starting (cpulog m)).
    + intros Hr. apply reset_log_buffer_accounted in Hr.
      eapply accounted_trans; [|exact Hr]. apply accounted_same; reflexivity.
    + match goal with |- context [do_instr_commit tgt ?m2] =>
        destruct (do_instr_commit tgt m2) as [m3|] eqn:Hc; simpl; [|discriminate];
        apply do_instr_commit_accounted in Hc;
        assert (H02 : accounted m m2) by (apply accounted_same; reflexivity)
      end.
      destruct (reset_log_buffer (ring_head (cpulog m3)) m3) as [m4|] eqn:Hr; simpl;
        [|discriminate].
      apply reset_log_buffer_accounted in Hr. intros Hs.
      apply loglevel_switch_start_accounted in Hs.
      eauto using accounted_trans.
  - intros Hs. apply loglevel_switch_start_accounted in Hs.
    eapply accounted_trans; [|exact Hs]. apply accounted_same; reflexivity.
Qed.

Lemma flush_loop_accounted fuel curr m m' :
  flush_loop fuel curr m = Some m' -> accounted m m'.
Proof.
  revert curr m. induction fuel as [|fuel IH]; intros curr m; simpl.
  - destruct (_ =? _)%nat; [|discriminate]. intros [= <-].
    apply accounted_same; reflexivity.
  - destruct (_ =? _)%nat; [intros [= <-]; apply accounted_same; reflexivity|].
    destruct (instr_info (cpulog m) !! curr) as [e|]; simpl; [|discriminate].
    intros Hl. apply IH in Hl. eapply accounted_trans; [|exact Hl].
    exists [ObsEmitInstr e]. simpl. split; [reflexivity|].
    unfold inc_stat, wrap64. apply Z.mod_mod. lia.
Qed.

Lemma qemu_log_instr_flush_accounted tgt m m' :
  qemu_log_instr_flush tgt m = Some m' -> accounted m m'.
Proof.
  unfold qemu_log_instr_flush, qemu_log_instr_event.
  destruct (get_cpu_log_entry m) as [e|]; simpl; [|discriminate].
  match goal with |- context [qemu_log_instr_check_enabled ?m1] =>
    assert (H01 : accounted m m1) by (apply accounted_same; reflexivity);
    destruct (if qemu_log_instr_check_enabled m1 then Some m1
              else qemu_log_instr_commit tgt m1) as [m2|] eqn:Hm2; simpl;
      [|discriminate];
    assert (H12 : accounted m1 m2)
      by (destruct (qemu_log_instr_check_enabled m1);
          [injection Hm2 as <-; apply accounted_same; reflexivity
          | eapply qemu_log_instr_commit_accounted; exact Hm2])
  end.
  destruct (negb (has_flag _ _)); [intros [= <-]; eauto using accounted_trans|].
  destruct (flush_loop _ _ m2) as [m3|] eqn:Hl; simpl; [|discriminate].
  apply flush_loop_accounted in Hl. intros [= <-].
  assert (accounted m3 (upd_cpulog (fun c => set_ring (ring_head c) (ring_head c) c) m3))
    by (apply accounted_same; reflexivity).
  eauto using accounted_trans.
Qed.

Lemma qemu_log_instr_set_buffer_size_accounted tgt new_size m m' :
  qemu_log_instr_set_buffer_size tgt new_size m = Some m' -> accounted m m'.
Proof.
  unfold qemu_log_instr_set_buffer_size, do_log_buffer_resize. cbv zeta.
  destruct (_ <? _)%N; [intros [= <-]; apply accounted_same; reflexivity|].
  destruct (_ <? _)%N; [discriminate|].
  intros Hr. destruct (resize_loop_frame _ _ _ Hr)
    as (_ & _ & _ & _ & Hs & Ht & _).
  apply accounted_same; [exact Ht | rewrite Hs; reflexivity].
Qed.

Lemma add_filter_stats filter c :
  stats (qemu_log_instr_add_filter filter c) = stats c.
Proof.
  unfold qemu_log_instr_add_filter. destruct (_ <=? _)%nat; [reflexivity|].
  destruct (trace_filters !! filter); [|reflexivity].
  destruct (filter_index _ _); reflexivity.
Qed.

Lemma remove_filter_stats filter c :
  stats (qemu_log_instr_remove_filter filter c) = stats c.
Proof.
  unfold qemu_log_instr_remove_filter. destruct (_ <=? _)%nat; [reflexivity|].
  destruct (trace_filters !! filter); [|reflexivity].
  destruct (filter_index _ _); reflexivity.
Qed.

Lemma run_op_accounted tgt op m m' :
  run_op tgt op m = Some m' -> accounted m m'.
Proof.
  destruct op; simpl.
  - unfold qemu_log_instr. destruct (get_cpu_log_entry m); simpl; [|discriminate].
    destruct (_ <? _)%nat; [discriminate|].
    intros [= <-]. apply accounted_same; reflexivity.
  - unfold qemu_log_instr_reg. destruct (get_cpu_log_entry m); simpl; [|discriminate].
    intros [= <-]. apply accounted_same; reflexivity.
  - unfold qemu_log_instr_mem_int. destruct (get_cpu_log_entry m); simpl;
      [|discriminate]. intros [= <-]. apply accounted_same; reflexivity.
  - unfold qemu_log_instr_event. destruct (get_cpu_log_entry m); simpl;
      [|discriminate]. intros [= <-]. apply accounted_same; reflexivity.
  - unfold qemu_log_instr_mode_switch. destruct (get_cpu_log_entry m); simpl;
      [|discriminate].
    destruct (_ || _); [|destruct (negb _)]; simpl; intros [= <-];
      apply accounted_same; reflexivity.
  - intros [= <-]. apply accounted_same; reflexivity.
  - apply qemu_log_instr_commit_accounted.
  - apply qemu_log_instr_flush_accounted.
  - intros [= <-]. unfold helper_qemu_log_instr_buffered_mode.
    destruct (enable =? 0); apply accounted_same; reflexivity.
  - apply do_cpu_loglevel_switch_accounted.
  - unfold do_global_loglevel_switch. intros Hs.
    apply do_cpu_loglevel_switch_accounted in Hs.
    eapply accounted_trans; [|exact Hs].
    destruct (next_level arg); unfold global_loglevel_enable;
      try destruct (has_flag _ _); apply accounted_same; reflexivity.
  - intros [= <-]. apply accounted_same; [reflexivity|]. simpl.
    rewrite add_filter_stats. reflexivity.
  - intros [= <-]. apply accounted_same; [reflexivity|]. simpl.
    rewrite remove_filter_stats. reflexivity.
  - apply qemu_log_instr_set_buffer_size_accounted.
Qed.

(** X18.  Along every run of logger operations the trace of collaborator
    calls only grows, and the [entries_emitted] counter grows, modulo
    2^64, by exactly the number of [emit_instr] calls the run made: no
    entry reaches the backend uncounted, whether it is emitted by a
    commit, by the commit inside a loglevel switch or by a flush, and
    nothing else moves the counter. *)
Theorem entries_emitted_counts_emit_calls (steps : list (target_t * log_op))
  (m m' : machine)
  (Hrun : run_ops steps m = Some m') :
  exists obs,
    trace m' = trace m ++ obs /\
    wrap64 (entries_emitted (stats (cpulog m'))) =
      wrap64 (entries_emitted (stats (cpulog m))
              + Z.of_nat (length (emit_calls obs))).
Proof.
  change (accounted m m').
  revert m Hrun. induction steps as [|[tgt op] steps IH]; intros m Hrun;
    simpl in Hrun.
  - injection Hrun as <-. apply accounted_same; reflexivity.
  - destruct (run_op tgt op m) as [m1|] eqn:Hop; simpl in Hrun; [|discriminate].
    eapply accounted_trans; [eapply run_op_accounted; exact Hop | apply IH, Hrun].
Qed.

(** The sample CPU commits its entry, switches to buffered mode, commits
    an empty entry and flushes. *)
Lemma entries_emitted_counts_emit_calls_witness :
  exists m',
    run_ops [ (sample_target, OpCommit); (sample_target, OpBufferedMode 1);
              (sample_target, OpCommit); (sample_target, OpFlush) ]
      (sample_machine 0 []) = Some m' /\
    exists obs,
      trace m' = [] ++ obs /\
      wrap64 (entries_emitted (stats (cpulog m'))) =
        wrap64 (0 + Z.of_nat (length (emit_calls obs))).
Proof.
  eexists. split; [vm_compute; reflexivity|].
  apply (entries_emitted_counts_emit_calls
           [ (sample_target, OpCommit); (sample_target, OpBufferedMode 1);
             (sample_target, OpCommit); (sample_target, OpFlush) ]
           (sample_machine 0 [])).
  vm_compute. reflexivity.
Defined.

(** ** A pending start is backed by its START event *)

Lemma start_pending_not_starting m :
  starting (cpulog m) = false -> start_pending_ok m.
Proof. intros Hs Hs'. congruence. Qed.

(** An update of the current entry that keeps its events. *)
Lemma start_pending_update m e e' :
  start_pending_ok m ->
  get_cpu_log_entry m = Some e ->
  (forall ev, ev ∈ e_events e -> ev ∈ e_events e') ->
  start_pending_ok (put_entry (ring_head (cpulog m)) e' m).
Proof.
  intros Hok He Hsub Hst. destruct (Hok Hst) as (Ha & e0 & pc & He0 & Hin).
  split; [exact Ha|]. exists e', pc. split.
  - unfold get_cpu_log_entry in *. simpl. apply list_lookup_insert_eq.
    eapply lookup_lt_Some. exact He.
  - apply Hsub. congruence.
Qed.

(** A change that leaves the levels, [starting] and the ring alone. *)
Lemma start_pending_frame m m' :
  start_pending_ok m ->
  starting (cpulog m') = starting (cpulog m) ->
  loglevel_active (cpulog m') = loglevel_active (cpulog m) ->
  get_cpu_log_entry m' = get_cpu_log_entry m ->
  start_pending_ok m'.
Proof.
  intros Hok Hs Ha He Hst. rewrite Hs in Hst. rewrite Ha, He. exact (Hok Hst).
Qed.

Lemma reset_log_buffer_start_pending i m m' :
  reset_log_buffer i m = Some m' -> start_pending_ok m'.
Proof.
  intros Hr. apply start_pending_not_starting.
  apply (reset_log_buffer_flags _ _ _ Hr).
Qed.

Lemma loglevel_switch_start_pending tgt b pc m m' :
  starting (cpulog m) = false ->
  loglevel_active (cpulog m) = b ->
  loglevel_switch_start tgt b pc m = Some m' ->
  start_pending_ok m'.
Proof.
  intros Hst Ha Hs. destruct b.
  - destruct (get_cpu_log_entry m) as [e|] eqn:He.
    + destruct (loglevel_switch_start_true tgt pc m e He)
        as (m1 & e1 & Hs1 & _ & He1 & Hev & _ & _ & Ha1 & _).
      rewrite Hs1 in Hs. injection Hs as <-. intros _.
      split; [congruence|]. exists e1, pc. split; [exact He1|].
      rewrite Hev. apply elem_of_app. right. left.
    + unfold loglevel_switch_start in Hs. unfold get_cpu_log_entry in He.
      simpl in Hs. rewrite He in Hs. discriminate.
  - injection Hs as <-. apply start_pending_not_starting, Hst.
Qed.

Lemma do_cpu_loglevel_switch_start_pending tgt arg m m' :
  start_pending_ok m ->
  do_cpu_loglevel_switch tgt arg m = Some m' ->
  start_pending_ok m'.
Proof.
  intros Hok. unfold do_cpu_loglevel_switch.
  destruct (instr_info (cpulog m) !! ring_head (cpulog m)) as [e|] eqn:He; simpl;
    [|discriminate].
  destruct (negb (has_flag _ _)); [discriminate|].
  destruct (if arg_global arg then _ else _) as [pc|]; simpl; [|discriminate].
  set (nla := next_level_active_of tgt e (next_level arg)).
  destruct (_ && _) eqn:Hnoop.
  { intros [= <-]. apply andb_true_iff in Hnoop as [_ Hsame].
    apply Bool.eqb_prop in Hsame. intros Hst. destruct (Hok Hst) as (Ha & Hentry).
    split; [simpl; congruence | exact Hentry]. }
  destruct (loglevel_active (cpulog m)) eqn:Hprev.
  - destruct (starting (cpulog m)).
    + apply reset_log_buffer_start_pending.
    + match goal with |- context [do_instr_commit tgt ?m2] =>
        destruct (do_instr_commit tgt m2) as [m3|] eqn:Hc; simpl; [|discriminate];
        pose proof (do_instr_commit_frame tgt m2 m3 Hc)
          as (_ & _ & _ & _ & Ha3 & _)
      end.
      destruct (reset_log_buffer (ring_head (cpulog m3)) m3) as [m4|] eqn:Hr; simpl;
        [|discriminate].
      destruct (reset_log_buffer_frame _ _ _ Hr) as (_ & _ & _ & _ & Ha4 & _).
      apply loglevel_switch_start_pending.
      * apply (reset_log_buffer_flags _ _ _ Hr).
      * rewrite Ha4, Ha3. reflexivity.
  - apply loglevel_switch_start_pending; [|reflexivity]. simpl.
    destruct (starting (cpulog m)) eqn:Hst; [|reflexivity].
    destruct (Hok Hst) as [Ha _]. congruence.
Qed.

Lemma flush_loop_start_pending fuel curr m m' :
  start_pending_ok m -> flush_loop fuel curr m = Some m' -> start_pending_ok m'.
Proof.
  revert curr m. induction fuel as [|fuel IH]; intros curr m Hok; simpl.
  - destruct (_ =? _)%nat; [|discriminate]. intros [= <-]. exact Hok.
  - destruct (_ =? _)%nat; [intros [= <-]; exact Hok|].
    destruct (instr_info (cpulog m) !! curr) as [e|]; simpl; [|discriminate].
    apply IH. eapply start_pending_frame; [exact Hok|reflexivity..].
Qed.

Lemma add_filter_frame filter c :
  qemu_log_instr_add_filter filter c =
    set_filters (filters (qemu_log_instr_add_filter filter c)) c.
Proof.
  unfold qemu_log_instr_add_filter. destruct (_ <=? _)%nat;
    [symmetry; apply set_filters_same|].
  destruct (trace_filters !! filter); [|symmetry; apply set_filters_same].
  destruct (filter_index _ _); [symmetry; apply set_filters_same|].
  destruct c; reflexivity.
Qed.

Lemma remove_filter_frame filter c :
  qemu_log_instr_remove_filter filter c =
    set_filters (filters (qemu_log_instr_remove_filter filter c)) c.
Proof.
  unfold qemu_log_instr_remove_filter. destruct (_ <=? _)%nat;
    [symmetry; apply set_filters_same|].
  destruct (trace_filters !! filter); [|symmetry; apply set_filters_same].
  destruct (filter_index _ _); [|symmetry; apply set_filters_same].
  destruct c; reflexivity.
Qed.

Lemma set_buffer_size_starting tgt new_size m m' :
  resize_keeps_a_slot (OpSetBufferSize new_size) ->
  qemu_log_instr_set_buffer_size tgt new_size m = Some m' ->
  m' = m \/ starting (cpulog m') = false.
Proof.
  intros Hkeep Hs.
  destruct (qemu_log_instr_set_buffer_size_cases tgt _ _ _ Hs)
    as [[_ ->]|(Hge & _ & _ & _ & _ & Hflags)]; [left; reflexivity|].
  right. destruct Hkeep as [Hlt|Hnz]; [lia|]. apply Hflags, Hnz.
Qed.

Lemma run_op_start_pending tgt op m m' :
  resize_keeps_a_slot op ->
  start_pending_ok m -> run_op tgt op m = Some m' -> start_pending_ok m'.
Proof.
  intros Hkeep Hok. destruct op; simpl.
  - unfold qemu_log_instr. destruct (get_cpu_log_entry m) as [e|] eqn:He; simpl;
      [|discriminate].
    destruct (_ <? _)%nat; [discriminate|]. intros [= <-].
    apply (start_pending_update m e); [exact Hok | exact He | auto].
  - unfold qemu_log_instr_reg. destruct (get_cpu_log_entry m) as [e|] eqn:He; simpl;
      [|discriminate]. intros [= <-].
    apply (start_pending_update m e); [exact Hok | exact He | auto].
  - unfold qemu_log_instr_mem_int. destruct (get_cpu_log_entry m) as [e|] eqn:He;
      simpl; [|discriminate]. intros [= <-].
    apply (start_pending_update m e); [exact Hok | exact He | auto].
  - unfold qemu_log_instr_event. destruct (get_cpu_log_entry m) as [e|] eqn:He;
      simpl; [|discriminate]. intros [= <-].
    apply (start_pending_update m e); [exact Hok | exact He |].
    intros ev Hev. simpl. apply elem_of_app. left. exact Hev.
  - unfold qemu_log_instr_mode_switch.
    destruct (get_cpu_log_entry m) as [e|] eqn:He; simpl; [|discriminate].
    assert (Hupd : start_pending_ok
              (put_entry (ring_head (cpulog m))
                 (set_e_next_cpu_mode mode
                    (set_e_flags (Z.lor (e_flags e) LI_FLAG_MODE_SWITCH) e)) m))
      by (apply (start_pending_update m e); [exact Hok | exact He | auto]).
    destruct (_ || _); [|destruct (negb _)]; simpl; intros [= <-]; exact Hupd.
  - intros [= <-]. eapply start_pending_frame; [exact Hok|reflexivity..].
  - unfold qemu_log_instr_commit.
    destruct (do_instr_commit tgt m) as [m1|]; simpl; [|discriminate].
    apply reset_log_buffer_start_pending.
  - unfold qemu_log_instr_flush, qemu_log_instr_event.
    destruct (get_cpu_log_entry m) as [e|] eqn:He; simpl; [|discriminate].
    match goal with |- context [qemu_log_instr_check_enabled ?m1] =>
      assert (Hok1 : start_pending_ok m1)
        by (apply (start_pending_update m e); [exact Hok | exact He |];
            intros ev Hev; simpl; apply elem_of_app; left; exact Hev);
      destruct (if qemu_log_instr_check_enabled m1 then Some m1
                else qemu_log_instr_commit tgt m1) as [m2|] eqn:Hm2; simpl;
        [|discriminate];
      assert (Hok2 : start_pending_ok m2)
    end.
    { destruct (qemu_log_instr_check_enabled _); [injection Hm2 as <-; exact Hok1|].
      unfold qemu_log_instr_commit in Hm2.
      destruct (do_instr_commit tgt _) as [m1'|]; simpl in Hm2; [|discriminate].
      eapply reset_log_buffer_start_pending. exact Hm2. }
    destruct (negb (has_flag _ _)); [intros [= <-]; exact Hok2|].
    destruct (flush_loop _ _ m2) as [m3|] eqn:Hl; simpl; [|discriminate].
    intros [= <-]. apply (flush_loop_start_pending _ _ _ _ Hok2) in Hl.
    eapply start_pending_frame; [exact Hl|reflexivity..].
  - intros [= <-]. unfold helper_qemu_log_instr_buffered_mode.
    destruct (enable =? 0); (eapply start_pending_frame; [exact Hok|reflexivity..]).
  - apply do_cpu_loglevel_switch_start_pending, Hok.
  - unfold do_global_loglevel_switch.
    apply do_cpu_loglevel_switch_start_pending.
    destruct (next_level arg); unfold global_loglevel_enable;
      try destruct (has_flag _ _); try exact Hok;
      (eapply start_pending_frame; [exact Hok|reflexivity..]).
  - intros [= <-].
    eapply start_pending_frame; [exact Hok|..];
      unfold get_cpu_log_entry, upd_cpulog; cbn [cpulog];
      rewrite add_filter_frame; reflexivity.
  - intros [= <-].
    eapply start_pending_frame; [exact Hok|..];
      unfold get_cpu_log_entry, upd_cpulog; cbn [cpulog];
      rewrite remove_filter_frame; reflexivity.
  - intros Hs.
    destruct (set_buffer_size_starting tgt new_size m m' Hkeep Hs) as [->|Hst];
      [exact Hok | apply start_pending_not_starting, Hst].
Qed.

(** X19.  Along every run of logger operations that begins in a state
    where it holds, and whose resizes leave the ring a slot (a size
    that [g_array_set_size] does not truncate to 0), a pending start is
    real: whenever [starting] is set the CPU is tracing and the current
    entry carries a START event, so the first entry committed after a
    start announces it.  A state with no start pending (a CPU fresh
    from creation at level NONE, or any state after a commit) is such
    a beginning. *)
Theorem pending_start_has_start_event (steps : list (target_t * log_op))
  (m m' : machine)
  (Hok : start_pending_ok m)
  (Hkeep : Forall (fun step => resize_keeps_a_slot step.2) steps)
  (Hrun : run_ops steps m = Some m') :
  starting (cpulog m') = true ->
  loglevel_active (cpulog m') = true /\
  exists e pc,
    get_cpu_log_entry m' = Some e /\
    LOG_EVENT_STATE LOG_EVENT_STATE_START pc ∈ e_events e.
Proof.
  change (start_pending_ok m').
  revert m Hok Hrun. induction steps as [|[tgt op] steps IH]; intros m Hok Hrun;
    simpl in Hrun.
  - injection Hrun as <-. exact Hok.
  - apply Forall_cons in Hkeep as [Hop1 Hkeep].
    destruct (run_op tgt op m) as [m1|] eqn:Hop; simpl in Hrun; [|discriminate].
    eapply (IH Hkeep); [|exact Hrun]. eapply run_op_start_pending; eassumption.
Qed.

(** An idle CPU is switched to ALL, records an instruction and a user
    event: the start is still pending and its START event is in the
    entry. *)
Lemma pending_start_has_start_event_witness :
  exists m' e pc,
    run_ops [ (sample_target, OpLoglevelSwitch
                 (cpu_loglevel_switch 8192 QEMU_LOG_INSTR_LOGLEVEL_ALL false));
              (sample_target, OpInstr 8192 [19; 0; 0; 0]);
              (sample_target, OpEvent (LOG_EVENT_USER 1 2)) ]
      idle_machine = Some m' /\
    starting (cpulog m') = true /\
    get_cpu_log_entry m' = Some e /\
    LOG_EVENT_STATE LOG_EVENT_STATE_START pc ∈ e_events e.
Proof.
  eexists.
  match goal with |- exists e pc, run_ops ?steps ?m = Some ?m' /\ _ =>
    assert (Hrun : run_ops steps m = Some m') by (vm_compute; reflexivity);
    destruct (pending_start_has_start_event steps m m')
      as (_ & e & pc & He & Hin);
      [apply start_pending_not_starting; reflexivity | repeat constructor
      | exact Hrun | vm_compute; reflexivity |];
    exists e, pc; split; [exact Hrun|]; split; [vm_compute; reflexivity|];
    split; [exact He | exact Hin]
  end.
Defined.

(** ** Streaming commits *)

Lemma do_instr_commit_streaming_pass tgt m entry :
  get_cpu_log_entry m = Some entry ->
  force_drop (cpulog m) = false ->
  has_flag (cl_flags (cpulog m)) QEMU_LOG_INSTR_FLAG_BUFFERED = false ->
  Forall (fun g => call_filter tgt g entry = true) (filters (cpulog m)) ->
  do_instr_commit tgt m =
    Some (upd_cpulog (fun c => set_stats (inc_entries_emitted (stats c)) c)
            (observe [ObsEmitInstr entry]
               (observe (map (fun g => ObsFilter g entry true) (filters (cpulog m)))
                  m))).
Proof.
  intros He Hfd Hb Hpass. unfold do_instr_commit.
  rewrite Hfd, He. simpl. rewrite (run_filters_pass tgt _ _ Hpass). simpl.
  rewrite Hb. reflexivity.
Qed.

(** X20.  A commit on a CPU that streams (buffered mode off), with no
    drop requested and an entry every installed filter accepts: the
    filters are evaluated in array order, then the backend's
    [emit_instr] is called exactly once with the entry as it stands,
    [entries_emitted] is incremented, the ring indices do not move, the
    slot is then reset in place (the other slots are untouched) and the
    register dumps of the entry's events are freed. *)
Theorem streaming_commit_emits_once (tgt : target_t) (m : machine)
  (entry : cpu_log_entry_t)
  (Hentry : get_cpu_log_entry m = Some entry)
  (Hdrop : force_drop (cpulog m) = false)
  (Hstream : has_flag (cl_flags (cpulog m)) QEMU_LOG_INSTR_FLAG_BUFFERED = false)
  (Hpass : Forall (fun g => call_filter tgt g entry = true) (filters (cpulog m))) :
  exists m',
    qemu_log_instr_commit tgt m = Some m' /\
    trace m' =
      trace m ++ map (fun g => ObsFilter g entry true) (filters (cpulog m))
              ++ [ObsEmitInstr entry] /\
    entries_emitted (stats (cpulog m')) = inc_stat (entries_emitted (stats (cpulog m))) /\
    ring_head (cpulog m') = ring_head (cpulog m) /\
    ring_tail (cpulog m') = ring_tail (cpulog m) /\
    instr_info (cpulog m') =
      <[ring_head (cpulog m) := reset_entry entry]> (instr_info (cpulog m)) /\
    canonically_empty (reset_entry entry) /\
    (forall a, LOG_EVENT_REGDUMP a ∈ e_events entry -> heap m' !! a = None) /\
    (forall a, LOG_EVENT_REGDUMP a ∉ e_events entry -> heap m' !! a = heap m !! a).
Proof.
  unfold qemu_log_instr_commit.
  rewrite (do_instr_commit_streaming_pass tgt m entry Hentry Hdrop Hstream Hpass).
  cbn [mbind option_bind].
  match goal with |- context [reset_log_buffer ?i ?m1] =>
    rewrite (reset_log_buffer_eq i m1 entry) by exact Hentry end.
  eexists. split; [reflexivity|]. simpl.
  split; [rewrite <- app_assoc; reflexivity|].
  do 4 (split; [reflexivity|]).
  split; [apply reset_entry_canonical|]. split.
  - intros a Ha. apply free_event_payloads_frees, Ha.
  - intros a Ha. apply free_event_payloads_other, Ha.
Qed.

(** The sample CPU with the event filter installed commits an entry
    that carries a user event. *)
Lemma streaming_commit_emits_once_witness :
  exists m',
    qemu_log_instr_commit sample_target
      (put_entry 0 (set_e_events [LOG_EVENT_USER 1 2] sample_entry)
         (sample_machine 0 [entry_event_filter_fn])) = Some m' /\
    trace m' =
      [ObsFilter entry_event_filter_fn
         (set_e_events [LOG_EVENT_USER 1 2] sample_entry) true;
       ObsEmitInstr (set_e_events [LOG_EVENT_USER 1 2] sample_entry)] /\
    entries_emitted (stats (cpulog m')) = 1.
Proof.
  destruct (streaming_commit_emits_once sample_target
              (put_entry 0 (set_e_events [LOG_EVENT_USER 1 2] sample_entry)
                 (sample_machine 0 [entry_event_filter_fn]))
              (set_e_events [LOG_EVENT_USER 1 2] sample_entry))
    as (m' & Hc & Ht & Hs & _).
  - reflexivity.
  - reflexivity.
  - reflexivity.
  - repeat constructor.
  - exists m'. split; [exact Hc|]. split; [exact Ht | exact Hs].
Defined.

(** ** Stopping a trace *)

(** X21.  A loglevel switch that stops a running trace (the previous
    level was active with no start pending, the next one is not) on a
    CPU that streams: the STOP event at the switch pc is appended to the
    current entry and that entry is committed at once, [trace_stop] is
    incremented, and the switch ends with the CPU inactive on an empty
    current entry.  The backend receives the entry with the STOP event
    when the filters accept it; when a drop was requested the STOP
    entry is discarded without a backend call, the counter having been
    incremented all the same. *)
Theorem loglevel_switch_stop_commits_stop_event (tgt : target_t)
  (arg : qemu_log_next_level_arg_t) (m : machine) (entry : cpu_log_entry_t) (pc : Z)
  (Hwf : ring_wf (cpulog m))
  (Hentry : get_cpu_log_entry m = Some entry)
  (Hglobal : has_flag (qemu_loglevel m) CPU_LOG_INSTR = true)
  (Hpc : (if arg_global arg then Some (cpu_get_recent_pc tgt) else arg_pc arg)
         = Some pc)
  (Hactive : loglevel_active (cpulog m) = true)
  (Hstarted : starting (cpulog m) = false)
  (Hnext : next_level_active_of tgt entry (next_level arg) = false)
  (Hstream : has_flag (cl_flags (cpulog m)) QEMU_LOG_INSTR_FLAG_BUFFERED = false) :
  let stopped := emit_stop_event entry pc in
  e_events stopped = e_events entry ++ [LOG_EVENT_STATE LOG_EVENT_STATE_STOP pc] /\
  exists m' e',
    do_cpu_loglevel_switch tgt arg m = Some m' /\
    loglevel (cpulog m') = next_level arg /\
    loglevel_active (cpulog m') = false /\
    starting (cpulog m') = false /\
    force_drop (cpulog m') = false /\
    trace_stop (stats (cpulog m')) = inc_stat (trace_stop (stats (cpulog m))) /\
    trace_start (stats (cpulog m')) = trace_start (stats (cpulog m)) /\
    get_cpu_log_entry m' = Some e' /\ canonically_empty e' /\
    (force_drop (cpulog m) = true -> trace m' = trace m) /\
    (force_drop (cpulog m) = false ->
     Forall (fun g => call_filter tgt g stopped = true) (filters (cpulog m)) ->
     trace m' =
       trace m ++ map (fun g => ObsFilter g stopped true) (filters (cpulog m))
               ++ [ObsEmitInstr stopped]).
Proof.
  cbv zeta. split; [reflexivity|].
  pose proof Hentry as He. unfold get_cpu_log_entry in He.
  unfold do_cpu_loglevel_switch. rewrite He. cbn [mbind option_bind].
  rewrite Hglobal, Hpc. cbn [negb mbind option_bind].
  rewrite Hnext, Hactive. cbn [eqb]. rewrite andb_false_r.
  cbn [starting cpulog upd_cpulog set_loglevel]. rewrite Hstarted.
  set (stopped := emit_stop_event entry pc).
  match goal with |- context [do_instr_commit tgt ?m2'] => set (m2 := m2') end.
  assert (Hwf2 : ring_wf (cpulog m2)).
  { destruct Hwf as [Hh Ht]. split; simpl; rewrite length_insert; assumption. }
  assert (He2 : get_cpu_log_entry m2 = Some stopped).
  { unfold get_cpu_log_entry. simpl. apply list_lookup_insert_eq.
    eapply lookup_lt_Some. exact He. }
  destruct (do_instr_commit_defined tgt m2 Hwf2) as (m3 & Hc & Hinfo3 & Hwf3 & _).
  pose proof (do_instr_commit_frame tgt m2 m3 Hc)
    as (_ & _ & _ & Hl3 & Ha3 & _ & Hts3 & Htp3 & _).
  pose proof (do_instr_commit_streaming_head tgt m2 m3 Hstream Hc) as Hh3.
  rewrite Hc. cbn [mbind option_bind].
  assert (He3 : instr_info (cpulog m3) !! ring_head (cpulog m3) = Some stopped)
    by (rewrite Hh3, Hinfo3; exact He2).
  rewrite (reset_log_buffer_eq _ _ _ He3). cbn [mbind option_bind].
  unfold loglevel_switch_start.
  eexists. exists (reset_entry stopped). split; [reflexivity|].
  cbn [cpulog loglevel loglevel_active starting force_drop stats trace].
  split; [exact Hl3|]. split; [exact Ha3|]. split; [reflexivity|].
  split; [reflexivity|]. split; [exact Htp3|]. split; [exact Hts3|].
  split.
  { unfold get_cpu_log_entry. simpl. apply list_lookup_insert_eq.
    eapply lookup_lt_Some. exact He3. }
  split; [apply reset_entry_canonical|]. split.
  - intros Hfd. unfold do_instr_commit in Hc.
    change (force_drop (cpulog m2)) with (force_drop (cpulog m)) in Hc.
    rewrite Hfd in Hc. injection Hc as <-. reflexivity.
  - intros Hfd Hpass.
    rewrite (do_instr_commit_streaming_pass tgt m2 stopped He2 Hfd Hstream Hpass) in Hc.
    injection Hc as <-. simpl. rewrite <- app_assoc. reflexivity.
Qed.

(** The sample CPU, tracing at level ALL, runs the switch the stop
    helper queues at pc 8196: the backend gets the entry under construction with the STOP
    event at its end. *)
Lemma loglevel_switch_stop_commits_stop_event_witness :
  exists m',
    do_cpu_loglevel_switch sample_target (helper_qemu_log_instr_stop 8196)
      (sample_machine 0 []) = Some m' /\
    loglevel_active (cpulog m') = false /\
    trace_stop (stats (cpulog m')) = 1 /\
    trace m' = [ObsEmitInstr (emit_stop_event sample_entry 8196)].
Proof.
  pose proof (loglevel_switch_stop_commits_stop_event sample_target
                (cpu_loglevel_switch 8196 QEMU_LOG_INSTR_LOGLEVEL_NONE false)
                (sample_machine 0 []) sample_entry 8196) as H.
  cbv zeta in H.
  destruct H as (_ & m' & e' & Hs & _ & Ha & _ & _ & Hstop & _ & _ & _ & _ & Htr).
  - split; simpl; lia.
  - reflexivity.
  - reflexivity.
  - reflexivity.
  - reflexivity.
  - reflexivity.
  - reflexivity.
  - reflexivity.
  - exists m'. split; [exact Hs|]. split; [exact Ha|]. split; [exact Hstop|].
    apply Htr; [reflexivity | constructor].
Defined.

(** ** Leaving buffered mode *)

(** X22.  Leaving buffered mode does not drain the ring.  After
    [helper_qemu_log_instr_buffered_mode(env, 0)] the entries that were
    queued are still between tail and head, and a flush on the tracing
    CPU only appends its FLUSH event to the current entry: no backend
    call is made, no counter moves and head and tail stay where they
    were, so the queued entries remain in the ring. *)
Theorem buffered_mode_off_strands_queue (tgt : target_t) (m0 : machine)
  (entry : cpu_log_entry_t)
  (Hentry : get_cpu_log_entry m0 = Some entry)
  (Henabled : qemu_log_instr_check_enabled m0 = true) :
  let m := helper_qemu_log_instr_buffered_mode 0 m0 in
  has_flag (cl_flags (cpulog m)) QEMU_LOG_INSTR_FLAG_BUFFERED = false /\
  ring_slice (cpulog m) = ring_slice (cpulog m0) /\
  exists m',
    qemu_log_instr_flush tgt m = Some m' /\
    get_cpu_log_entry m' =
      Some (set_e_events
              (e_events entry ++ [LOG_EVENT_STATE LOG_EVENT_STATE_FLUSH (e_pc entry)])
              entry) /\
    trace m' = trace m0 /\
    stats (cpulog m') = stats (cpulog m0) /\
    ring_head (cpulog m') = ring_head (cpulog m0) /\
    ring_tail (cpulog m') = ring_tail (cpulog m0) /\
    ring_slice (cpulog m') = ring_slice (cpulog m0).
Proof.
  cbv zeta. unfold helper_qemu_log_instr_buffered_mode. cbn [Z.eqb].
  assert (Hclear : has_flag (Z.land (cl_flags (cpulog m0))
                               (Z.lnot QEMU_LOG_INSTR_FLAG_BUFFERED))
                     QEMU_LOG_INSTR_FLAG_BUFFERED = false).
  { unfold has_flag. rewrite land_lnot_clears. reflexivity. }
  split; [exact Hclear|]. split; [reflexivity|].
  pose proof Hentry as He. unfold get_cpu_log_entry in He.
  unfold qemu_log_instr_flush, qemu_log_instr_event, get_cpu_log_entry.
  cbn [cpulog upd_cpulog instr_info ring_head ring_tail set_cl_flags].
  rewrite He. cbn [mbind option_bind].
  unfold qemu_log_instr_check_enabled in *.
  cbn [cpulog upd_cpulog put_entry qemu_loglevel loglevel_active set_cl_flags
       set_instr_info instr_info ring_head].
  rewrite Henabled. cbn [mbind option_bind].
  cbn [cpulog upd_cpulog put_entry cl_flags set_cl_flags set_instr_info].
  rewrite Hclear. cbn [negb].
  eexists. split; [reflexivity|]. simpl.
  split; [apply list_lookup_insert_eq; eapply lookup_lt_Some; exact He|].
  do 4 (split; [reflexivity|]).
  unfold ring_slice. simpl. apply ring_slice_from_insert_head.
Qed.

(** The sample ring with one entry queued in buffered mode (tail 0,
    head 1): buffered mode is switched off and the CPU flushes. *)
Lemma buffered_mode_off_strands_queue_witness :
  exists m',
    qemu_log_instr_flush sample_target
      (helper_qemu_log_instr_buffered_mode 0
         (upd_cpulog (set_ring 1 0) (sample_machine QEMU_LOG_INSTR_FLAG_BUFFERED [])))
      = Some m' /\
    trace m' = [] /\
    ring_slice (cpulog m') = [sample_entry].
Proof.
  pose proof (buffered_mode_off_strands_queue sample_target
                (upd_cpulog (set_ring 1 0)
                   (sample_machine QEMU_LOG_INSTR_FLAG_BUFFERED []))
                (zero_entry sample_target)) as H.
  cbv zeta in H. destruct H as (_ & _ & m' & Hf & _ & Ht & _ & _ & _ & Hs).
  - reflexivity.
  - reflexivity.
  - exists m'. split; [exact Hf|]. split; [exact Ht | exact Hs].
Defined.

(** ** Staged printf below slot 31 *)

(** X23.  [helper_qemu_log_printf_dump] while only slots 0..30 are
    staged, each with a format: the bitmap is cleared and, on a CPU that
    traces, the text of every staged slot is appended to the text
    buffer of the current entry, lowest slot first; nothing else of the
    entry or of the log state changes.  On a CPU that does not trace
    only the bitmap is cleared.  With nothing staged the helper changes
    nothing at all. *)
Theorem printf_dump_renders_low_slots (tgt : target_t) (m : machine)
  (entry : cpu_log_entry_t)
  (Hrange : 0 <= valid_entries (qemu_log_printf_buf (cpulog m)) < 2 ^ 31)
  (Hfmts : forall j,
     Z.testbit (valid_entries (qemu_log_printf_buf (cpulog m))) (Z.of_nat j) = true ->
     is_Some (pb_fmts (qemu_log_printf_buf (cpulog m)) !! j))
  (Hentry : get_cpu_log_entry m = Some entry) :
  let buf := qemu_log_printf_buf (cpulog m) in
  let cleared :=
    upd_cpulog (set_printf_buf (mk_printf_buf (pb_args buf) (pb_fmts buf) 0)) m in
  helper_qemu_log_printf_dump tgt m =
    Ok (if qemu_log_instr_check_enabled m
        then put_entry (ring_head (cpulog m))
               (set_e_txt_buffer
                  (e_txt_buffer entry
                   +:+ rendered tgt buf (set_bits (valid_entries buf)))%string
                  entry)
               cleared
        else cleared) /\
  (valid_entries buf = 0 -> helper_qemu_log_printf_dump tgt m = Ok m).
Proof.
  cbv zeta.
  assert (Hmain : helper_qemu_log_printf_dump tgt m =
    Ok (if qemu_log_instr_check_enabled m
        then put_entry (ring_head (cpulog m))
               (set_e_txt_buffer
                  (e_txt_buffer entry
                   +:+ rendered tgt (qemu_log_printf_buf (cpulog m))
                         (set_bits (valid_entries (qemu_log_printf_buf (cpulog m)))))%string
                  entry)
               (upd_cpulog
                  (set_printf_buf
                     (mk_printf_buf (pb_args (qemu_log_printf_buf (cpulog m)))
                        (pb_fmts (qemu_log_printf_buf (cpulog m))) 0)) m)
        else upd_cpulog
               (set_printf_buf
                  (mk_printf_buf (pb_args (qemu_log_printf_buf (cpulog m)))
                     (pb_fmts (qemu_log_printf_buf (cpulog m))) 0)) m)).
  { destruct (qemu_log_instr_check_enabled m) eqn:Hen.
    - unfold helper_qemu_log_printf_dump.
      change (qemu_log_instr_check_enabled (upd_cpulog _ m))
        with (qemu_log_instr_check_enabled m).
      change (get_cpu_log_entry (upd_cpulog _ m)) with (get_cpu_log_entry m).
      rewrite Hen, Hentry. simpl negb. cbv iota.
      rewrite (printf_dump_loop_low tgt _ 64 0%nat); [reflexivity|..].
      + lia.
      + lia.
      + apply Hrange.
      + intros j Hj. lia.
      + apply low_bits_above. exact Hrange.
      + exact Hfmts.
    - apply printf_dump_disabled. exact Hen. }
  split; [exact Hmain|].
  intros Hzero. rewrite Hmain, Hzero.
  assert (Hcl : upd_cpulog
                  (set_printf_buf
                     (mk_printf_buf (pb_args (qemu_log_printf_buf (cpulog m)))
                        (pb_fmts (qemu_log_printf_buf (cpulog m))) 0)) m = m).
  { destruct m as [c q h hn t]. destruct c as [? ? ? ? ? ? ? ? ? ? pb].
    destruct pb as [a f v]. simpl in Hzero. subst v. reflexivity. }
  rewrite Hcl. destruct (qemu_log_instr_check_enabled m); [|reflexivity].
  f_equal. unfold set_bits. rewrite filter_none.
  - simpl. rewrite string_app_nil_r.
    replace (set_e_txt_buffer (e_txt_buffer entry) entry) with entry
      by (destruct entry; reflexivity).
    unfold put_entry, upd_cpulog, set_instr_info.
    unfold get_cpu_log_entry in Hentry. rewrite list_insert_id by exact Hentry.
    destruct m as [[] ? ? ? ?]. reflexivity.
  - apply Forall_forall. intros i _ Hb. rewrite Z.bits_0 in Hb. discriminate.
Qed.

(** Slots 3 and 1 are staged, in that order, on the sample CPU (whose
    renderer returns the format itself): the text gains the format of
    slot 1, then that of slot 3. *)
Lemma printf_dump_renders_low_slots_witness :
  exists m' e',
    helper_qemu_log_printf_dump sample_target
      (upd_cpulog
         (fun c =>
            set_printf_buf
              (stage_slot 1 "one;" (stage_slot 3 "three;" (qemu_log_printf_buf c))) c)
         (sample_machine 0 [])) = Ok m' /\
    valid_entries (qemu_log_printf_buf (cpulog m')) = 0 /\
    get_cpu_log_entry m' = Some e' /\
    e_txt_buffer e' = "noteone;three;".
Proof.
  pose proof (printf_dump_renders_low_slots sample_target
                (upd_cpulog
                   (fun c =>
                      set_printf_buf
                        (stage_slot 1 "one;"
                           (stage_slot 3 "three;" (qemu_log_printf_buf c))) c)
                   (sample_machine 0 []))
                sample_entry) as H.
  cbv zeta in H. destruct H as [H _].
  - vm_compute. split; [discriminate | reflexivity].
  - intros j Hj. apply lookup_lt_is_Some_2.
    destruct (Nat.lt_ge_cases j 32) as [Hlt|Hge]; [exact Hlt|].
    exfalso. revert Hj.
    change (valid_entries _) with 10.
    rewrite (Z.bits_above_log2 10 (Z.of_nat j)); [discriminate | lia |].
    change (Z.log2 10) with 3. lia.
  - reflexivity.
  - eexists. eexists. split; [exact H|]. split; [reflexivity|].
    split; reflexivity.
Defined.
